(** * Shogi rules engine and search: a shallow embedding of the TypeScript
    sources (types, logic/board, logic/moves, logic/legalMoves,
    logic/gameRules, ai/evaluation, ai/multiStageEngine, ai/intermediate,
    hooks/useGameHistory, and the move and drop handlers of App).

    Conventions of the embedding.
    - A JavaScript [number] holding a coordinate, an index or a reserve count
      is a [Z]; a score is an IEEE binary64 [float], as in the source.
    - [Board] is [Square[][]]: a list of rows, each a list of squares; [null]
      is [None].  The declared shape is 9x9 and positions are 1..9; inside
      that shape every read and write below is the source's.  Outside it a
      read yields [None] (JavaScript yields [undefined], which the source
      tests by truthiness) and a write is dropped.
    - Every simulated move works on [cloneBoard], a deep copy, so boards are
      plain values and no aliasing is observable.
    - [throw new Error(msg)] is [inl msg] in a sum type. *)

From Stdlib Require Import ZArith List Bool String Ascii DecimalString Lia.
From Stdlib Require Import Floats Uint63 Permutation Sorted.
From Stdlib Require DecimalPos DecimalZ.
Import ListNotations.
Open Scope Z_scope.

(* ================================================================== *)
(** ** types *)

Inductive AllPieceType : Type :=
| king | rook | bishop | gold | silver | knight | lance | pawn
| promotedRook | promotedBishop | promotedSilver | promotedKnight
| promotedLance | promotedPawn.

(** [HandPieceType = Exclude<PieceType, 'king'>]. *)
Inductive HandPieceType : Type :=
| handRook | handBishop | handGold | handSilver | handKnight | handLance
| handPawn.

Definition handKind (k : HandPieceType) : AllPieceType :=
  match k with
  | handRook => rook | handBishop => bishop | handGold => gold
  | handSilver => silver | handKnight => knight | handLance => lance
  | handPawn => pawn
  end.

Inductive Player : Type := sente | gote.

Record Position : Type := mkPosition { col : Z; row : Z }.

Record Piece : Type :=
  mkPiece { type : AllPieceType; owner : Player; isPromoted : bool }.

Definition Square : Type := option Piece.

Definition Board : Type := list (list Square).

(** [Hand]: one count per reserve kind. *)
Record Hand : Type := mkHand {
  inRook : Z; inBishop : Z; inGold : Z; inSilver : Z;
  inKnight : Z; inLance : Z; inPawn : Z }.

Definition handCount (hand : Hand) (k : HandPieceType) : Z :=
  match k with
  | handRook => inRook hand | handBishop => inBishop hand
  | handGold => inGold hand | handSilver => inSilver hand
  | handKnight => inKnight hand | handLance => inLance hand
  | handPawn => inPawn hand
  end.

Definition handWith (hand : Hand) (k : HandPieceType) (n : Z) : Hand :=
  match k with
  | handRook => mkHand n (inBishop hand) (inGold hand) (inSilver hand)
                       (inKnight hand) (inLance hand) (inPawn hand)
  | handBishop => mkHand (inRook hand) n (inGold hand) (inSilver hand)
                         (inKnight hand) (inLance hand) (inPawn hand)
  | handGold => mkHand (inRook hand) (inBishop hand) n (inSilver hand)
                       (inKnight hand) (inLance hand) (inPawn hand)
  | handSilver => mkHand (inRook hand) (inBishop hand) (inGold hand) n
                         (inKnight hand) (inLance hand) (inPawn hand)
  | handKnight => mkHand (inRook hand) (inBishop hand) (inGold hand)
                         (inSilver hand) n (inLance hand) (inPawn hand)
  | handLance => mkHand (inRook hand) (inBishop hand) (inGold hand)
                        (inSilver hand) (inKnight hand) n (inPawn hand)
  | handPawn => mkHand (inRook hand) (inBishop hand) (inGold hand)
                       (inSilver hand) (inKnight hand) (inLance hand) n
  end.

Record Hands : Type := mkHands { senteHand : Hand; goteHand : Hand }.

Definition handOf (hands : Hands) (p : Player) : Hand :=
  match p with sente => senteHand hands | gote => goteHand hands end.

Definition handsWith (hands : Hands) (p : Player) (h : Hand) : Hands :=
  match p with
  | sente => mkHands h (goteHand hands)
  | gote => mkHands (senteHand hands) h
  end.

Record MoveAction : Type := mkMoveAction {
  from : Position;
  to : Position;
  piece : AllPieceType;
  captured : option AllPieceType;
  promote : bool }.

Record DropAction : Type := mkDropAction {
  dropTo : Position;
  dropPiece : HandPieceType }.

Inductive Move : Type :=
| MoveOf (m : MoveAction)
| DropOf (d : DropAction).

Inductive GamePhase : Type := opening | middlegame | endgame.

Inductive RepetitionOutcome : Type :=
| draw
| wonBy (p : Player).

Inductive GameResult : Type :=
| ongoing
| checkmate (winner : Player)
| stalemate (winner : Player)
| repetition (result : RepetitionOutcome)
| resignation (winner : Player).

Record GameState : Type := mkGameState {
  board : Board;
  hands : Hands;
  currentPlayer : Player;
  moveHistory : list Move;
  positionHistory : list string;
  moveCount : Z;
  gamePhase : GamePhase;
  result : GameResult;
  isCheck : bool }.

(** Decidable equalities standing for the source's [===] on tags. *)

Definition playerEqb (a b : Player) : bool :=
  match a, b with
  | sente, sente | gote, gote => true
  | _, _ => false
  end.

Definition pieceTypeEqb (a b : AllPieceType) : bool :=
  match a, b with
  | king, king | rook, rook | bishop, bishop | gold, gold
  | silver, silver | knight, knight | lance, lance | pawn, pawn
  | promotedRook, promotedRook | promotedBishop, promotedBishop
  | promotedSilver, promotedSilver | promotedKnight, promotedKnight
  | promotedLance, promotedLance | promotedPawn, promotedPawn => true
  | _, _ => false
  end.

Definition positionEqb (a b : Position) : bool :=
  (col a =? col b) && (row a =? row b).

(** [player === 'sente' ? 'gote' : 'sente']. *)
Definition opponentOf (player : Player) : Player :=
  match player with sente => gote | gote => sente end.

(* ================================================================== *)
(** ** logic/board *)

Definition createEmptyHand : Hand := mkHand 0 0 0 0 0 0 0.

Definition createPiece (t : AllPieceType) (o : Player) : Piece :=
  mkPiece t o false.

Definition positionToIndex (pos : Position) : Z * Z :=
  (row pos - 1, 9 - col pos).

Definition indexToPosition (rowIndex colIndex : Z) : Position :=
  mkPosition (9 - colIndex) (rowIndex + 1).

(** [board[rowIndex][colIndex]]. *)
Definition boardAt (b : Board) (rowIndex colIndex : Z) : Square :=
  if (rowIndex <? 0) || (colIndex <? 0) then None
  else nth (Z.to_nat colIndex) (nth (Z.to_nat rowIndex) b []) None.

Definition getPieceAt (b : Board) (pos : Position) : Square :=
  let '(rowIndex, colIndex) := positionToIndex pos in
  boardAt b rowIndex colIndex.

Fixpoint replaceNth {A : Type} (n : nat) (f : A -> A) (l : list A) : list A :=
  match l, n with
  | [], _ => []
  | x :: t, O => f x :: t
  | x :: t, S n' => x :: replaceNth n' f t
  end.

(** [board[rowIndex][colIndex] = sq] on a fresh copy. *)
Definition boardPut (b : Board) (rowIndex colIndex : Z) (sq : Square) : Board :=
  if (rowIndex <? 0) || (colIndex <? 0) then b
  else replaceNth (Z.to_nat rowIndex)
         (replaceNth (Z.to_nat colIndex) (fun _ => sq)) b.

Definition isValidPosition (c r : Z) : bool :=
  (1 <=? c) && (c <=? 9) && (1 <=? r) && (r <=? 9).

Definition addToHand (hand : Hand) (pieceType : HandPieceType) : Hand :=
  handWith hand pieceType (handCount hand pieceType + 1).

(** The name a kind has in the source, as template strings print it. *)
Definition kindName (t : AllPieceType) : string :=
  match t with
  | king => "king" | rook => "rook" | bishop => "bishop" | gold => "gold"
  | silver => "silver" | knight => "knight" | lance => "lance"
  | pawn => "pawn"
  | promotedRook => "promotedRook" | promotedBishop => "promotedBishop"
  | promotedSilver => "promotedSilver" | promotedKnight => "promotedKnight"
  | promotedLance => "promotedLance" | promotedPawn => "promotedPawn"
  end%string.

Definition Thrown (A : Type) : Type := (string + A)%type.

Definition removeFromHand (hand : Hand) (pieceType : HandPieceType)
  : Thrown Hand :=
  if handCount hand pieceType <=? 0 then
    inl ("Cannot remove " ++ kindName (handKind pieceType)
         ++ " from hand: none available")%string
  else inr (handWith hand pieceType (handCount hand pieceType - 1)).

Definition PROMOTION_MAP (t : AllPieceType) : option AllPieceType :=
  match t with
  | rook => Some promotedRook
  | bishop => Some promotedBishop
  | silver => Some promotedSilver
  | knight => Some promotedKnight
  | lance => Some promotedLance
  | pawn => Some promotedPawn
  | _ => None
  end.

Definition UNPROMOTE_MAP (t : AllPieceType) : option AllPieceType :=
  match t with
  | promotedRook => Some rook
  | promotedBishop => Some bishop
  | promotedSilver => Some silver
  | promotedKnight => Some knight
  | promotedLance => Some lance
  | promotedPawn => Some pawn
  | _ => None
  end.

Definition canPromote (pieceType : AllPieceType) : bool :=
  match PROMOTION_MAP pieceType with Some _ => true | None => false end.

Definition promotePiece (pieceType : AllPieceType) : Thrown AllPieceType :=
  match PROMOTION_MAP pieceType with
  | Some promoted => inr promoted
  | None => inl ("Cannot promote " ++ kindName pieceType)%string
  end.

Definition isPromotedPiece (pieceType : AllPieceType) : bool :=
  match UNPROMOTE_MAP pieceType with Some _ => true | None => false end.

Definition unpromotePiece (pieceType : AllPieceType) : AllPieceType :=
  match UNPROMOTE_MAP pieceType with
  | Some base => base
  | None => pieceType
  end.

Definition toHandPieceType (pieceType : AllPieceType) : Thrown HandPieceType :=
  match unpromotePiece pieceType with
  | king => inl "King cannot be captured"%string
  | rook => inr handRook
  | bishop => inr handBishop
  | gold => inr handGold
  | silver => inr handSilver
  | knight => inr handKnight
  | lance => inr handLance
  | pawn => inr handPawn
  | _ => inl "King cannot be captured"%string
      (* not reached: [unpromotePiece] yields one of the eight base kinds *)
  end.

(** [cloneBoard]: a deep copy; on values, the identity. *)
Definition cloneBoard (b : Board) : Board :=
  map (fun r => map (fun sq : Square =>
                       match sq with
                       | Some p => Some (mkPiece (type p) (owner p) (isPromoted p))
                       | None => None
                       end) r) b.

Definition emptyRow : list Square := repeat None 9.

Definition pawnRow (o : Player) : list Square :=
  repeat (Some (createPiece pawn o)) 9.

Definition backRow (o : Player) : list Square :=
  map (fun t => Some (createPiece t o))
      [lance; knight; silver; gold; king; gold; silver; knight; lance].

Definition createInitialBoard : Board :=
  [ backRow gote;
    [None; Some (createPiece rook gote); None; None; None; None; None;
     Some (createPiece bishop gote); None];
    pawnRow gote;
    emptyRow; emptyRow; emptyRow;
    pawnRow sente;
    [None; Some (createPiece bishop sente); None; None; None; None; None;
     Some (createPiece rook sente); None];
    backRow sente ].

Definition createInitialGameState : GameState :=
  mkGameState createInitialBoard (mkHands createEmptyHand createEmptyHand)
    sente [] [] 0 opening ongoing false.

(* ================================================================== *)
(** ** logic/moves *)

(** A direction from the first player's point of view. *)
Record Direction : Type := mkDirection { dcol : Z; drow : Z }.

Inductive MoveType : Type := step | slide.

Record MovePattern : Type :=
  mkMovePattern { direction : Direction; moveType : MoveType }.

Module DIRECTIONS.
Definition UP := mkDirection 0 (-1).
Definition DOWN := mkDirection 0 1.
Definition LEFT := mkDirection (-1) 0.
Definition RIGHT := mkDirection 1 0.
Definition UP_LEFT := mkDirection (-1) (-1).
Definition UP_RIGHT := mkDirection 1 (-1).
Definition DOWN_LEFT := mkDirection (-1) 1.
Definition DOWN_RIGHT := mkDirection 1 1.
Definition KNIGHT_LEFT := mkDirection (-1) (-2).
Definition KNIGHT_RIGHT := mkDirection 1 (-2).
End DIRECTIONS.
Import DIRECTIONS.

Definition stepping (d : Direction) : MovePattern := mkMovePattern d step.
Definition sliding (d : Direction) : MovePattern := mkMovePattern d slide.

Definition KING_MOVES : list MovePattern :=
  map stepping
      [UP; DOWN; LEFT; RIGHT; UP_LEFT; UP_RIGHT; DOWN_LEFT; DOWN_RIGHT].

Definition ROOK_MOVES : list MovePattern :=
  map sliding [UP; DOWN; LEFT; RIGHT].

Definition PROMOTED_ROOK_MOVES : list MovePattern :=
  ROOK_MOVES ++ map stepping [UP_LEFT; UP_RIGHT; DOWN_LEFT; DOWN_RIGHT].

Definition BISHOP_MOVES : list MovePattern :=
  map sliding [UP_LEFT; UP_RIGHT; DOWN_LEFT; DOWN_RIGHT].

Definition PROMOTED_BISHOP_MOVES : list MovePattern :=
  BISHOP_MOVES ++ map stepping [UP; DOWN; LEFT; RIGHT].

Definition GOLD_MOVES : list MovePattern :=
  map stepping [UP; UP_LEFT; UP_RIGHT; LEFT; RIGHT; DOWN].

Definition SILVER_MOVES : list MovePattern :=
  map stepping [UP; UP_LEFT; UP_RIGHT; DOWN_LEFT; DOWN_RIGHT].

Definition KNIGHT_MOVES : list MovePattern :=
  map stepping [KNIGHT_LEFT; KNIGHT_RIGHT].

Definition LANCE_MOVES : list MovePattern := [sliding UP].

Definition PAWN_MOVES : list MovePattern := [stepping UP].

Definition PIECE_MOVES (t : AllPieceType) : list MovePattern :=
  match t with
  | king => KING_MOVES
  | rook => ROOK_MOVES
  | bishop => BISHOP_MOVES
  | gold => GOLD_MOVES
  | silver => SILVER_MOVES
  | knight => KNIGHT_MOVES
  | lance => LANCE_MOVES
  | pawn => PAWN_MOVES
  | promotedRook => PROMOTED_ROOK_MOVES
  | promotedBishop => PROMOTED_BISHOP_MOVES
  | promotedSilver => GOLD_MOVES
  | promotedKnight => GOLD_MOVES
  | promotedLance => GOLD_MOVES
  | promotedPawn => GOLD_MOVES
  end.

Definition adjustDirectionForPlayer (d : Direction) (o : Player) : Direction :=
  match o with
  | gote => mkDirection (- dcol d) (- drow d)
  | sente => d
  end.

(** The body of the [while (isValidPosition(currentCol, currentRow))] loop
    of [getRawMoves]; [fuel] bounds the number of iterations. *)
Fixpoint slideWalk (fuel : nat) (b : Board) (o : Player) (d : Direction)
         (currentCol currentRow : Z) : list Position :=
  match fuel with
  | O => []
  | S fuel' =>
      if isValidPosition currentCol currentRow then
        let targetPos := mkPosition currentCol currentRow in
        match getPieceAt b targetPos with
        | None =>
            targetPos
              :: slideWalk fuel' b o d (currentCol + dcol d) (currentRow + drow d)
        | Some targetPiece =>
            if playerEqb (owner targetPiece) o then [] else [targetPos]
        end
      else []
  end.

(** Nine squares lie on a line of the board, so nine iterations exhaust
    the loop (see [slideWalk_fuel]). *)
Definition slideFuel : nat := 9%nat.

Definition patternMoves (b : Board) (pos : Position) (o : Player)
           (pattern : MovePattern) : list Position :=
  let adjustedDir := adjustDirectionForPlayer (direction pattern) o in
  match moveType pattern with
  | step =>
      let newCol := col pos + dcol adjustedDir in
      let newRow := row pos + drow adjustedDir in
      if isValidPosition newCol newRow then
        let targetPos := mkPosition newCol newRow in
        match getPieceAt b targetPos with
        | None => [targetPos]
        | Some targetPiece =>
            if playerEqb (owner targetPiece) o then [] else [targetPos]
        end
      else []
  | slide =>
      slideWalk slideFuel b o adjustedDir
                (col pos + dcol adjustedDir) (row pos + drow adjustedDir)
  end.

Definition getRawMoves (b : Board) (pos : Position) (pieceType : AllPieceType)
           (o : Player) : list Position :=
  flat_map (patternMoves b pos o) (PIECE_MOVES pieceType).

Definition canMoveTo (b : Board) (src dst : Position)
           (pieceType : AllPieceType) (o : Player) : bool :=
  existsb (fun m => (col m =? col dst) && (row m =? row dst))
          (getRawMoves b src pieceType o).

Definition isDeadPosition (pieceType : AllPieceType) (dst : Position)
           (o : Player) : bool :=
  match o with
  | sente =>
      match pieceType with
      | pawn | lance => row dst =? 1
      | knight => row dst <=? 2
      | _ => false
      end
  | gote =>
      match pieceType with
      | pawn | lance => row dst =? 9
      | knight => 8 <=? row dst
      | _ => false
      end
  end.

Definition canPromoteMove (src dst : Position) (o : Player) : bool :=
  match o with
  | sente => (row src <=? 3) || (row dst <=? 3)
  | gote => (7 <=? row src) || (7 <=? row dst)
  end.

Definition mustPromote (pieceType : AllPieceType) (dst : Position)
           (o : Player) : bool :=
  isDeadPosition pieceType dst o.

(* ================================================================== *)
(** ** logic/legalMoves *)

Definition indices : list Z := [0; 1; 2; 3; 4; 5; 6; 7; 8].

(** The index pairs visited by
    [for (row = 0; row < 9; row++) for (col = 0; col < 9; col++)]. *)
Definition allIndices : list (Z * Z) :=
  flat_map (fun r => map (fun c => (r, c)) indices) indices.

Definition isKingOf (player : Player) (sq : Square) : bool :=
  match sq with
  | Some p => pieceTypeEqb (type p) king && playerEqb (owner p) player
  | None => false
  end.

Definition findKingPosition (b : Board) (player : Player) : option Position :=
  match find (fun rc => isKingOf player (boardAt b (fst rc) (snd rc)))
             allIndices with
  | Some (r, c) => Some (indexToPosition r c)
  | None => None
  end.

(** One iteration of the scan of [isSquareAttacked]: does the piece on
    [board[r][c]], if [byPlayer]'s, reach [targetPos] by a raw move? *)
Definition attacksFrom (b : Board) (targetPos : Position) (byPlayer : Player)
           (rc : Z * Z) : bool :=
  match boardAt b (fst rc) (snd rc) with
  | Some p =>
      playerEqb (owner p) byPlayer
      && existsb (fun m => (col m =? col targetPos) && (row m =? row targetPos))
                 (getRawMoves b (indexToPosition (fst rc) (snd rc)) (type p)
                              byPlayer)
  | None => false
  end.

Definition isSquareAttacked (b : Board) (targetPos : Position)
           (byPlayer : Player) : bool :=
  existsb (attacksFrom b targetPos byPlayer) allIndices.

Definition isInCheck (b : Board) (player : Player) : bool :=
  match findKingPosition b player with
  | None => false
  | Some kingPos => isSquareAttacked b kingPos (opponentOf player)
  end.

Record Applied : Type :=
  mkApplied { newBoard : Board; capturedPiece : option Piece }.

Definition applyMove (b : Board) (move : MoveAction) : Applied :=
  let nb := cloneBoard b in
  let '(fromRow, fromCol) := positionToIndex (from move) in
  let '(toRow, toCol) := positionToIndex (to move) in
  let movingPiece := boardAt nb fromRow fromCol in
  let cap := boardAt nb toRow toCol in
  let nb1 := boardPut nb fromRow fromCol None in
  match movingPiece with
  | Some mp =>
      if promote move && canPromote (type mp) && negb (isPromotedPiece (type mp))
      then
        match promotePiece (type mp) with
        | inr promoted =>
            mkApplied
              (boardPut nb1 toRow toCol (Some (mkPiece promoted (owner mp) true)))
              cap
        | inl _ => mkApplied nb1 cap
            (* not reached: [canPromote] holds, see [promotePiece_canPromote] *)
        end
      else mkApplied (boardPut nb1 toRow toCol (Some mp)) cap
  | None => mkApplied nb1 cap
  end.

Definition applyDrop (b : Board) (drop : DropAction) (player : Player) : Board :=
  let nb := cloneBoard b in
  let '(rowIndex, colIndex) := positionToIndex (dropTo drop) in
  boardPut nb rowIndex colIndex
           (Some (mkPiece (handKind (dropPiece drop)) player false)).

Definition isLegalMove (b : Board) (move : MoveAction) (player : Player) : bool :=
  negb (isInCheck (newBoard (applyMove b move)) player).

(** The double-pawn scan shared by [isLegalDrop] and
    [isLegalDropForCheckEscape]:
    [for (row = 0; row < 9; row++)] over [board[row][colIndex]]. *)
Definition ownPawnAt (b : Board) (player : Player) (colIndex r : Z) : bool :=
  match boardAt b r colIndex with
  | Some p =>
      pieceTypeEqb (type p) pawn && playerEqb (owner p) player
      && negb (isPromoted p)
  | None => false
  end.

Definition ownPawnOnFile (b : Board) (player : Player) (colIndex : Z) : bool :=
  existsb (ownPawnAt b player colIndex) indices.

Definition isHandPawn (k : HandPieceType) : bool :=
  match k with handPawn => true | _ => false end.

Definition isLegalDropForCheckEscape (b : Board) (drop : DropAction)
           (player : Player) (hand : Hand) : bool :=
  if handCount hand (dropPiece drop) <=? 0 then false
  else
    match getPieceAt b (dropTo drop) with
    | Some _ => false
    | None =>
        if isDeadPosition (handKind (dropPiece drop)) (dropTo drop) player
        then false
        else if isHandPawn (dropPiece drop)
                && ownPawnOnFile b player (snd (positionToIndex (dropTo drop)))
        then false
        else negb (isInCheck (applyDrop b drop player) player)
    end.

Definition handPieces : list HandPieceType :=
  [handRook; handBishop; handGold; handSilver; handKnight; handLance; handPawn].

Definition ranks : list Z := [1; 2; 3; 4; 5; 6; 7; 8; 9].

(** The squares visited by
    [for (row = 1; row <= 9; row++) for (col = 1; col <= 9; col++)]. *)
Definition allPositions : list Position :=
  flat_map (fun r => map (fun c => mkPosition c r) ranks) ranks.

(** The relocations [isCheckmate] tries from [board[r][c]]: each raw
    destination unpromoted and, for a promotable kind, promoted. *)
Definition escapesBy (b : Board) (player : Player) (rc : Z * Z) : bool :=
  match boardAt b (fst rc) (snd rc) with
  | Some p =>
      playerEqb (owner p) player
      && (let src := indexToPosition (fst rc) (snd rc) in
          existsb
            (fun dst =>
               isLegalMove b (mkMoveAction src dst (type p) None false) player
               || (canPromote (type p) && negb (isPromotedPiece (type p))
                   && isLegalMove b (mkMoveAction src dst (type p) None true)
                                  player))
            (getRawMoves b src (type p) player))
  | None => false
  end.

Definition escapesByDrop (b : Board) (player : Player) (hand : Hand) : bool :=
  existsb
    (fun pieceType =>
       if handCount hand pieceType <=? 0 then false
       else existsb
              (fun dst =>
                 isLegalDropForCheckEscape b (mkDropAction dst pieceType)
                                           player hand)
              allPositions)
    handPieces.

Definition isCheckmate (b : Board) (player : Player) (hand : option Hand)
  : bool :=
  if negb (isInCheck b player) then false
  else if existsb (escapesBy b player) allIndices then false
  else
    match hand with
    | Some h => if escapesByDrop b player h then false else true
    | None => true
    end.

Definition isLegalDrop (b : Board) (drop : DropAction) (player : Player)
           (hand : Hand) : bool :=
  if handCount hand (dropPiece drop) <=? 0 then false
  else
    match getPieceAt b (dropTo drop) with
    | Some _ => false
    | None =>
        if isDeadPosition (handKind (dropPiece drop)) (dropTo drop) player
        then false
        else if isHandPawn (dropPiece drop)
                && ownPawnOnFile b player (snd (positionToIndex (dropTo drop)))
        then false
        else if isHandPawn (dropPiece drop)
                && isCheckmate (applyDrop b drop player) (opponentOf player) None
        then false
        else negb (isInCheck (applyDrop b drop player) player)
    end.

(** The moves pushed by one iteration of [for (const to of rawMoves)] in
    [getLegalMovesForPiece]. *)
Definition movesTo (b : Board) (src : Position) (p : Piece) (player : Player)
           (dst : Position) : list MoveAction :=
  let cap := option_map type (getPieceAt b dst) in
  let canProm :=
    canPromote (type p) && negb (isPromotedPiece (type p))
    && canPromoteMove src dst player in
  let mustProm := mustPromote (type p) dst player in
  if canProm then
    let promoteMove := mkMoveAction src dst (type p) cap true in
    (if isLegalMove b promoteMove player then [promoteMove] else [])
    ++ (if negb mustProm then
          let noPromoteMove := mkMoveAction src dst (type p) cap false in
          if isLegalMove b noPromoteMove player then [noPromoteMove] else []
        else [])
  else
    let move := mkMoveAction src dst (type p) cap false in
    if isLegalMove b move player then [move] else [].

Definition getLegalMovesForPiece (b : Board) (src : Position) (player : Player)
  : list MoveAction :=
  match getPieceAt b src with
  | None => []
  | Some p =>
      if negb (playerEqb (owner p) player) then []
      else flat_map (movesTo b src p player) (getRawMoves b src (type p) player)
  end.

Definition getLegalDrops (b : Board) (player : Player) (hand : Hand)
  : list DropAction :=
  flat_map
    (fun pieceType =>
       if handCount hand pieceType <=? 0 then []
       else filter (fun drop => isLegalDrop b drop player hand)
                   (map (fun dst => mkDropAction dst pieceType) allPositions))
    handPieces.

Definition getAllLegalMoves (state : GameState) : list Move :=
  let b := board state in
  let player := currentPlayer state in
  flat_map
    (fun rc =>
       match boardAt b (fst rc) (snd rc) with
       | Some p =>
           if playerEqb (owner p) player
           then map MoveOf
                    (getLegalMovesForPiece b (indexToPosition (fst rc) (snd rc))
                                           player)
           else []
       | None => []
       end)
    allIndices
  ++ map DropOf (getLegalDrops b player (handOf (hands state) player)).

Definition isStalemate (state : GameState) : bool :=
  if isInCheck (board state) (currentPlayer state) then false
  else match getAllLegalMoves state with [] => true | _ => false end.

(** *** Vocabulary for stating the properties of the move generator *)

(** How many more squares of the board lie ahead of [(c, r)] along [d],
    that square included. *)
Definition squaresAhead (d : Direction) (c r : Z) : Z :=
  if drow d =? 1 then 10 - r
  else if drow d =? -1 then r
  else if dcol d =? 1 then 10 - c
  else c.

Definition unitStep (d : Direction) : Prop :=
  drow d = 1 \/ drow d = -1 \/ dcol d = 1 \/ dcol d = -1.


(** The moves built by one iteration of the loop of
    [getLegalMovesForPiece], before each is put to [isLegalMove]. *)
Definition candidatesTo (src : Position) (p : Piece) (player : Player)
           (cap : option AllPieceType) (dst : Position) : list MoveAction :=
  if canPromote (type p) && negb (isPromotedPiece (type p))
     && canPromoteMove src dst player
  then mkMoveAction src dst (type p) cap true
         :: (if negb (mustPromote (type p) dst player)
             then [mkMoveAction src dst (type p) cap false] else [])
  else [mkMoveAction src dst (type p) cap false].

Definition candidateMoves (b : Board) (src : Position) (player : Player)
  : list MoveAction :=
  match getPieceAt b src with
  | None => []
  | Some p =>
      if negb (playerEqb (owner p) player) then []
      else flat_map
             (fun dst =>
                candidatesTo src p player (option_map type (getPieceAt b dst))
                             dst)
             (getRawMoves b src (type p) player)
  end.

(** Some piece of the opponent standing on one of the 81 squares has the
    square found for [player]'s king among its raw moves. *)
Definition kingAttacked (b : Board) (player : Player) : Prop :=
  exists kingPos,
    findKingPosition b player = Some kingPos
    /\ exists r c p,
         0 <= r < 9 /\ 0 <= c < 9 /\ boardAt b r c = Some p
         /\ owner p = opponentOf player
         /\ In kingPos (getRawMoves b (indexToPosition r c) (type p)
                                    (opponentOf player)).

(** The rank farthest from a player's own camp, and the two farthest. *)
Definition farthestRank (player : Player) : Z :=
  match player with sente => 1 | gote => 9 end.

Definition inFarthestTwoRanks (player : Player) (r : Z) : Prop :=
  match player with sente => r <= 2 | gote => 8 <= r end.

(** No square of the 81 holds a king of [player]. *)
Definition noKingOf (b : Board) (player : Player) : Prop :=
  forall r c p, 0 <= r < 9 -> 0 <= c < 9 -> boardAt b r c = Some p ->
                ~ (type p = king /\ owner p = player).

(** Some piece of [player] on one of the 81 squares has a raw destination
    to which relocating it, unpromoted or (for a promotable kind) promoted,
    passes [isLegalMove]. *)
Definition relocationEscapes (b : Board) (player : Player) : Prop :=
  exists r c p dst prom,
    0 <= r < 9 /\ 0 <= c < 9 /\ boardAt b r c = Some p /\ owner p = player
    /\ In dst (getRawMoves b (indexToPosition r c) (type p) player)
    /\ (prom = true ->
        canPromote (type p) = true /\ isPromotedPiece (type p) = false)
    /\ isLegalMove b (mkMoveAction (indexToPosition r c) dst (type p) None prom)
                   player = true.

(** An unpromoted pawn of [player] stands on the file of [pos]. *)
Definition ownPawnOnFileOf (b : Board) (player : Player) (pos : Position)
  : Prop :=
  exists r p,
    0 <= r < 9 /\ boardAt b r (9 - col pos) = Some p
    /\ type p = pawn /\ owner p = player /\ isPromoted p = false.

(** Two boards hold the same piece, or none, on each of the 81 squares. *)
Definition sameSquares (b1 b2 : Board) : Prop :=
  forall r c, 0 <= r < 9 -> 0 <= c < 9 -> boardAt b1 r c = boardAt b2 r c.

Definition sameSquareb (a b : Square) : bool :=
  match a, b with
  | None, None => true
  | Some p, Some q =>
      pieceTypeEqb (type p) (type q) && playerEqb (owner p) (owner q)
      && Bool.eqb (isPromoted p) (isPromoted q)
  | _, _ => false
  end.

(** The declared shape of a board: nine rows of nine squares. *)
Definition wellShaped (b : Board) : Prop :=
  List.length b = 9%nat /\ Forall (fun r => List.length r = 9%nat) b.

Definition onBoard (pos : Position) : Prop :=
  1 <= col pos <= 9 /\ 1 <= row pos <= 9.

(** *** Test positions *)

Definition place (b : Board) (pos : Position) (t : AllPieceType) (o : Player)
  : Board :=
  let '(r, c) := positionToIndex pos in
  boardPut b r c (Some (createPiece t o)).

Definition emptyBoard : Board := repeat emptyRow 9.

(** Sente king on 1i, checked down the first file by a gote rook on 1a;
    a second gote rook on 2a covers 2h and 2i; gote king on 5a. *)
Definition corneredKingBoard : Board :=
  place (place (place (place emptyBoard
    (mkPosition 1 9) king sente)
    (mkPosition 1 1) rook gote)
    (mkPosition 2 1) rook gote)
    (mkPosition 5 1) king gote.

(** The same position with sente to move and a gold in sente's hand. *)
Definition corneredKingState : GameState :=
  mkGameState corneredKingBoard
    (mkHands (mkHand 0 0 1 0 0 0 0) createEmptyHand)
    sente [] [] 0 opening ongoing true.

(** Kings on 5i and 5a; a sente pawn on 3d faces an unprotected gote gold
    on 3c; sente to move. *)
Definition hangingGoldState : GameState :=
  mkGameState
    (place (place (place (place emptyBoard
       (mkPosition 5 9) king sente)
       (mkPosition 5 1) king gote)
       (mkPosition 3 4) pawn sente)
       (mkPosition 3 3) gold gote)
    (mkHands createEmptyHand createEmptyHand)
    sente [] [] 0 opening ongoing false.

(* ================================================================== *)
(** ** logic/gameRules *)

(** [n.toString()] for an integer [n]. *)
Definition numberToString (n : Z) : string :=
  NilZero.string_of_int (Z.to_int n).

Definition lowerAscii (ch : ascii) : ascii :=
  let n := nat_of_ascii ch in
  if (65 <=? n)%nat && (n <=? 90)%nat then ascii_of_nat (n + 32) else ch.

Fixpoint toLowerCase (str : string) : string :=
  match str with
  | EmptyString => EmptyString
  | String ch rest => String (lowerAscii ch) (toLowerCase rest)
  end.

Definition pieceMap (t : AllPieceType) : string :=
  match t with
  | king => "K" | rook => "R" | bishop => "B" | gold => "G"
  | silver => "S" | knight => "N" | lance => "L" | pawn => "P"
  | promotedRook => "+R" | promotedBishop => "+B" | promotedSilver => "+S"
  | promotedKnight => "+N" | promotedLance => "+L" | promotedPawn => "+P"
  end%string.

Definition pieceToSfen (p : Piece) : string :=
  let sfenChar := pieceMap (type p) in
  match owner p with
  | sente => sfenChar
  | gote => toLowerCase sfenChar
  end.

(** One iteration of the inner loop of [boardToSfen] on the pair
    [(rowStr, emptyCount)]. *)
Definition sfenSquare (acc : string * Z) (sq : Square) : string * Z :=
  let '(rowStr, emptyCount) := acc in
  match sq with
  | None => (rowStr, emptyCount + 1)
  | Some p =>
      let rowStr1 :=
        if 0 <? emptyCount then (rowStr ++ numberToString emptyCount)%string
        else rowStr in
      let emptyCount1 := if 0 <? emptyCount then 0 else emptyCount in
      ((rowStr1 ++ pieceToSfen p)%string, emptyCount1)
  end.

Definition rowToSfen (b : Board) (r : Z) : string :=
  let '(rowStr, emptyCount) :=
    fold_left (fun acc c => sfenSquare acc (boardAt b r c)) indices
              (EmptyString, 0) in
  if 0 <? emptyCount then (rowStr ++ numberToString emptyCount)%string
  else rowStr.

Definition boardToSfen (b : Board) : string :=
  String.concat "/" (map (rowToSfen b) indices).

Definition sfenMap (k : HandPieceType) : string :=
  match k with
  | handRook => "R" | handBishop => "B" | handGold => "G"
  | handSilver => "S" | handKnight => "N" | handLance => "L"
  | handPawn => "P"
  end%string.

Definition handToSfen (hand : Hand) (letter : HandPieceType -> string)
           (start : string) : string :=
  fold_left
    (fun acc k =>
       let count := handCount hand k in
       if 0 <? count then
         let counted :=
           if 1 <? count then append acc (numberToString count) else acc in
         append counted (letter k)
       else acc)
    handPieces start.

Definition handsToSfen (hs : Hands) : string :=
  let afterSente := handToSfen (senteHand hs) sfenMap EmptyString in
  let afterGote :=
    handToSfen (goteHand hs) (fun k => toLowerCase (sfenMap k)) afterSente in
  match afterGote with
  | EmptyString => "-"%string
  | _ => afterGote
  end.

Definition gameStateToSfen (state : GameState) : string :=
  let boardSfen := boardToSfen (board state) in
  let turn := match currentPlayer state with
              | sente => "b" | gote => "w" end%string in
  let handsSfen := handsToSfen (hands state) in
  (boardSfen ++ " " ++ turn ++ " " ++ handsSfen)%string.

Definition countPositionRepetitions (history : list string)
           (currentPosition : string) : Z :=
  let count :=
    fold_left (fun count pos =>
                 if String.eqb pos currentPosition then count + 1 else count)
              history 0 in
  count + 1.

Definition isRepetition (state : GameState) : bool :=
  let currentSfen := gameStateToSfen state in
  let repetitionCount :=
    countPositionRepetitions (positionHistory state) currentSfen in
  4 <=? repetitionCount.

(** [{ isPerpetual, loser? }]: [Some loser] when perpetual, else [None]. *)
Definition isPerpeturalCheck (state : GameState) : option Player :=
  let currentSfen := gameStateToSfen state in
  let opponent := opponentOf (currentPlayer state) in
  let isOpponentChecking := isInCheck (board state) (currentPlayer state) in
  if negb isOpponentChecking then None
  else
    let checkCount :=
      fold_left (fun n pos =>
                   if String.eqb pos currentSfen then n + 1 else n)
                (positionHistory state) 0 in
    if 3 <=? checkCount then Some opponent else None.

Definition checkGameResult (state : GameState) : GameResult :=
  let b := board state in
  let player := currentPlayer state in
  let opponent := opponentOf player in
  if isCheckmate b player None then checkmate opponent
  else if isStalemate state then stalemate opponent
  else
    match isPerpeturalCheck state with
    | Some loser => repetition (wonBy (opponentOf loser))
    | None =>
        if isRepetition state then repetition draw else ongoing
    end.

Definition determineGamePhase (n : Z) : GamePhase :=
  if n <? 30 then opening
  else if n <? 80 then middlegame
  else endgame.

(* ================================================================== *)
(** ** App: how the caller advances the game *)

Module App.

(** [createInitialState]. *)
Definition createInitialState : GameState :=
  let initialState := createInitialGameState in
  mkGameState (board initialState) (hands initialState)
    (currentPlayer initialState) (moveHistory initialState)
    [gameStateToSfen initialState] (moveCount initialState)
    (gamePhase initialState) (result initialState) (isCheck initialState).

(** [executeMoveWithPromotion]: the state handed to [setGameState]; the
    state is left as it was when the origin square is empty. *)
Definition executeMoveWithPromotion (gameState : GameState)
           (src dst : Position) (prom : bool) : Thrown GameState :=
  let b := board gameState in
  let player := currentPlayer gameState in
  match getPieceAt b src with
  | None => inr gameState
  | Some p =>
      let targetPiece := getPieceAt b dst in
      let moveAction :=
        mkMoveAction src dst (type p) (option_map type targetPiece) prom in
      let applied := applyMove b moveAction in
      let newHands :=
        match capturedPiece applied with
        | Some cap =>
            match toHandPieceType (type cap) with
            | inl e => inl e
            | inr handPieceType =>
                inr (handsWith (hands gameState) player
                       (addToHand (handOf (hands gameState) player)
                                  handPieceType))
            end
        | None => inr (hands gameState)
        end in
      match newHands with
      | inl e => inl e
      | inr hs =>
          let nextPlayer := opponentOf player in
          let newState :=
            mkGameState (newBoard applied) hs nextPlayer
              (moveHistory gameState ++ [MoveOf moveAction])
              (positionHistory gameState)
              (moveCount gameState + 1)
              (determineGamePhase (moveCount gameState + 1))
              (result gameState)
              (isInCheck (newBoard applied) nextPlayer) in
          let newSfen := gameStateToSfen newState in
          let withHistory :=
            mkGameState (board newState) (hands newState)
              (currentPlayer newState) (moveHistory newState)
              (positionHistory gameState ++ [newSfen])
              (moveCount newState) (gamePhase newState) (result newState)
              (isCheck newState) in
          inr (mkGameState (board withHistory) (hands withHistory)
                 (currentPlayer withHistory) (moveHistory withHistory)
                 (positionHistory withHistory) (moveCount withHistory)
                 (gamePhase withHistory) (checkGameResult withHistory)
                 (isCheck withHistory))
      end
  end.

(** [executeDrop]: the state handed to [setGameState]. *)
Definition executeDrop (gameState : GameState) (pieceType : HandPieceType)
           (dst : Position) : Thrown GameState :=
  let b := board gameState in
  let player := currentPlayer gameState in
  let dropAction := mkDropAction dst pieceType in
  let nb := applyDrop b dropAction player in
  match removeFromHand (handOf (hands gameState) player) pieceType with
  | inl e => inl e
  | inr h =>
      let newHands := handsWith (hands gameState) player h in
      let nextPlayer := opponentOf player in
      let newState :=
        mkGameState nb newHands nextPlayer
          (moveHistory gameState ++ [DropOf dropAction])
          (positionHistory gameState)
          (moveCount gameState + 1)
          (determineGamePhase (moveCount gameState + 1))
          (result gameState)
          (isInCheck nb nextPlayer) in
      let newSfen := gameStateToSfen newState in
      let withHistory :=
        mkGameState (board newState) (hands newState)
          (currentPlayer newState) (moveHistory newState)
          (positionHistory gameState ++ [newSfen])
          (moveCount newState) (gamePhase newState) (result newState)
          (isCheck newState) in
      inr (mkGameState (board withHistory) (hands withHistory)
             (currentPlayer withHistory) (moveHistory withHistory)
             (positionHistory withHistory) (moveCount withHistory)
             (gamePhase withHistory) (checkGameResult withHistory)
             (isCheck withHistory))
  end.

(** A sequence of relocations played through [executeMoveWithPromotion]. *)
Fixpoint playMoves (gameState : GameState)
         (ms : list (Position * Position * bool)) : Thrown GameState :=
  match ms with
  | [] => inr gameState
  | (src, dst, prom) :: rest =>
      match executeMoveWithPromotion gameState src dst prom with
      | inl e => inl e
      | inr next => playMoves next rest
      end
  end.

End App.

(** Four plies that bring the opening position back: each king steps
    forward and then home. *)
Definition kingShuffle : list (Position * Position * bool) :=
  [ (mkPosition 5 9, mkPosition 5 8, false);
    (mkPosition 5 1, mkPosition 5 2, false);
    (mkPosition 5 8, mkPosition 5 9, false);
    (mkPosition 5 2, mkPosition 5 1, false) ].

(** How often a position occurs in a history. *)
Definition occurrences (history : list string) (position : string) : nat :=
  count_occ string_dec history position.

(* ================================================================== *)
(** ** Scores *)

#[local] Set Warnings "-inexact-float".

(** An integer-valued [number] as the double it is (exact below 2^53). *)
Definition numberOfZ (z : Z) : float :=
  if z <? 0 then PrimFloat.opp (PrimFloat.of_uint63 (Uint63.of_Z (- z)))
  else PrimFloat.of_uint63 (Uint63.of_Z z).

(** [Math.max] and [Math.min] of two numbers. *)
Definition mathMax (a b : float) : float :=
  if PrimFloat.is_nan a || PrimFloat.is_nan b then PrimFloat.nan
  else if PrimFloat.ltb a b then b
  else if PrimFloat.ltb b a then a
  else if PrimFloat.is_zero a then PrimFloat.add a b
  else a.

Definition mathMin (a b : float) : float :=
  if PrimFloat.is_nan a || PrimFloat.is_nan b then PrimFloat.nan
  else if PrimFloat.ltb a b then a
  else if PrimFloat.ltb b a then b
  else if PrimFloat.is_zero a
       then PrimFloat.opp (PrimFloat.add (PrimFloat.opp a) (PrimFloat.opp b))
  else a.

(** [Array.prototype.sort(cmp)]: the sort is stable, and [cmp a b > 0]
    places [a] after [b]. *)
Fixpoint insertBy {A : Type} (cmp : A -> A -> float) (x : A) (l : list A)
  : list A :=
  match l with
  | [] => [x]
  | y :: t =>
      if PrimFloat.ltb 0%float (cmp x y) then y :: insertBy cmp x t
      else x :: y :: t
  end.

Definition sortBy {A : Type} (cmp : A -> A -> float) (l : list A) : list A :=
  fold_right (insertBy cmp) [] l.

(** [m.type === 'move' && m.captured]. *)
Definition isCapture (m : Move) : bool :=
  match m with
  | MoveOf a => match captured a with Some _ => true | None => false end
  | DropOf _ => false
  end.

(* ================================================================== *)
(** ** ai/evaluation *)

Module Evaluation.

Definition PIECE_VALUES (t : AllPieceType) : float :=
  match t with
  | king => 0 | rook => 1000 | bishop => 900 | gold => 500
  | silver => 450 | knight => 350 | lance => 300 | pawn => 100
  | promotedRook => 1300 | promotedBishop => 1200
  | promotedSilver => 500 | promotedKnight => 500
  | promotedLance => 500 | promotedPawn => 600
  end%float.

Definition HAND_PIECE_VALUES (k : HandPieceType) : float :=
  match k with
  | handRook => 1200 | handBishop => 1100 | handGold => 550
  | handSilver => 500 | handKnight => 400 | handLance => 350
  | handPawn => 150
  end%float.

Definition quickEvaluate (state : GameState) : float :=
  let onBoard :=
    fold_left
      (fun score rc =>
         match boardAt (board state) (fst rc) (snd rc) with
         | Some p =>
             let value := PIECE_VALUES (type p) in
             PrimFloat.add score
               (match owner p with
                | sente => value
                | gote => PrimFloat.opp value
                end)
         | None => score
         end)
      allIndices 0%float in
  fold_left
    (fun score k =>
       let score1 :=
         PrimFloat.add score
           (PrimFloat.mul (numberOfZ (handCount (senteHand (hands state)) k))
                          (HAND_PIECE_VALUES k)) in
       PrimFloat.sub score1
         (PrimFloat.mul (numberOfZ (handCount (goteHand (hands state)) k))
                        (HAND_PIECE_VALUES k)))
    handPieces onBoard.

End Evaluation.

(* ================================================================== *)
(** ** ai/multiStageEngine *)

Module MultiStageEngine.
Import Evaluation.

Record MinimaxResult : Type := mkMinimaxResult {
  score : float;
  move : option Move;
  nodesSearched : Z }.

Definition applyMoveToState (state : GameState) (mv : Move)
  : Thrown GameState :=
  let player := currentPlayer state in
  let nextPlayer := opponentOf player in
  match mv with
  | MoveOf m =>
      let applied := applyMove (board state) m in
      let newHands :=
        match capturedPiece applied with
        | Some cap =>
            match toHandPieceType (type cap) with
            | inl e => inl e
            | inr handPieceType =>
                inr (handsWith (hands state) player
                       (addToHand (handOf (hands state) player) handPieceType))
            end
        | None => inr (hands state)
        end in
      match newHands with
      | inl e => inl e
      | inr hs =>
          inr (mkGameState (newBoard applied) hs nextPlayer
                 (moveHistory state) (positionHistory state)
                 (moveCount state + 1) (gamePhase state) (result state)
                 (isCheck state))
      end
  | DropOf d =>
      let nb := applyDrop (board state) d player in
      match removeFromHand (handOf (hands state) player) (dropPiece d) with
      | inl e => inl e
      | inr h =>
          inr (mkGameState nb (handsWith (hands state) player h) nextPlayer
                 (moveHistory state) (positionHistory state)
                 (moveCount state + 1) (gamePhase state) (result state)
                 (isCheck state))
      end
  end.

Definition MAX_QUIESCENCE_DEPTH : nat := 6%nat.
Definition DELTA_MARGIN : float := 200%float.

(** The comparator of [captureMoves.sort] in [quiescenceSearch]. *)
Definition captureOrder (a b : Move) : float :=
  match a, b with
  | MoveOf ma, MoveOf mb =>
      let value m :=
        match captured m with
        | Some c =>
            PrimFloat.sub (PIECE_VALUES c)
                          (PrimFloat.mul (PIECE_VALUES (piece m)) 0.1%float)
        | None => 0%float
        end in
      PrimFloat.sub (value mb) (value ma)
  | _, _ => 0%float
  end.

(** The delta-pruning test at the head of the capture loop. *)
Definition deltaPruned (maximizing : bool) (standPat alpha beta : float)
           (mv : Move) : bool :=
  match mv with
  | MoveOf m =>
      match captured m with
      | Some c =>
          let captureValue := PIECE_VALUES c in
          if maximizing
             && PrimFloat.ltb
                  (PrimFloat.add (PrimFloat.add standPat captureValue)
                                 DELTA_MARGIN) alpha
          then true
          else negb maximizing
               && PrimFloat.ltb beta
                    (PrimFloat.sub (PrimFloat.sub standPat captureValue)
                                   DELTA_MARGIN)
      | None => false
      end
  | DropOf _ => false
  end.

(** The [for (const move of sortedCaptures)] loop of [quiescenceSearch];
    [recurse] is the recursive call one ply deeper, with the side to move
    flipped. *)
Fixpoint captureLoop
         (recurse : GameState -> float -> float -> Z -> Thrown (float * Z))
         (state : GameState) (maximizing : bool) (standPat : float)
         (ms : list Move) (alpha beta : float) (count : Z)
  : Thrown (float * Z) :=
  match ms with
  | [] => inr (if maximizing then alpha else beta, count)
  | mv :: rest =>
      if deltaPruned maximizing standPat alpha beta mv
      then captureLoop recurse state maximizing standPat rest alpha beta count
      else
        match applyMoveToState state mv with
        | inl e => inl e
        | inr newState =>
            match recurse newState alpha beta count with
            | inl e => inl e
            | inr (sc, count') =>
                if maximizing then
                  let alpha' := if PrimFloat.ltb alpha sc then sc else alpha in
                  if PrimFloat.leb beta alpha' then inr (alpha', count')
                  else captureLoop recurse state maximizing standPat rest
                                   alpha' beta count'
                else
                  let beta' := if PrimFloat.ltb sc beta then sc else beta in
                  if PrimFloat.leb beta' alpha then inr (beta', count')
                  else captureLoop recurse state maximizing standPat rest
                                   alpha beta' count'
            end
        end
  end.

(** [quiescenceSearch] with [remaining = MAX_QUIESCENCE_DEPTH - depth];
    [count] is [nodesSearched.count] on entry, and the result carries its
    value on return. *)
Fixpoint quiescenceWalk (remaining : nat) (state : GameState)
         (alpha beta : float) (maximizing : bool) (count : Z)
  : Thrown (float * Z) :=
  let count := count + 1 in
  match remaining with
  | O => inr (quickEvaluate state, count)
  | S remaining' =>
      let standPat := quickEvaluate state in
      if maximizing && PrimFloat.leb beta standPat then inr (beta, count)
      else if negb maximizing && PrimFloat.leb standPat alpha
      then inr (alpha, count)
      else
        let alpha :=
          if maximizing && PrimFloat.ltb alpha standPat then standPat
          else alpha in
        let beta :=
          if negb maximizing && PrimFloat.ltb standPat beta then standPat
          else beta in
        let captureMoves := filter isCapture (getAllLegalMoves state) in
        match captureMoves with
        | [] => inr (standPat, count)
        | _ =>
            captureLoop
              (fun newState a b c =>
                 quiescenceWalk remaining' newState a b (negb maximizing) c)
              state maximizing standPat
              (sortBy captureOrder captureMoves) alpha beta count
        end
  end.

Definition quiescenceSearch (state : GameState) (alpha beta : float)
           (maximizing : bool) (count : Z) (depth : nat)
  : Thrown (float * Z) :=
  quiescenceWalk (MAX_QUIESCENCE_DEPTH - depth) state alpha beta maximizing
                 count.

(** The comparator of [moves.sort] in [minimax]. *)
Definition moveOrder (a b : Move) : float :=
  let rank mv :=
    match mv with
    | MoveOf m =>
        let s1 :=
          match captured m with
          | Some c =>
              PrimFloat.add 0%float
                (PrimFloat.sub (PrimFloat.mul (PIECE_VALUES c) 10%float)
                               (PIECE_VALUES (piece m)))
          | None => 0%float
          end in
        if promote m then PrimFloat.add s1 300%float else s1
    | DropOf _ => 0%float
    end in
  PrimFloat.sub (rank b) (rank a).

Definition mateScore (maximizing : bool) (depth : nat) : float :=
  let closeness :=
    PrimFloat.mul (numberOfZ (5 - Z.of_nat depth)) 1000%float in
  if maximizing then PrimFloat.add (-100000)%float closeness
  else PrimFloat.sub 100000%float closeness.

Fixpoint minimax (state : GameState) (depth : nat) (alpha beta : float)
         (maximizing : bool) (count : Z) : Thrown MinimaxResult :=
  let count := count + 1 in
  match depth with
  | O =>
      match quiescenceSearch state alpha beta maximizing count 0 with
      | inl e => inl e
      | inr (sc, count') => inr (mkMinimaxResult sc None count')
      end
  | S depth' =>
      match getAllLegalMoves state with
      | [] =>
          if isInCheck (board state) (currentPlayer state)
          then inr (mkMinimaxResult (mateScore maximizing depth) None count)
          else inr (mkMinimaxResult 0%float None count)
      | moves =>
          (fix loop (ms : list Move) (alpha beta best : float)
               (bestMove : option Move) (count : Z) : Thrown MinimaxResult :=
             match ms with
             | [] => inr (mkMinimaxResult best bestMove count)
             | mv :: rest =>
                 match applyMoveToState state mv with
                 | inl e => inl e
                 | inr newState =>
                     match minimax newState depth' alpha beta
                                   (negb maximizing) count with
                     | inl e => inl e
                     | inr r =>
                         if maximizing then
                           let better := PrimFloat.ltb best (score r) in
                           let best' := if better then score r else best in
                           let bestMove' :=
                             if better then Some mv else bestMove in
                           let alpha' := mathMax alpha (score r) in
                           if PrimFloat.leb beta alpha'
                           then inr (mkMinimaxResult best' bestMove'
                                                     (nodesSearched r))
                           else loop rest alpha' beta best' bestMove'
                                     (nodesSearched r)
                         else
                           let better := PrimFloat.ltb (score r) best in
                           let best' := if better then score r else best in
                           let bestMove' :=
                             if better then Some mv else bestMove in
                           let beta' := mathMin beta (score r) in
                           if PrimFloat.leb beta' alpha
                           then inr (mkMinimaxResult best' bestMove'
                                                     (nodesSearched r))
                           else loop rest alpha beta' best' bestMove'
                                     (nodesSearched r)
                     end
                 end
             end)
            (sortBy moveOrder moves) alpha beta
            (if maximizing then PrimFloat.neg_infinity else PrimFloat.infinity)
            None count
      end
  end.

(** The call made by [selectIntermediateMove] (depth 2),
    [selectAdvancedMove] (depth 3) and [selectLLMMove] (depth 4). *)
Definition search (depth : nat) (state : GameState) : Thrown MinimaxResult :=
  minimax state depth PrimFloat.neg_infinity PrimFloat.infinity
          (playerEqb (currentPlayer state) sente) 0.

End MultiStageEngine.

(* ================================================================== *)
(** ** ai/intermediate *)

Module Intermediate.

Definition PIECE_VALUES (t : AllPieceType) : float :=
  match t with
  | king => 0 | rook => 1000 | bishop => 900 | gold => 500
  | silver => 450 | knight => 350 | lance => 300 | pawn => 100
  | promotedRook => 1300 | promotedBishop => 1200
  | promotedSilver => 500 | promotedKnight => 500
  | promotedLance => 500 | promotedPawn => 600
  end%float.

Definition HAND_PIECE_VALUES (k : HandPieceType) : float :=
  match k with
  | handRook => 1200 | handBishop => 1100 | handGold => 550
  | handSilver => 500 | handKnight => 350 | handLance => 300
  | handPawn => 120
  end%float.

(** Integer-valued throughout, so computed on [Z]. *)
Definition getCentralControlBonus (c r : Z) : Z :=
  let centerCol := 4 in
  let centerRow := 4 in
  let colDist := Z.abs (c - centerCol) in
  let rowDist := Z.abs (r - centerRow) in
  Z.max 0 (20 - (colDist + rowDist) * 3).

Definition neighbours : list (Z * Z) :=
  flat_map (fun dr => map (fun dc => (dr, dc)) [-1; 0; 1]) [-1; 0; 1].

(** Integer-valued throughout, so computed on [Z]. *)
Definition getKingSafetyScore (b : Board) (player : Player) : Z :=
  match find (fun rc => isKingOf player (boardAt b (fst rc) (snd rc)))
             allIndices with
  | None => -10000
  | Some (kingRow, kingCol) =>
      let zone :=
        match player with
        | sente => if 6 <=? kingRow then 50
                   else if 4 <=? kingRow then 0 else -30
        | gote => if kingRow <=? 2 then 50
                  else if kingRow <=? 4 then 0 else -30
        end in
      fold_left
        (fun sc d =>
           let '(dr, dc) := d in
           if (dr =? 0) && (dc =? 0) then sc
           else
             let nr := kingRow + dr in
             let nc := kingCol + dc in
             if (0 <=? nr) && (nr <? 9) && (0 <=? nc) && (nc <? 9) then
               match boardAt b nr nc with
               | Some p => if playerEqb (owner p) player then sc + 10 else sc
               | None => sc
               end
             else sc)
        neighbours zone
  end.

(** One of the two [for (... of Object.entries(hand))] loops of
    [evaluateBoardAdvanced]; [accumulate] is [+=] for the first player's hand
    and [-=] for the second's. *)
Definition handValue (hand : Hand) (accumulate : float -> float -> float)
           (start : float) : float :=
  fold_left
    (fun sc k =>
       let count := handCount hand k in
       if 0 <? count then
         accumulate sc (PrimFloat.mul (HAND_PIECE_VALUES k) (numberOfZ count))
       else sc)
    handPieces start.

Definition evaluateBoardAdvanced (state : GameState) : float :=
  let b := board state in
  let onBoard :=
    fold_left
      (fun sc rc =>
         match boardAt b (fst rc) (snd rc) with
         | None => sc
         | Some p =>
             let pieceValue := PIECE_VALUES (type p) in
             let multiplier :=
               match owner p with sente => 1 | gote => -1 end%float in
             let sc1 := PrimFloat.add sc (PrimFloat.mul pieceValue multiplier) in
             if negb (pieceTypeEqb (type p) king) then
               PrimFloat.add sc1
                 (PrimFloat.mul
                    (PrimFloat.mul
                       (numberOfZ (getCentralControlBonus (snd rc) (fst rc)))
                       multiplier)
                    0.3%float)
             else sc1
         end)
      allIndices 0%float in
  let withSente := handValue (senteHand (hands state)) PrimFloat.add onBoard in
  let withHands := handValue (goteHand (hands state)) PrimFloat.sub withSente in
  let s1 := PrimFloat.add withHands (numberOfZ (getKingSafetyScore b sente)) in
  let s2 := PrimFloat.sub s1 (numberOfZ (getKingSafetyScore b gote)) in
  let s3 := if isInCheck b sente then PrimFloat.sub s2 150%float else s2 in
  if isInCheck b gote then PrimFloat.add s3 150%float else s3.

(** Textually the same function as the one of ai/multiStageEngine. *)
Definition applyMoveToState : GameState -> Move -> Thrown GameState :=
  MultiStageEngine.applyMoveToState.

Record SearchResult : Type := mkSearchResult {
  score : float;
  move : option Move;
  nodesSearched : Z }.

(** The comparator of [moves.sort] in [minimax]. *)
Definition moveOrder (a b : Move) : float :=
  let capture mv :=
    match mv with
    | MoveOf m =>
        match captured m with
        | Some c => PIECE_VALUES c
        | None => 0%float
        end
    | DropOf _ => 0%float
    end in
  PrimFloat.sub (capture b) (capture a).

Definition mateScore (maximizing : bool) (depth : nat) : float :=
  let closeness :=
    PrimFloat.mul (numberOfZ (3 - Z.of_nat depth)) 1000%float in
  if maximizing then PrimFloat.add (-100000)%float closeness
  else PrimFloat.sub 100000%float closeness.

Fixpoint minimax (state : GameState) (depth : nat) (alpha beta : float)
         (maximizing : bool) (count : Z) : Thrown SearchResult :=
  let count := count + 1 in
  match depth with
  | O => inr (mkSearchResult (evaluateBoardAdvanced state) None count)
  | S depth' =>
      match getAllLegalMoves state with
      | [] =>
          if isInCheck (board state) (currentPlayer state)
          then inr (mkSearchResult (mateScore maximizing depth) None count)
          else inr (mkSearchResult 0%float None count)
      | moves =>
          (fix loop (ms : list Move) (alpha beta best : float)
               (bestMove : option Move) (count : Z) : Thrown SearchResult :=
             match ms with
             | [] => inr (mkSearchResult best bestMove count)
             | mv :: rest =>
                 match applyMoveToState state mv with
                 | inl e => inl e
                 | inr newState =>
                     match minimax newState depth' alpha beta
                                   (negb maximizing) count with
                     | inl e => inl e
                     | inr r =>
                         if maximizing then
                           let better := PrimFloat.ltb best (score r) in
                           let best' := if better then score r else best in
                           let bestMove' :=
                             if better then Some mv else bestMove in
                           let alpha' := mathMax alpha (score r) in
                           if PrimFloat.leb beta alpha'
                           then inr (mkSearchResult best' bestMove'
                                                    (nodesSearched r))
                           else loop rest alpha' beta best' bestMove'
                                     (nodesSearched r)
                         else
                           let better := PrimFloat.ltb (score r) best in
                           let best' := if better then score r else best in
                           let bestMove' :=
                             if better then Some mv else bestMove in
                           let beta' := mathMin beta (score r) in
                           if PrimFloat.leb beta' alpha
                           then inr (mkSearchResult best' bestMove'
                                                    (nodesSearched r))
                           else loop rest alpha beta' best' bestMove'
                                     (nodesSearched r)
                     end
                 end
             end)
            (sortBy moveOrder moves) alpha beta
            (if maximizing then PrimFloat.neg_infinity else PrimFloat.infinity)
            None count
      end
  end.

(** The call made by [selectIntermediateMove] (depth 2) and
    [selectAdvancedMove] (depth 3). *)
Definition search (depth : nat) (state : GameState) : Thrown SearchResult :=
  minimax state depth PrimFloat.neg_infinity PrimFloat.infinity
          (playerEqb (currentPlayer state) sente) 0.

End Intermediate.

(* ================================================================== *)
(** ** Vocabulary for stating the properties of the search *)

(** Piece values as integers, and the MVV-LVA rank of a capture: ten times
    the value of the victim less the value of the attacker, which is ten
    times the key [PIECE_VALUES[captured] - PIECE_VALUES[piece] * 0.1] of
    the capture sort. *)
Definition pieceValueZ (t : AllPieceType) : Z :=
  match t with
  | king => 0 | rook => 1000 | bishop => 900 | gold => 500
  | silver => 450 | knight => 350 | lance => 300 | pawn => 100
  | promotedRook => 1300 | promotedBishop => 1200
  | promotedSilver => 500 | promotedKnight => 500
  | promotedLance => 500 | promotedPawn => 600
  end.

Definition mvvLva (mv : Move) : Z :=
  match mv with
  | MoveOf m =>
      match captured m with
      | Some c => 10 * pieceValueZ c - pieceValueZ (piece m)
      | None => 0
      end
  | DropOf _ => 0
  end.

Definition allKinds : list AllPieceType :=
  [king; rook; bishop; gold; silver; knight; lance; pawn; promotedRook;
   promotedBishop; promotedSilver; promotedKnight; promotedLance;
   promotedPawn].

(* ================================================================== *)
(** ** Further functions of the sources *)

(** *** logic/board *)

(** [setPieceAt]: the rows are copied, then the square is assigned. *)
Definition setPieceAt (b : Board) (pos : Position) (sq : Square) : Board :=
  let copied := map (fun r : list Square => r) b in
  let '(rowIndex, colIndex) := positionToIndex pos in
  boardPut copied rowIndex colIndex sq.

Definition positionsEqual (a b : Position) : bool :=
  (col a =? col b) && (row a =? row b).

Definition getHandPieces (hand : Hand) : list HandPieceType :=
  filter (fun k => 0 <? handCount hand k) handPieces.

(** *** hooks/useGameHistory *)

Module GameHistory.

Record GameHistoryState : Type := mkGameHistoryState {
  past : list GameState;
  present : GameState;
  future : list GameState }.

(** The initial value of the hook's state, and [reset]. *)
Definition reset (initialState : GameState) : GameHistoryState :=
  mkGameHistoryState [] initialState [].

Definition setGameState (prev : GameHistoryState) (newState : GameState)
  : GameHistoryState :=
  mkGameHistoryState (past prev ++ [present prev]) newState [].

(** [newPast.pop()] yields the last element and leaves the others. *)
Definition undo (prev : GameHistoryState) : GameHistoryState :=
  match past prev with
  | [] => prev
  | _ :: _ =>
      let newPast := removelast (past prev) in
      let previousState := last (past prev) (present prev) in
      mkGameHistoryState newPast previousState (present prev :: future prev)
  end.

Definition undoTwice (prev : GameHistoryState) : GameHistoryState :=
  if (List.length (past prev) <? 2)%nat then prev
  else
    let state1 := last (past prev) (present prev) in
    let newPast1 := removelast (past prev) in
    let state2 := last newPast1 (present prev) in
    let newPast2 := removelast newPast1 in
    mkGameHistoryState newPast2 state2
                       (state1 :: present prev :: future prev).

Definition redo (prev : GameHistoryState) : GameHistoryState :=
  match future prev with
  | [] => prev
  | nextState :: newFuture =>
      mkGameHistoryState (past prev ++ [present prev]) nextState newFuture
  end.

Definition canUndo (h : GameHistoryState) : bool :=
  (0 <? List.length (past h))%nat.

Definition canUndoTwice (h : GameHistoryState) : bool :=
  (2 <=? List.length (past h))%nat.

Definition canRedo (h : GameHistoryState) : bool :=
  (0 <? List.length (future h))%nat.

(** Every state the hook holds, oldest first. *)
Definition timeline (h : GameHistoryState) : list GameState :=
  past h ++ present h :: future h.

End GameHistory.

(** *** logic/legalMoves *)

(** The key [`${move.to.col}-${move.to.row}`] of [getLegalDestinations]. *)
Definition destinationKey (pos : Position) : string :=
  (numberToString (col pos) ++ "-" ++ numberToString (row pos))%string.

(** [getLegalDestinations]: the [Map] is the list of its entries in
    insertion order, which is the order of [destinations.values()]. *)
Definition getLegalDestinations (b : Board) (src : Position) (player : Player)
  : list Position :=
  let moves := getLegalMovesForPiece b src player in
  let destinations :=
    fold_left
      (fun (destinations : list (string * Position)) (move : MoveAction) =>
         let key := destinationKey (to move) in
         if existsb (fun entry => String.eqb (fst entry) key) destinations
         then destinations
         else destinations ++ [(key, to move)])
      moves [] in
  map snd destinations.

(** *** logic/gameRules *)

Definition isKingInEnemyTerritory (b : Board) (player : Player) : bool :=
  match find (fun rc => isKingOf player (boardAt b (fst rc) (snd rc)))
             allIndices with
  | Some (r, _) =>
      match player with
      | sente => r <=? 2
      | gote => 6 <=? r
      end
  | None => false
  end.

(** *** Vocabulary for the further properties *)

(** The square [k] steps from [pos] along [d]. *)
Definition stepFrom (pos : Position) (d : Direction) (k : Z) : Position :=
  mkPosition (col pos + k * dcol d) (row pos + k * drow d).

(** [dst] is reached from [pos] along [pattern]: it lies [k >= 1] steps
    away in the pattern's direction as adjusted for the owner ([k = 1] for a
    step pattern), on the board, not on a piece of the owner, and every
    square passed on the way is on the board and empty. *)
Definition reachesAlong (b : Board) (pos : Position) (o : Player)
           (pattern : MovePattern) (dst : Position) : Prop :=
  let d := adjustDirectionForPlayer (direction pattern) o in
  exists k,
    1 <= k
    /\ (moveType pattern = step -> k = 1)
    /\ dst = stepFrom pos d k
    /\ onBoard dst
    /\ (forall tp, getPieceAt b dst = Some tp -> owner tp <> o)
    /\ (forall j, 1 <= j < k ->
                  onBoard (stepFrom pos d j)
                  /\ getPieceAt b (stepFrom pos d j) = None).

Definition players : list Player := [sente; gote].

(** The board a move leaves, as [isCheckingMove] and the search compute
    it. *)
Definition boardAfter (b : Board) (player : Player) (mv : Move) : Board :=
  match mv with
  | MoveOf m => newBoard (applyMove b m)
  | DropOf d => applyDrop b d player
  end.

Definition noMoves (l : list Position) : bool :=
  match l with [] => true | _ :: _ => false end.

(** Two boards that differ, on the 81 squares, only in the kind of
    pieces of [player] that are not kings on either. *)
Definition sameForCheck (player : Player) (b1 b2 : Board) : Prop :=
  forall r c, 0 <= r < 9 -> 0 <= c < 9 ->
    boardAt b1 r c = boardAt b2 r c
    \/ exists p1 p2,
         boardAt b1 r c = Some p1 /\ boardAt b2 r c = Some p2
         /\ owner p1 = player /\ owner p2 = player
         /\ type p1 <> king /\ type p2 <> king.

(** Whose piece, if any, stands on a square. *)
Definition ownerAt (b : Board) (pos : Position) : option Player :=
  option_map owner (getPieceAt b pos).

(** The square [board[r][c]] exists, so that an assignment to it is an
    update. *)
Definition writable (b : Board) (r c : Z) : bool :=
  (0 <=? r) && (0 <=? c)
  && (Z.to_nat r <? List.length b)%nat
  && (Z.to_nat c <? List.length (nth (Z.to_nat r) b []))%nat.

(** The piece [applyMove] puts on the destination when [mp] is moved. *)
Definition arrival (move : MoveAction) (mp : Piece) : Piece :=
  if promote move && canPromote (type mp) && negb (isPromotedPiece (type mp))
  then mkPiece (match PROMOTION_MAP (type mp) with
                | Some promoted => promoted
                | None => type mp
                end) (owner mp) true
  else mp.

(** What the data model asks of a game state: one recorded position more
    than plies played, one recorded move per ply, and the last recorded
    position is the state's own. *)
Definition recorded (state : GameState) : Prop :=
  Z.of_nat (List.length (positionHistory state)) = moveCount state + 1
  /\ Z.of_nat (List.length (moveHistory state)) = moveCount state
  /\ last (positionHistory state) EmptyString = gameStateToSfen state.

(** Material: the pieces on the 81 squares and in the two hands. *)
Definition occupied (sq : Square) : Z :=
  match sq with Some _ => 1 | None => 0 end.

Definition piecesOnBoard (b : Board) : Z :=
  fold_right (fun rc n => occupied (boardAt b (fst rc) (snd rc)) + n) 0
             allIndices.

Definition handTotal (hand : Hand) : Z :=
  fold_right (fun k n => handCount hand k + n) 0 handPieces.

Definition material (state : GameState) : Z :=
  piecesOnBoard (board state)
  + handTotal (senteHand (hands state)) + handTotal (goteHand (hands state)).

Definition indexPairDec (x y : Z * Z) : {x = y} + {x <> y}.
Proof. decide equality; apply Z.eq_dec. Defined.

(** The rank by which [minimax] of ai/multiStageEngine orders the moves: the
    MVV-LVA rank of a capture, and 300 more for a promotion. *)
Definition moveRank (mv : Move) : Z :=
  mvvLva mv
  + match mv with
    | MoveOf m => if promote m then 300 else 0
    | DropOf _ => 0
    end.

(** The rank by which [minimax] of ai/intermediate orders the moves: the
    value of the piece taken. *)
Definition captureValue (mv : Move) : Z :=
  match mv with
  | MoveOf m =>
      match captured m with
      | Some c => pieceValueZ c
      | None => 0
      end
  | DropOf _ => 0
  end.

Definition allCaptures : list (option AllPieceType) :=
  None :: map Some allKinds.

(** *** Vocabulary for the encoding of positions *)

(** What the encoding shows of a square: the kind and the owner of the
    piece on it. *)
Definition shown (sq : Square) : option (AllPieceType * Player) :=
  option_map (fun p => (type p, owner p)) sq.

Definition sameShown (b1 b2 : Board) : Prop :=
  forall r c, 0 <= r < 9 -> 0 <= c < 9 ->
    shown (boardAt b1 r c) = shown (boardAt b2 r c).

(** No count of a hand is negative. *)
Definition held (hs : Hands) : Prop :=
  forall player k, 0 <= handCount (handOf hs player) k.

Fixpoint allChars (P : ascii -> bool) (s : string) : bool :=
  match s with
  | EmptyString => true
  | String ch rest => P ch && allChars P rest
  end.

Definition isDigit (ch : ascii) : bool :=
  (48 <=? nat_of_ascii ch)%nat && (nat_of_ascii ch <=? 57)%nat.

Definition differsFrom (a : ascii) (ch : ascii) : bool := negb (Ascii.eqb ch a).

(** What [boardToSfen] writes for a run of [n] empty squares. *)
Definition pendingCount (n : Z) : string :=
  if 0 <? n then numberToString n else EmptyString.

(** What the loop of [boardToSfen] and the flush after it write for the
    squares [l] of a row when [n] empty squares are pending. *)
Fixpoint rowTail (n : Z) (l : list Square) : string :=
  match l with
  | [] => pendingCount n
  | None :: rest => rowTail (n + 1) rest
  | Some p :: rest =>
      append (pendingCount n) (append (pieceToSfen p) (rowTail 0 rest))
  end.

(** What [handsToSfen] writes for one kind: nothing when none is held, the
    letter for one, the count and the letter for more. *)
Definition handToken (count : Z) (letter : ascii) : string :=
  if 0 <? count then
    append (if 1 <? count then numberToString count else EmptyString)
           (String letter EmptyString)
  else EmptyString.

Fixpoint encItems (items : list (Z * ascii)) : string :=
  match items with
  | [] => EmptyString
  | (count, letter) :: rest => append (handToken count letter) (encItems rest)
  end.

Definition upperLetter (k : HandPieceType) : ascii :=
  match k with
  | handRook => "R" | handBishop => "B" | handGold => "G"
  | handSilver => "S" | handKnight => "N" | handLance => "L"
  | handPawn => "P"
  end%char.

Definition lowerLetter (k : HandPieceType) : ascii :=
  lowerAscii (upperLetter k).

(** The counts [handsToSfen] reads, in the order it reads them, each with
    the letter it writes for the kind. *)
Definition handItems (hs : Hands) : list (Z * ascii) :=
  map (fun k => (handCount (senteHand hs) k, upperLetter k)) handPieces
  ++ map (fun k => (handCount (goteHand hs) k, lowerLetter k)) handPieces.

Definition allPieces : list (AllPieceType * Player) :=
  flat_map (fun t => map (fun o => (t, o)) players) allKinds.

(** *** Vocabulary for the position a move or a drop leaves *)

(** The order in which the scans read the 81 squares: rank 1 to rank 9, and
    within a rank from file 9 to file 1 (by row index, then by column
    index). *)
Definition readBefore (rc rc' : Z * Z) : Prop :=
  fst rc < fst rc' \/ (fst rc = fst rc' /\ snd rc < snd rc').

Definition readBeforeb (rc rc' : Z * Z) : bool :=
  (fst rc <? fst rc') || ((fst rc =? fst rc') && (snd rc <? snd rc')).

Fixpoint readInOrder (l : list (Z * Z)) : bool :=
  match l with
  | [] => true
  | rc :: rest => forallb (readBeforeb rc) rest && readInOrder rest
  end.

(** [kingPos] is the square of [player]'s king: it holds a king of the
    player, and no square read before it does (a position of the game has
    one king a side). *)
Definition kingStandsOn (b : Board) (player : Player) (kingPos : Position)
  : Prop :=
  onBoard kingPos
  /\ (exists p, getPieceAt b kingPos = Some p /\ type p = king
                /\ owner p = player)
  /\ forall r c p,
       0 <= r < 9 -> 0 <= c < 9 ->
       readBefore (r, c) (positionToIndex kingPos) ->
       boardAt b r c = Some p -> ~ (type p = king /\ owner p = player).

(** A piece of [byPlayer] standing on one of the 81 squares reaches
    [target] along one of the patterns of its kind. *)
Definition attackedBy (b : Board) (byPlayer : Player) (target : Position)
  : Prop :=
  exists src p pattern,
    onBoard src /\ getPieceAt b src = Some p /\ owner p = byPlayer
    /\ In pattern (PIECE_MOVES (type p))
    /\ reachesAlong b src byPlayer pattern target.

(** The king of [player] stands on a square a piece of the opponent
    attacks. *)
Definition kingInCheck (b : Board) (player : Player) : Prop :=
  exists kingPos,
    kingStandsOn b player kingPos
    /\ attackedBy b (opponentOf player) kingPos.

(** [after] is the board [b] on which the piece [mp] has made [move]: the
    origin is empty, the destination holds the piece, of its promoted kind
    when promotion is asked for and the kind is promotable and unpromoted,
    and every other square of the board is as it was. *)
Definition movedOn (b : Board) (move : MoveAction) (mp : Piece)
           (after : Board) : Prop :=
  wellShaped after
  /\ getPieceAt after (from move) = None
  /\ getPieceAt after (to move) = Some (arrival move mp)
  /\ forall other, onBoard other -> other <> from move -> other <> to move ->
                   getPieceAt after other = getPieceAt b other.

(** [after] is the board [b] on which [player] has made [drop]: the
    destination holds an unpromoted piece of the kind, the player's, and
    every other square of the board is as it was. *)
Definition droppedOn (b : Board) (drop : DropAction) (player : Player)
           (after : Board) : Prop :=
  wellShaped after
  /\ getPieceAt after (dropTo drop)
     = Some (mkPiece (handKind (dropPiece drop)) player false)
  /\ forall other, onBoard other -> other <> dropTo drop ->
                   getPieceAt after other = getPieceAt b other.

(** *** The encoding of a position as the specification describes it *)

(** The letter of a kind, upper case for the first player and lower case
    for the second, and whether the kind is a promoted one. *)
Definition describedLetter (t : AllPieceType) (o : Player) : ascii :=
  match o, t with
  | sente, king => "K"
  | sente, (rook | promotedRook) => "R"
  | sente, (bishop | promotedBishop) => "B"
  | sente, gold => "G"
  | sente, (silver | promotedSilver) => "S"
  | sente, (knight | promotedKnight) => "N"
  | sente, (lance | promotedLance) => "L"
  | sente, (pawn | promotedPawn) => "P"
  | gote, king => "k"
  | gote, (rook | promotedRook) => "r"
  | gote, (bishop | promotedBishop) => "b"
  | gote, gold => "g"
  | gote, (silver | promotedSilver) => "s"
  | gote, (knight | promotedKnight) => "n"
  | gote, (lance | promotedLance) => "l"
  | gote, (pawn | promotedPawn) => "p"
  end%char.

Definition describedPromoted (t : AllPieceType) : bool :=
  match t with
  | promotedRook | promotedBishop | promotedSilver | promotedKnight
  | promotedLance | promotedPawn => true
  | _ => false
  end.

(** A piece: its letter, with the prefix [+] when promoted. *)
Definition describedPiece (p : Piece) : string :=
  let letter := String (describedLetter (type p) (owner p)) EmptyString in
  if describedPromoted (type p) then String "+" letter else letter.

(** A rank, read from file 9 to file 1: each run of empty squares is
    written as its length, each piece as [describedPiece]; [run] is the
    length of the run of empty squares read so far. *)
Fixpoint describedRun (run : Z) (squares : list Square) : string :=
  match squares with
  | [] => if 0 <? run then numberToString run else EmptyString
  | None :: rest => describedRun (run + 1) rest
  | Some p :: rest =>
      append (if 0 <? run then numberToString run else EmptyString)
             (append (describedPiece p) (describedRun 0 rest))
  end.

Definition files : list Z := [9; 8; 7; 6; 5; 4; 3; 2; 1].

(** The board: the ranks 1 to 9 in order, separated by [/]. *)
Definition describedBoard (b : Board) : string :=
  String.concat "/"
    (map (fun rank =>
            describedRun 0 (map (fun file => getPieceAt b (mkPosition file rank))
                                files))
         ranks).

(** A hand: for each kind held, in the order rook, bishop, gold, silver,
    knight, lance, pawn, the count when more than one, then the letter. *)
Definition describedHand (hand : Hand) (o : Player) : string :=
  fold_right
    (fun k rest =>
       let count := handCount hand k in
       let letter := String (describedLetter (handKind k) o) EmptyString in
       append (if 1 <? count then append (numberToString count) letter
               else if 0 <? count then letter
               else EmptyString)
              rest)
    EmptyString handPieces.

(** The hands: the first player's, then the second player's, and [-] when
    both are empty. *)
Definition describedHands (hs : Hands) : string :=
  match append (describedHand (senteHand hs) sente)
               (describedHand (goteHand hs) gote) with
  | EmptyString => "-"%string
  | String ch rest => String ch rest
  end.

(** The whole: board, side to move ([b] for the first player, [w] for the
    second), hands, separated by a space. *)
Definition describedSfen (b : Board) (hs : Hands) (side : Player) : string :=
  append (describedBoard b)
         (String " "
            (String (match side with sente => "b" | gote => "w" end)%char
               (String " " (describedHands hs)))).

(* ================================================================== *)
(** * Properties *)

(** ** Sanity checks of the embedding on the standard opening position *)

Example initial_position_has_30_moves :
  List.length (getAllLegalMoves createInitialGameState) = 30%nat.
Proof. vm_compute. reflexivity. Qed.

Example initial_position_sfen :
  gameStateToSfen createInitialGameState
  = "lnsgkgsnl/1r5b1/ppppppppp/9/9/9/PPPPPPPPP/1B5R1/LNSGKGSNL b -"%string.
Proof. vm_compute. reflexivity. Qed.

(** ** Loop ranges and tag equalities *)

Lemma indices_In (r : Z) : In r indices <-> 0 <= r < 9.
Proof. unfold indices; simpl; lia. Qed.

Lemma ranks_In (r : Z) : In r ranks <-> 1 <= r <= 9.
Proof. unfold ranks; simpl; lia. Qed.

Lemma allIndices_In (rc : Z * Z) :
  In rc allIndices <-> (0 <= fst rc < 9 /\ 0 <= snd rc < 9).
Proof.
  unfold allIndices. rewrite in_flat_map. split.
  - intros [r [Hr Hin]]. apply in_map_iff in Hin as [c [<- Hc]].
    apply indices_In in Hr. apply indices_In in Hc. simpl. lia.
  - intros [Hr Hc]. exists (fst rc). split.
    + now apply indices_In.
    + apply in_map_iff. exists (snd rc). split.
      * now destruct rc.
      * now apply indices_In.
Qed.

Lemma allPositions_In (pos : Position) :
  In pos allPositions <-> (1 <= col pos <= 9 /\ 1 <= row pos <= 9).
Proof.
  unfold allPositions. rewrite in_flat_map. split.
  - intros [r [Hr Hin]]. apply in_map_iff in Hin as [c [<- Hc]].
    apply ranks_In in Hr. apply ranks_In in Hc. simpl. lia.
  - intros [Hc Hr]. exists (row pos). split.
    + now apply ranks_In.
    + apply in_map_iff. exists (col pos). split.
      * now destruct pos.
      * now apply ranks_In.
Qed.

Lemma playerEqb_eq (a b : Player) : playerEqb a b = true <-> a = b.
Proof. destruct a, b; simpl; split; congruence. Qed.

Lemma playerEqb_refl (a : Player) : playerEqb a a = true.
Proof. now destruct a. Qed.

Lemma pieceTypeEqb_eq (a b : AllPieceType) : pieceTypeEqb a b = true <-> a = b.
Proof. destruct a, b; simpl; split; congruence. Qed.

Lemma samePosition_eq (m t : Position) :
  (col m =? col t) && (row m =? row t) = true <-> m = t.
Proof.
  rewrite andb_true_iff, !Z.eqb_eq. destruct m, t; simpl. split.
  - intros [-> ->]. reflexivity.
  - intros H. injection H. auto.
Qed.

Lemma reaches_In (target : Position) (l : list Position) :
  existsb (fun m => (col m =? col target) && (row m =? row target)) l = true
  <-> In target l.
Proof.
  rewrite existsb_exists. split.
  - intros [m [Hin Heq]]. apply samePosition_eq in Heq. now subst.
  - intros Hin. exists target. split; [assumption | now apply samePosition_eq].
Qed.

Lemma isKingOf_spec (player : Player) (sq : Square) :
  isKingOf player sq = true
  <-> exists p, sq = Some p /\ type p = king /\ owner p = player.
Proof.
  destruct sq as [p|]; simpl.
  - rewrite andb_true_iff, pieceTypeEqb_eq, playerEqb_eq. split.
    + intros [Ht Ho]. now exists p.
    + intros [q [Hq [Ht Ho]]]. injection Hq as <-. now split.
  - split; [discriminate | intros [p [Hp _]]; discriminate].
Qed.

(** ** The slide loop terminates within its fuel *)

Lemma squaresAhead_valid (d : Direction) (c r : Z) :
  isValidPosition c r = true -> 1 <= squaresAhead d c r <= 9.
Proof.
  unfold isValidPosition, squaresAhead.
  rewrite !andb_true_iff, !Z.leb_le. intros H.
  destruct (drow d =? 1), (drow d =? -1), (dcol d =? 1); lia.
Qed.

Lemma squaresAhead_next (d : Direction) (c r : Z) :
  unitStep d ->
  squaresAhead d (c + dcol d) (r + drow d) = squaresAhead d c r - 1.
Proof.
  unfold unitStep, squaresAhead. intros H.
  destruct (Z.eqb_spec (drow d) 1); [lia|].
  destruct (Z.eqb_spec (drow d) (-1)); [lia|].
  destruct (Z.eqb_spec (dcol d) 1); lia.
Qed.

Lemma slideWalk_enough (b : Board) (o : Player) (d : Direction) :
  unitStep d ->
  forall (n m : nat) (c r : Z),
    (n <= m)%nat ->
    (isValidPosition c r = true -> squaresAhead d c r <= Z.of_nat n) ->
    slideWalk m b o d c r = slideWalk n b o d c r.
Proof.
  intros Hd. induction n as [|n IH]; intros m c r Hle Hahead.
  - cbn [slideWalk]. destruct m as [|m]; [reflexivity|].
    cbn [slideWalk].
    destruct (isValidPosition c r) eqn:Hv; [|reflexivity].
    pose proof (squaresAhead_valid d c r Hv). specialize (Hahead eq_refl). lia.
  - destruct m as [|m]; [lia|]. cbn [slideWalk].
    destruct (isValidPosition c r) eqn:Hv; [|reflexivity].
    destruct (getPieceAt b (mkPosition c r)); [reflexivity|].
    f_equal. apply IH; [lia|].
    intros _. rewrite (squaresAhead_next d c r Hd).
    specialize (Hahead eq_refl). lia.
Qed.

(** More fuel than [slideFuel] changes nothing: the loop has stopped. *)
Lemma slideWalk_fuel (b : Board) (o : Player) (d : Direction) (c r : Z)
      (extra : nat) :
  unitStep d ->
  slideWalk (slideFuel + extra) b o d c r = slideWalk slideFuel b o d c r.
Proof.
  intros Hd. apply slideWalk_enough; [exact Hd | lia |].
  intros Hv. pose proof (squaresAhead_valid d c r Hv).
  unfold slideFuel. lia.
Qed.

Lemma catalog_slides_are_unit (t : AllPieceType) (o : Player)
      (pattern : MovePattern) :
  In pattern (PIECE_MOVES t) -> moveType pattern = slide ->
  unitStep (adjustDirectionForPlayer (direction pattern) o).
Proof.
  intros Hin Hs. unfold unitStep.
  destruct t; cbn in Hin;
    repeat (destruct Hin as [<-|Hin]; [try discriminate Hs; destruct o; cbn; lia|]);
    destruct Hin.
Qed.

(** Every slide of the catalog, for either player, is walked to its end by
    [getRawMoves]. *)
Lemma patternMoves_fuel (b : Board) (pos : Position) (t : AllPieceType)
      (o : Player) (pattern : MovePattern) (extra : nat) :
  In pattern (PIECE_MOVES t) -> moveType pattern = slide ->
  let d := adjustDirectionForPlayer (direction pattern) o in
  patternMoves b pos o pattern
  = slideWalk (slideFuel + extra) b o d (col pos + dcol d) (row pos + drow d).
Proof.
  intros Hin Hs d. unfold patternMoves. rewrite Hs. fold d.
  symmetry. apply slideWalk_fuel. now apply (catalog_slides_are_unit t).
Qed.

(** ** The king scan *)

Lemma findKingPosition_Some (b : Board) (player : Player) (kingPos : Position) :
  findKingPosition b player = Some kingPos ->
  (1 <= col kingPos <= 9 /\ 1 <= row kingPos <= 9)
  /\ exists p, getPieceAt b kingPos = Some p /\ type p = king
               /\ owner p = player.
Proof.
  unfold findKingPosition.
  destruct (find _ allIndices) as [[r c]|] eqn:Hfind; [|discriminate].
  intros Heq. injection Heq as <-.
  apply find_some in Hfind as [Hin Hking]. apply allIndices_In in Hin.
  simpl in Hin, Hking. split.
  - unfold indexToPosition; cbn [col row]. lia.
  - apply isKingOf_spec in Hking as [p [Hp Hk]]. exists p. split; [|exact Hk].
    unfold getPieceAt, indexToPosition, positionToIndex; cbn [col row].
    replace (r + 1 - 1) with r by lia. replace (9 - (9 - c)) with c by lia.
    exact Hp.
Qed.

Lemma findKingPosition_None (b : Board) (player : Player) :
  findKingPosition b player = None
  <-> forall r c, 0 <= r < 9 -> 0 <= c < 9 ->
                  isKingOf player (boardAt b r c) = false.
Proof.
  unfold findKingPosition. split.
  - destruct (find _ allIndices) as [[r c]|] eqn:Hfind; [discriminate|].
    intros _ r c Hr Hc.
    apply (find_none _ _ Hfind (r, c)). now apply allIndices_In.
  - intros Hno.
    destruct (find _ allIndices) as [[r c]|] eqn:Hfind; [|reflexivity].
    apply find_some in Hfind as [Hin Hking]. apply allIndices_In in Hin.
    simpl in Hin, Hking. rewrite Hno in Hking by lia. discriminate.
Qed.

(** ** Attack detection *)

Lemma noKingOf_scan (b : Board) (player : Player) :
  noKingOf b player
  <-> forall r c, 0 <= r < 9 -> 0 <= c < 9 ->
                  isKingOf player (boardAt b r c) = false.
Proof.
  unfold noKingOf. split.
  - intros Hno r c Hr Hc.
    destruct (isKingOf player (boardAt b r c)) eqn:Hk; [|reflexivity].
    apply isKingOf_spec in Hk as [p [Hp Hk]]. now destruct (Hno r c p Hr Hc Hp).
  - intros Hno r c p Hr Hc Hp Hk.
    assert (isKingOf player (boardAt b r c) = true) as Habs
        by (apply isKingOf_spec; now exists p).
    rewrite Hno in Habs by assumption. discriminate.
Qed.

(** A king-less board can be recognised by running the scan. *)
Lemma noKingOf_by_scan (b : Board) (player : Player) :
  forallb (fun rc => negb (isKingOf player (boardAt b (fst rc) (snd rc))))
          allIndices = true ->
  noKingOf b player.
Proof.
  intros Hall. apply noKingOf_scan. intros r c Hr Hc.
  rewrite forallb_forall in Hall.
  specialize (Hall (r, c)). cbn [fst snd] in Hall.
  apply negb_true_iff, Hall, allIndices_In. cbn [fst snd]. lia.
Qed.

Lemma isSquareAttacked_spec (b : Board) (target : Position) (byPlayer : Player) :
  isSquareAttacked b target byPlayer = true
  <-> exists r c p,
        0 <= r < 9 /\ 0 <= c < 9 /\ boardAt b r c = Some p
        /\ owner p = byPlayer
        /\ In target (getRawMoves b (indexToPosition r c) (type p) byPlayer).
Proof.
  unfold isSquareAttacked. rewrite existsb_exists. split.
  - intros [[r c] [Hin Hatt]]. apply allIndices_In in Hin. simpl in Hin.
    unfold attacksFrom in Hatt. simpl in Hatt.
    destruct (boardAt b r c) as [p|] eqn:Hp; [|discriminate].
    apply andb_true_iff in Hatt as [Ho Hreach].
    apply playerEqb_eq in Ho. apply reaches_In in Hreach.
    exists r, c, p. tauto.
  - intros [r [c [p [Hr [Hc [Hp [Ho Hreach]]]]]]]. exists (r, c). split.
    + apply allIndices_In. simpl. lia.
    + unfold attacksFrom. simpl. rewrite Hp.
      apply andb_true_iff. split.
      * now apply playerEqb_eq.
      * now apply reaches_In.
Qed.

Lemma isInCheck_attacked (b : Board) (player : Player) :
  isInCheck b player = true <-> kingAttacked b player.
Proof.
  unfold isInCheck, kingAttacked.
  destruct (findKingPosition b player) as [kp|]; split.
  - intros H. exists kp. split; [reflexivity|].
    now apply isSquareAttacked_spec.
  - intros [kp' [Heq H]]. injection Heq as <-.
    now apply isSquareAttacked_spec.
  - discriminate.
  - intros [kp' [Heq _]]. discriminate.
Qed.

Lemma isInCheck_not_attacked (b : Board) (player : Player) :
  isInCheck b player = false <-> ~ kingAttacked b player.
Proof.
  rewrite <- isInCheck_attacked. now destruct (isInCheck b player).
Qed.

(** C3. [isInCheck board player] is true exactly when the scan finds the
    player's king on the board and some piece of the opponent standing on
    one of the 81 squares has the king's square among its raw moves, the raw
    moves being those of [getRawMoves] on the board as it stands (self-check
    plays no part in them).  The square found for the king is on the board
    and holds a king of the player; none is found exactly when no square
    holds one. *)
Theorem isInCheck_iff_king_in_raw_moves (b : Board) (player : Player) :
  (isInCheck b player = true
   <-> exists kingPos,
         findKingPosition b player = Some kingPos
         /\ exists r c p,
              0 <= r < 9 /\ 0 <= c < 9 /\ boardAt b r c = Some p
              /\ owner p = opponentOf player
              /\ In kingPos (getRawMoves b (indexToPosition r c) (type p)
                                         (opponentOf player)))
  /\ (forall kingPos,
        findKingPosition b player = Some kingPos ->
        exists p, getPieceAt b kingPos = Some p /\ type p = king
                  /\ owner p = player)
  /\ (findKingPosition b player = None <-> noKingOf b player).
Proof.
  split; [|split].
  - apply isInCheck_attacked.
  - intros kp H. now apply findKingPosition_Some in H.
  - rewrite noKingOf_scan. apply findKingPosition_None.
Qed.

(** ** King-less boards *)

Lemma isCheckmate_needs_check (b : Board) (player : Player)
      (hand : option Hand) :
  isInCheck b player = false -> isCheckmate b player hand = false.
Proof. intros H. unfold isCheckmate. now rewrite H. Qed.

(** C10. When no square of the board holds a king of the player,
    [isInCheck board player] is false, and so is [isCheckmate board player]
    with or without a hand: both return a result on a king-less board. *)
Theorem no_king_no_check (b : Board) (player : Player)
        (Hno : noKingOf b player) :
  isInCheck b player = false
  /\ forall hand, isCheckmate b player hand = false.
Proof.
  assert (isInCheck b player = false) as Hcheck.
  { unfold isInCheck.
    replace (findKingPosition b player) with (@None Position); [reflexivity|].
    symmetry. apply findKingPosition_None. now apply noKingOf_scan. }
  split; [exact Hcheck|].
  intros hand. now apply isCheckmate_needs_check.
Qed.

(** On the cornered-king board with sente's king taken off, gote still has
    rooks bearing on the corner, and sente is neither in check nor mated. *)
Lemma no_king_no_check_witness :
  let b := boardPut corneredKingBoard 8 8 None in
  noKingOf b sente
  /\ isInCheck b sente = false
  /\ isCheckmate b sente (Some (mkHand 0 0 1 0 0 0 0)) = false
  /\ isCheckmate b sente None = false.
Proof.
  intros b.
  assert (noKingOf b sente) as Hno
      by (apply noKingOf_by_scan; vm_compute; reflexivity).
  destruct (no_king_no_check b sente Hno) as [Hc Hm].
  split; [exact Hno|]. split; [exact Hc|]. split; apply Hm.
Defined.

(** ** Applying a move *)

Lemma cloneBoard_same (b : Board) : cloneBoard b = b.
Proof.
  unfold cloneBoard. rewrite <- (map_id b) at 2. apply map_ext. intros r.
  rewrite <- (map_id r) at 2. apply map_ext. intros [[t o i]|]; reflexivity.
Qed.

Lemma nth_replaceNth_same {A : Type} (n : nat) (f : A -> A) (l : list A)
      (d : A) :
  (n < List.length l)%nat -> nth n (replaceNth n f l) d = f (nth n l d).
Proof.
  revert n. induction l as [|x l IH]; intros n Hn; cbn in Hn; [lia|].
  destruct n as [|n]; cbn; [reflexivity|]. apply IH. lia.
Qed.

Lemma nth_replaceNth_other {A : Type} (n m : nat) (f : A -> A) (l : list A)
      (d : A) :
  m <> n -> nth m (replaceNth n f l) d = nth m l d.
Proof.
  revert n m. induction l as [|x l IH]; intros n m Hne.
  - now destruct n.
  - destruct n as [|n], m as [|m]; cbn; try reflexivity; try lia.
    apply IH. lia.
Qed.

Lemma replaceNth_length {A : Type} (n : nat) (f : A -> A) (l : list A) :
  List.length (replaceNth n f l) = List.length l.
Proof.
  revert n. induction l as [|x l IH]; intros n; [now destruct n|].
  destruct n; cbn; [reflexivity|]. now rewrite IH.
Qed.

Lemma wellShaped_row (b : Board) (r : Z) :
  wellShaped b -> 0 <= r < 9 ->
  List.length (nth (Z.to_nat r) b []) = 9%nat.
Proof.
  intros [Hlen Hrows] Hr. rewrite Forall_forall in Hrows.
  apply Hrows, nth_In. lia.
Qed.

Lemma getPieceAt_boardPut_same (b : Board) (pos : Position) (sq : Square) :
  wellShaped b -> onBoard pos ->
  getPieceAt (boardPut b (row pos - 1) (9 - col pos) sq) pos = sq.
Proof.
  intros Hb [Hc Hr]. unfold getPieceAt, positionToIndex, boardPut, boardAt.
  replace ((row pos - 1 <? 0) || (9 - col pos <? 0)) with false
    by (symmetry; apply orb_false_iff; split; apply Z.ltb_ge; lia).
  rewrite nth_replaceNth_same by (destruct Hb as [-> _]; lia).
  apply nth_replaceNth_same.
  rewrite (wellShaped_row b (row pos - 1) Hb) by lia. lia.
Qed.

Lemma getPieceAt_boardPut_other (b : Board) (pos other : Position)
      (sq : Square) :
  onBoard pos -> onBoard other -> other <> pos ->
  getPieceAt (boardPut b (row pos - 1) (9 - col pos) sq) other
  = getPieceAt b other.
Proof.
  intros [Hc Hr] [Hc' Hr'] Hne.
  unfold getPieceAt, positionToIndex, boardPut, boardAt.
  replace ((row pos - 1 <? 0) || (9 - col pos <? 0)) with false
    by (symmetry; apply orb_false_iff; split; apply Z.ltb_ge; lia).
  destruct ((row other - 1 <? 0) || (9 - col other <? 0)); [reflexivity|].
  destruct (Z.eq_dec (row other) (row pos)) as [Hrow|Hrow].
  - assert (col other <> col pos) as Hcol.
    { intros Hcol. apply Hne. destruct other, pos; cbn in *. congruence. }
    rewrite Hrow.
    destruct (Nat.lt_ge_cases (Z.to_nat (row pos - 1)) (List.length b))
      as [Hin|Hout].
    + rewrite nth_replaceNth_same by exact Hin.
      apply nth_replaceNth_other. lia.
    + rewrite (nth_overflow (replaceNth _ _ b) [])
        by (rewrite replaceNth_length; exact Hout).
      rewrite (nth_overflow b []) by exact Hout. reflexivity.
  - rewrite nth_replaceNth_other by lia. reflexivity.
Qed.

Lemma boardPut_wellShaped (b : Board) (r c : Z) (sq : Square) :
  wellShaped b -> wellShaped (boardPut b r c sq).
Proof.
  intros [Hlen Hrows]. unfold boardPut.
  destruct ((r <? 0) || (c <? 0)); [now split|]. split.
  - now rewrite replaceNth_length.
  - clear Hlen. generalize (Z.to_nat r) as n.
    induction Hrows as [|x l Hx Hl IH]; intros n; [now destruct n|].
    destruct n as [|n]; cbn [replaceNth]; constructor; auto.
    now rewrite replaceNth_length.
Qed.

(** X11. On a board of the declared shape, [applyMove] takes the captured piece
    from the destination, empties the origin, puts on the destination the
    moved piece, of its promoted kind when promotion is asked for and the
    kind is promotable and unpromoted, and leaves every other square. *)
Lemma applyMove_spec (b : Board) (move : MoveAction) (mp : Piece) :
  wellShaped b -> onBoard (from move) -> onBoard (to move) ->
  from move <> to move ->
  getPieceAt b (from move) = Some mp ->
  let after := newBoard (applyMove b move) in
  capturedPiece (applyMove b move) = getPieceAt b (to move)
  /\ getPieceAt after (from move) = None
  /\ getPieceAt after (to move)
     = Some (if promote move && canPromote (type mp)
                && negb (isPromotedPiece (type mp))
             then mkPiece (match PROMOTION_MAP (type mp) with
                           | Some promoted => promoted
                           | None => type mp
                           end) (owner mp) true
             else mp)
  /\ forall other, onBoard other -> other <> from move -> other <> to move ->
                   getPieceAt after other = getPieceAt b other.
Proof.
  intros Hb Hfrom Hto Hne Hmp after. subst after.
  unfold applyMove. rewrite cloneBoard_same.
  unfold positionToIndex.
  change (boardAt b (row (from move) - 1) (9 - col (from move)))
    with (getPieceAt b (from move)).
  change (boardAt b (row (to move) - 1) (9 - col (to move)))
    with (getPieceAt b (to move)).
  rewrite Hmp.
  pose proof (boardPut_wellShaped b (row (from move) - 1) (9 - col (from move))
                                  None Hb) as Hb1.
  assert (forall sq,
             getPieceAt
               (boardPut (boardPut b (row (from move) - 1) (9 - col (from move))
                                   None)
                         (row (to move) - 1) (9 - col (to move)) sq)
               (from move) = None) as Hsrc.
  { intros sq. rewrite getPieceAt_boardPut_other by assumption.
    now apply getPieceAt_boardPut_same. }
  assert (forall sq other,
             onBoard other -> other <> from move -> other <> to move ->
             getPieceAt
               (boardPut (boardPut b (row (from move) - 1) (9 - col (from move))
                                   None)
                         (row (to move) - 1) (9 - col (to move)) sq)
               other = getPieceAt b other) as Hframe.
  { intros sq other Ho Hn1 Hn2.
    rewrite getPieceAt_boardPut_other by assumption.
    now apply getPieceAt_boardPut_other. }
  destruct (promote move && canPromote (type mp)
            && negb (isPromotedPiece (type mp))) eqn:Hprom.
  - apply andb_true_iff in Hprom as [Hprom _].
    apply andb_true_iff in Hprom as [_ Hcan].
    unfold promotePiece. unfold canPromote in Hcan.
    destruct (PROMOTION_MAP (type mp)) as [promoted|]; [|discriminate].
    cbn [newBoard capturedPiece].
    split; [reflexivity|]. split; [apply Hsrc|].
    split; [now apply getPieceAt_boardPut_same | apply Hframe].
  - cbn [newBoard capturedPiece].
    split; [reflexivity|]. split; [apply Hsrc|].
    split; [now apply getPieceAt_boardPut_same | apply Hframe].
Qed.

(** ** The legal-move filter *)

Lemma filter_flat_map {A B : Type} (f : B -> bool) (g : A -> list B)
      (l : list A) :
  filter f (flat_map g l) = flat_map (fun x => filter f (g x)) l.
Proof.
  induction l as [|x l IH]; [reflexivity|].
  cbn [flat_map]. now rewrite filter_app, IH.
Qed.

Lemma movesTo_filter (b : Board) (src : Position) (p : Piece)
      (player : Player) (dst : Position) :
  movesTo b src p player dst
  = filter (fun m => isLegalMove b m player)
           (candidatesTo src p player (option_map type (getPieceAt b dst)) dst).
Proof.
  unfold movesTo, candidatesTo.
  destruct (canPromote (type p) && negb (isPromotedPiece (type p))
            && canPromoteMove src dst player);
    destruct (mustPromote (type p) dst player); cbn [negb filter app];
    repeat match goal with
           | |- context [isLegalMove ?bb ?mm ?pp] =>
               destruct (isLegalMove bb mm pp)
           end; reflexivity.
Qed.

Lemma getLegalMovesForPiece_filter (b : Board) (src : Position)
      (player : Player) :
  getLegalMovesForPiece b src player
  = filter (fun m => isLegalMove b m player) (candidateMoves b src player).
Proof.
  unfold getLegalMovesForPiece, candidateMoves.
  destruct (getPieceAt b src) as [p|]; [|reflexivity].
  destruct (negb (playerEqb (owner p) player)); [reflexivity|].
  rewrite filter_flat_map. apply flat_map_ext. intros dst.
  apply movesTo_filter.
Qed.

Lemma isLegalMove_safe (b : Board) (move : MoveAction) (player : Player) :
  isLegalMove b move player = true
  <-> ~ kingAttacked (newBoard (applyMove b move)) player.
Proof.
  unfold isLegalMove. rewrite negb_true_iff. apply isInCheck_not_attacked.
Qed.

Lemma getLegalMovesForPiece_In (b : Board) (src : Position) (player : Player)
      (m : MoveAction) :
  In m (getLegalMovesForPiece b src player)
  <-> In m (candidateMoves b src player) /\ isLegalMove b m player = true.
Proof. rewrite getLegalMovesForPiece_filter. apply filter_In. Qed.

(** ** Promotion in the move generator *)

Lemma candidateMoves_In (b : Board) (src : Position) (player : Player)
      (m : MoveAction) :
  In m (candidateMoves b src player)
  <-> exists p dst,
        getPieceAt b src = Some p /\ owner p = player
        /\ In dst (getRawMoves b src (type p) player)
        /\ In m (candidatesTo src p player
                              (option_map type (getPieceAt b dst)) dst).
Proof.
  unfold candidateMoves. destruct (getPieceAt b src) as [p|].
  - destruct (playerEqb (owner p) player) eqn:Ho; cbn [negb].
    + apply playerEqb_eq in Ho. rewrite in_flat_map. split.
      * intros [dst [Hraw Hin]]. now exists p, dst.
      * intros [q [dst [Hq [_ [Hraw Hin]]]]]. injection Hq as <-.
        now exists dst.
    + split; [intros []|].
      intros [q [dst [Hq [Hown _]]]]. injection Hq as <-.
      apply playerEqb_eq in Hown. congruence.
  - split; [intros []|]. intros [q [dst [Hq _]]]. discriminate.
Qed.

Lemma candidatesTo_In (src : Position) (p : Piece) (player : Player)
      (cap : option AllPieceType) (dst : Position) (m : MoveAction) :
  In m (candidatesTo src p player cap dst)
  <-> m = mkMoveAction src dst (type p) cap (promote m)
      /\ (if promote m
          then canPromote (type p) && negb (isPromotedPiece (type p))
               && canPromoteMove src dst player = true
          else canPromote (type p) && negb (isPromotedPiece (type p))
               && canPromoteMove src dst player
               && mustPromote (type p) dst player = false).
Proof.
  unfold candidatesTo.
  destruct (canPromote (type p) && negb (isPromotedPiece (type p))
            && canPromoteMove src dst player);
    destruct (mustPromote (type p) dst player); cbn [negb In andb];
    (split;
     [ intros H; repeat destruct H as [H|H]; try contradiction; subst m;
       cbn [promote]; split; reflexivity
     | intros [Hm Hp]; destruct (promote m); try discriminate;
       rewrite Hm; auto ]).
Qed.

Lemma dead_square_is_promotable (t : AllPieceType) (src dst : Position)
      (player : Player) :
  isDeadPosition t dst player = true ->
  canPromote t && negb (isPromotedPiece t) && canPromoteMove src dst player
  = true.
Proof.
  unfold isDeadPosition, canPromoteMove.
  destruct player, t; try discriminate; cbn [canPromote PROMOTION_MAP
    isPromotedPiece UNPROMOTE_MAP negb andb]; intros H;
    apply orb_true_iff; right;
    rewrite ?Z.eqb_eq, ?Z.leb_le in *; lia.
Qed.

Lemma isDeadPosition_spec (t : AllPieceType) (dst : Position)
      (player : Player) :
  isDeadPosition t dst player = true
  <-> ((t = pawn \/ t = lance) /\ row dst = farthestRank player)
      \/ (t = knight /\ inFarthestTwoRanks player (row dst)).
Proof.
  unfold isDeadPosition, farthestRank, inFarthestTwoRanks.
  destruct player, t; rewrite ?Z.eqb_eq, ?Z.leb_le; split; intros H;
    try discriminate; try tauto;
    try (destruct H as [[[H|H] _]|[H _]]; discriminate);
    destruct H as [[[H|H] Hr]|[H Hr]]; try discriminate; exact Hr.
Qed.

(** C5. Among the moves [getLegalMovesForPiece] returns, a pawn or lance
    arriving on the mover's farthest rank and a knight arriving on one of the
    mover's two farthest ranks always carry [promote = true]; and for a piece
    of a promotable, not yet promoted kind, each raw destination for which
    origin or destination lies in the promotion zone and promotion is not
    forced gives two candidates, one promoting and one not, each returned
    exactly when it passes [isLegalMove]. *)
Theorem forced_and_optional_promotion (b : Board) (src : Position)
        (player : Player) :
  (forall m,
      In m (getLegalMovesForPiece b src player) ->
      ((piece m = pawn \/ piece m = lance) ->
       row (to m) = farthestRank player -> promote m = true)
      /\ (piece m = knight ->
          inFarthestTwoRanks player (row (to m)) -> promote m = true))
  /\ (forall p dst,
        getPieceAt b src = Some p -> owner p = player ->
        In dst (getRawMoves b src (type p) player) ->
        canPromote (type p) = true -> isPromotedPiece (type p) = false ->
        canPromoteMove src dst player = true ->
        mustPromote (type p) dst player = false ->
        let cap := option_map type (getPieceAt b dst) in
        let promoting := mkMoveAction src dst (type p) cap true in
        let quiet := mkMoveAction src dst (type p) cap false in
        In promoting (candidateMoves b src player)
        /\ In quiet (candidateMoves b src player)
        /\ (In promoting (getLegalMovesForPiece b src player)
            <-> isLegalMove b promoting player = true)
        /\ (In quiet (getLegalMovesForPiece b src player)
            <-> isLegalMove b quiet player = true)).
Proof.
  split.
  - intros m Hin. apply getLegalMovesForPiece_In in Hin as [Hcand _].
    apply candidateMoves_In in Hcand as [p [dst [_ [_ [_ Hin]]]]].
    apply candidatesTo_In in Hin as [Hm Hprom].
    assert (isDeadPosition (piece m) (to m) player = true ->
            promote m = true) as Hdead.
    { intros Hd. destruct (promote m); [reflexivity|].
      rewrite Hm in Hd. cbn [piece to] in Hd.
      rewrite (dead_square_is_promotable _ src _ _ Hd) in Hprom.
      unfold mustPromote in Hprom. rewrite Hd in Hprom. discriminate. }
    split; intros Hk Hr; apply Hdead, isDeadPosition_spec; [left | right];
      now split.
  - intros p dst Hp Ho Hraw Hcan Hnot Hzone Hfree cap promoting quiet.
    assert (In promoting (candidateMoves b src player)) as Hc1.
    { apply candidateMoves_In. exists p, dst. repeat (split; [assumption|]).
      apply candidatesTo_In. cbn [promote]. split; [reflexivity|].
      now rewrite Hcan, Hnot, Hzone. }
    assert (In quiet (candidateMoves b src player)) as Hc2.
    { apply candidateMoves_In. exists p, dst. repeat (split; [assumption|]).
      apply candidatesTo_In. cbn [promote]. split; [reflexivity|].
      now rewrite Hcan, Hnot, Hzone, Hfree. }
    split; [exact Hc1|]. split; [exact Hc2|].
    rewrite !getLegalMovesForPiece_In. tauto.
Qed.

(** ** Drop legality *)

Lemma ownPawnOnFile_spec (b : Board) (player : Player) (pos : Position) :
  ownPawnOnFile b player (snd (positionToIndex pos)) = true
  <-> ownPawnOnFileOf b player pos.
Proof.
  unfold ownPawnOnFile, ownPawnOnFileOf, positionToIndex. cbn [snd].
  rewrite existsb_exists. split.
  - intros [r [Hr Hp]]. apply indices_In in Hr. unfold ownPawnAt in Hp.
    destruct (boardAt b r (9 - col pos)) as [p|] eqn:Hsq; [|discriminate].
    apply andb_true_iff in Hp as [Hp Hprom].
    apply andb_true_iff in Hp as [Ht Ho].
    apply pieceTypeEqb_eq in Ht. apply playerEqb_eq in Ho.
    apply negb_true_iff in Hprom. exists r, p. tauto.
  - intros [r [p [Hr [Hp [Ht [Ho Hprom]]]]]]. exists r. split.
    + now apply indices_In.
    + unfold ownPawnAt. rewrite Hp, Ht, Ho, Hprom.
      now rewrite playerEqb_refl.
Qed.

Lemma isHandPawn_spec (k : HandPieceType) : isHandPawn k = true <-> k = handPawn.
Proof. destruct k; cbn; split; congruence. Qed.

(** [isLegalDrop] as one conjunction of its six tests. *)
Lemma isLegalDrop_tests (b : Board) (drop : DropAction) (player : Player)
      (hand : Hand) :
  isLegalDrop b drop player hand
  = negb (handCount hand (dropPiece drop) <=? 0)
    && match getPieceAt b (dropTo drop) with None => true | Some _ => false end
    && negb (isDeadPosition (handKind (dropPiece drop)) (dropTo drop) player)
    && negb (isHandPawn (dropPiece drop)
             && ownPawnOnFile b player (snd (positionToIndex (dropTo drop))))
    && negb (isHandPawn (dropPiece drop)
             && isCheckmate (applyDrop b drop player) (opponentOf player) None)
    && negb (isInCheck (applyDrop b drop player) player).
Proof.
  unfold isLegalDrop.
  destruct (handCount hand (dropPiece drop) <=? 0); [reflexivity|].
  destruct (getPieceAt b (dropTo drop)); [reflexivity|].
  destruct (isDeadPosition _ _ _); [reflexivity|].
  destruct (isHandPawn (dropPiece drop)); cbn [andb negb];
    [|reflexivity].
  destruct (ownPawnOnFile _ _ _); [reflexivity|].
  destruct (isCheckmate _ _ _); reflexivity.
Qed.

(** ** Contract violations *)

Lemma handWith_same (hand : Hand) (k : HandPieceType) (n : Z) :
  handCount (handWith hand k n) k = n.
Proof. now destruct k. Qed.

Lemma handWith_other (hand : Hand) (k k' : HandPieceType) (n : Z) :
  k' <> k -> handCount (handWith hand k n) k' = handCount hand k'.
Proof. destruct k, k'; intros H; try reflexivity; now destruct H. Qed.

Lemma promotePiece_canPromote (t : AllPieceType) :
  canPromote t = true -> exists promoted, promotePiece t = inr promoted.
Proof.
  unfold canPromote, promotePiece.
  destruct (PROMOTION_MAP t) as [q|]; [|discriminate]. now exists q.
Qed.

(** C8. [removeFromHand hand kind] throws, returning no hand, whenever the
    count of the kind is at most 0, and otherwise returns the hand with that
    count lowered by one and every other count unchanged; [promotePiece kind]
    throws for every kind without a promoted variant (king, gold and the six
    promoted kinds) and returns the promoted kind for the six others. *)
Theorem contract_violations_throw :
  (forall hand k,
      handCount hand k <= 0 ->
      removeFromHand hand k
      = inl ("Cannot remove " ++ kindName (handKind k)
             ++ " from hand: none available")%string)
  /\ (forall hand k,
        0 < handCount hand k ->
        exists hand',
          removeFromHand hand k = inr hand'
          /\ handCount hand' k = handCount hand k - 1
          /\ forall k', k' <> k -> handCount hand' k' = handCount hand k')
  /\ (forall t,
        t = king \/ t = gold \/ isPromotedPiece t = true ->
        promotePiece t = inl ("Cannot promote " ++ kindName t)%string)
  /\ (forall t,
        t <> king -> t <> gold -> isPromotedPiece t = false ->
        exists promoted,
          promotePiece t = inr promoted
          /\ isPromotedPiece promoted = true
          /\ unpromotePiece promoted = t).
Proof.
  split; [|split; [|split]].
  - intros hand k Hle. unfold removeFromHand.
    apply Z.leb_le in Hle. now rewrite Hle.
  - intros hand k Hlt. unfold removeFromHand.
    apply Z.leb_gt in Hlt. rewrite Hlt. eexists. split; [reflexivity|].
    split; [apply handWith_same | intros k' Hk'; now apply handWith_other].
  - intros t [->|[->|Hp]]; [reflexivity | reflexivity |].
    destruct t; try discriminate; reflexivity.
  - intros t Hk Hg Hp.
    destruct t; try discriminate; try congruence;
      eexists; (split; [reflexivity|]); split; reflexivity.
Qed.

(** ** The checkmate verdict *)

Lemma escapesBy_spec (b : Board) (player : Player) :
  existsb (escapesBy b player) allIndices = true <-> relocationEscapes b player.
Proof.
  unfold relocationEscapes. rewrite existsb_exists. split.
  - intros [[r c] [Hin Hesc]]. apply allIndices_In in Hin.
    cbn [fst snd] in Hin. unfold escapesBy in Hesc. cbn [fst snd] in Hesc.
    destruct (boardAt b r c) as [p|] eqn:Hp; [|discriminate].
    apply andb_true_iff in Hesc as [Ho Hex]. apply playerEqb_eq in Ho.
    apply existsb_exists in Hex as [dst [Hraw Hlegal]].
    apply orb_true_iff in Hlegal as [Hlegal|Hlegal].
    + exists r, c, p, dst, false.
      split; [tauto|]. split; [tauto|]. split; [exact Hp|].
      split; [exact Ho|]. split; [exact Hraw|].
      split; [discriminate | exact Hlegal].
    + apply andb_true_iff in Hlegal as [Hpr Hlegal].
      apply andb_true_iff in Hpr as [Hcan Hnot].
      apply negb_true_iff in Hnot.
      exists r, c, p, dst, true.
      split; [tauto|]. split; [tauto|]. split; [exact Hp|].
      split; [exact Ho|]. split; [exact Hraw|].
      split; [now intros _ | exact Hlegal].
  - intros [r [c [p [dst [prom [Hr [Hc [Hp [Ho [Hraw [Hprom Hlegal]]]]]]]]]]].
    exists (r, c). split; [apply allIndices_In; cbn [fst snd]; lia|].
    unfold escapesBy. cbn [fst snd]. rewrite Hp.
    apply andb_true_iff. split; [now apply playerEqb_eq|].
    apply existsb_exists. exists dst. split; [exact Hraw|].
    destruct prom.
    + destruct Hprom as [Hcan Hnot]; [reflexivity|].
      rewrite Hcan, Hnot, Hlegal. cbn. apply orb_true_r.
    + rewrite Hlegal. reflexivity.
Qed.

Lemma isCheckmate_no_hand (b : Board) (player : Player) :
  isCheckmate b player None = true
  <-> isInCheck b player = true /\ ~ relocationEscapes b player.
Proof.
  rewrite <- escapesBy_spec. unfold isCheckmate.
  destruct (isInCheck b player);
    destruct (existsb (escapesBy b player) allIndices); cbn [negb];
    intuition (try discriminate; try congruence).
Qed.

Lemma checkGameResult_checkmate (state : GameState) (winner : Player) :
  checkGameResult state = checkmate winner
  <-> isCheckmate (board state) (currentPlayer state) None = true
      /\ winner = opponentOf (currentPlayer state).
Proof.
  unfold checkGameResult.
  destruct (isCheckmate (board state) (currentPlayer state) None).
  - split.
    + intros H. injection H as <-. now split.
    + intros [_ ->]. reflexivity.
  - destruct (isStalemate state); [split; [discriminate | intros [? _]; discriminate]|].
    destruct (isPerpeturalCheck state);
      [split; [discriminate | intros [? _]; discriminate]|].
    destruct (isRepetition state);
      split; try discriminate; intros [? _]; discriminate.
Qed.

(** C9. [checkGameResult] gives the checkmate verdict (a win for the
    opponent of the side to move) exactly when the side to move is in check
    and no relocation of a piece on the board escapes it; the hands play no
    part.  On the cornered-king position the side to move holds a gold,
    seven drops of it are legal and [isCheckmate] given that hand answers
    false, yet the verdict is checkmate. *)
Theorem checkmate_verdict_ignores_reserve :
  (forall state winner,
      checkGameResult state = checkmate winner
      <-> isInCheck (board state) (currentPlayer state) = true
          /\ ~ relocationEscapes (board state) (currentPlayer state)
          /\ winner = opponentOf (currentPlayer state))
  /\ (forall state hs,
        checkGameResult state = checkmate (opponentOf (currentPlayer state)) ->
        checkGameResult
          (mkGameState (board state) hs (currentPlayer state)
             (moveHistory state) (positionHistory state) (moveCount state)
             (gamePhase state) (result state) (isCheck state))
        = checkmate (opponentOf (currentPlayer state)))
  /\ (let state := corneredKingState in
      let hand := handOf (hands state) (currentPlayer state) in
      handCount hand handGold = 1
      /\ List.length (getLegalDrops (board state) (currentPlayer state) hand)
         = 7%nat
      /\ isCheckmate (board state) (currentPlayer state) (Some hand) = false
      /\ checkGameResult state = checkmate gote).
Proof.
  split; [|split].
  - intros state winner.
    rewrite checkGameResult_checkmate, isCheckmate_no_hand. tauto.
  - intros state hs H. apply checkGameResult_checkmate in H as [H _].
    apply checkGameResult_checkmate. cbn [board currentPlayer]. now split.
  - vm_compute. repeat split; reflexivity.
Qed.

(** ** The position encoder *)

Lemma fold_left_ext_in {A B : Type} (f g : A -> B -> A) (l : list B) (a : A) :
  (forall acc x, In x l -> f acc x = g acc x) ->
  fold_left f l a = fold_left g l a.
Proof.
  revert a. induction l as [|x l IH]; intros a H; [reflexivity|].
  cbn [fold_left]. rewrite (H a x) by now left.
  apply IH. intros acc y Hy. apply H. now right.
Qed.

Lemma rowToSfen_ext (b1 b2 : Board) (r : Z) :
  sameSquares b1 b2 -> 0 <= r < 9 -> rowToSfen b1 r = rowToSfen b2 r.
Proof.
  intros Hsame Hr. unfold rowToSfen.
  rewrite (fold_left_ext_in
             (fun acc c => sfenSquare acc (boardAt b1 r c))
             (fun acc c => sfenSquare acc (boardAt b2 r c))).
  - reflexivity.
  - intros acc c Hc. apply indices_In in Hc. now rewrite (Hsame r c).
Qed.

Lemma boardToSfen_ext (b1 b2 : Board) :
  sameSquares b1 b2 -> boardToSfen b1 = boardToSfen b2.
Proof.
  intros Hsame. unfold boardToSfen. f_equal.
  apply map_ext_in. intros r Hr. apply indices_In in Hr.
  now apply rowToSfen_ext.
Qed.

Lemma sameSquareb_eq (a b : Square) : sameSquareb a b = true -> a = b.
Proof.
  destruct a as [[t o i]|], b as [[t' o' i']|]; cbn; try discriminate;
    [|reflexivity].
  rewrite !andb_true_iff, pieceTypeEqb_eq, playerEqb_eq, Bool.eqb_true_iff.
  now intros [[-> ->] ->].
Qed.

(** Two boards can be compared by scanning the 81 squares. *)
Lemma sameSquares_by_scan (b1 b2 : Board) :
  forallb (fun rc => sameSquareb (boardAt b1 (fst rc) (snd rc))
                                 (boardAt b2 (fst rc) (snd rc)))
          allIndices = true ->
  sameSquares b1 b2.
Proof.
  intros Hall r c Hr Hc. rewrite forallb_forall in Hall.
  apply sameSquareb_eq, (Hall (r, c)), allIndices_In. cbn [fst snd]. lia.
Qed.

(** The pieces of the encoding: upper case for the first player, lower case
    for the second, [+] before a promoted kind; [-] for two empty hands; a
    count, when above one, before the letter. *)
Example pieceToSfen_cases :
  pieceToSfen (mkPiece rook sente false) = "R"%string
  /\ pieceToSfen (mkPiece rook gote false) = "r"%string
  /\ pieceToSfen (mkPiece promotedPawn sente true) = "+P"%string
  /\ pieceToSfen (mkPiece promotedBishop gote true) = "+b"%string.
Proof. repeat split; reflexivity. Qed.

Lemma handToSfen_none (hand : Hand) (letter : HandPieceType -> string)
      (start : string) :
  (forall k, handCount hand k <= 0) -> handToSfen hand letter start = start.
Proof.
  intros Hnone. unfold handToSfen. generalize handPieces as kinds.
  induction kinds as [|k kinds IH]; cbn [fold_left]; [reflexivity|].
  replace (0 <? handCount hand k) with false; [exact IH|].
  symmetry. apply Z.ltb_ge, Hnone.
Qed.

Lemma handsToSfen_empty (hs : Hands) :
  (forall k, handCount (senteHand hs) k <= 0) ->
  (forall k, handCount (goteHand hs) k <= 0) ->
  handsToSfen hs = "-"%string.
Proof.
  intros Hs Hg. unfold handsToSfen.
  now rewrite (handToSfen_none _ _ _ Hs), (handToSfen_none _ _ _ Hg).
Qed.

Example handsToSfen_counts :
  handsToSfen (mkHands (mkHand 1 0 2 0 0 0 12) (mkHand 0 1 0 0 0 0 3))
  = "R2G12Pb3p"%string.
Proof. vm_compute. reflexivity. Qed.

(** ** Repetition *)

Lemma repetition_count (history : list string) (position : string) (n : Z) :
  fold_left (fun count pos =>
               if String.eqb pos position then count + 1 else count)
            history n
  = n + Z.of_nat (occurrences history position).
Proof.
  revert n. induction history as [|pos history IH]; intros n.
  - cbn. lia.
  - cbn [fold_left]. rewrite IH. unfold occurrences. cbn [count_occ].
    destruct (String.eqb_spec pos position) as [->|Hne].
    + destruct (string_dec position position) as [_|Hne]; [lia | now destruct Hne].
    + destruct (string_dec pos position) as [Heq|_]; [now destruct Hne | lia].
Qed.

Lemma countPositionRepetitions_occurrences (history : list string)
      (position : string) :
  countPositionRepetitions history position
  = Z.of_nat (occurrences history position) + 1.
Proof. unfold countPositionRepetitions. rewrite repetition_count. lia. Qed.

(** Out of check, checkmate and stalemate, the verdict is the draw exactly
    when the history handed to [checkGameResult] already holds the encoding
    of the state three times, and is [ongoing] otherwise. *)
Lemma checkGameResult_quiet (state : GameState) :
  isInCheck (board state) (currentPlayer state) = false ->
  isStalemate state = false ->
  checkGameResult state
  = if (3 <=? occurrences (positionHistory state) (gameStateToSfen state))%nat
    then repetition draw else ongoing.
Proof.
  intros Hcheck Hstale. unfold checkGameResult.
  rewrite (isCheckmate_needs_check _ _ None Hcheck), Hstale.
  unfold isPerpeturalCheck. rewrite Hcheck. cbn [negb].
  unfold isRepetition. rewrite countPositionRepetitions_occurrences.
  destruct (Nat.leb_spec 3 (occurrences (positionHistory state)
                                        (gameStateToSfen state))) as [H|H].
  - replace (4 <=? _) with true; [reflexivity|]. symmetry. apply Z.leb_le. lia.
  - replace (4 <=? _) with false; [reflexivity|]. symmetry. apply Z.leb_gt. lia.
Qed.

(** The caller records the new position before it asks for the verdict:
    the last entry of the history is the encoding of the state judged. *)
Lemma executeMoveWithPromotion_records (gameState next : GameState)
      (src dst : Position) (prom : bool) :
  getPieceAt (board gameState) src <> None ->
  App.executeMoveWithPromotion gameState src dst prom = inr next ->
  positionHistory next = positionHistory gameState ++ [gameStateToSfen next]
  /\ result next
     = checkGameResult
         (mkGameState (board next) (hands next) (currentPlayer next)
            (moveHistory next) (positionHistory next) (moveCount next)
            (gamePhase next) (result gameState) (isCheck next)).
Proof.
  unfold App.executeMoveWithPromotion. intros Hsrc.
  destruct (getPieceAt (board gameState) src) as [p|]; [|now destruct Hsrc].
  destruct (capturedPiece _) as [cap|].
  - destruct (toHandPieceType (type cap)); [discriminate|].
    intros H. injection H as <-. split; reflexivity.
  - intros H. injection H as <-. split; reflexivity.
Qed.

(** C4 (the code at the failing input). Played through the caller from
    the opening position, the king shuffle brings the opening position back
    after four plies and again after eight.  After four plies the position
    has occurred twice and the verdict is [ongoing]; after eight plies it has
    occurred three times, the current one included, the side to move is not
    in check, and the verdict is already the repetition draw. *)
Theorem draw_declared_at_third_occurrence :
  exists s4 s8,
    App.playMoves App.createInitialState kingShuffle = inr s4
    /\ App.playMoves s4 kingShuffle = inr s8
    /\ gameStateToSfen s4 = gameStateToSfen App.createInitialState
    /\ gameStateToSfen s8 = gameStateToSfen App.createInitialState
    /\ occurrences (positionHistory s4) (gameStateToSfen s4) = 2%nat
    /\ result s4 = ongoing
    /\ List.length (positionHistory s8) = 9%nat
    /\ occurrences (positionHistory s8) (gameStateToSfen s8) = 3%nat
    /\ isInCheck (board s8) (currentPlayer s8) = false
    /\ isStalemate s8 = false
    /\ checkGameResult s8 = repetition draw
    /\ result s8 = repetition draw.
Proof.
  destruct (App.playMoves App.createInitialState kingShuffle) as [e|s4] eqn:H4;
    [vm_compute in H4; discriminate|].
  destruct (App.playMoves s4 kingShuffle) as [e|s8] eqn:H8;
    [vm_compute in H4; injection H4 as <-; vm_compute in H8; discriminate|].
  exists s4, s8.
  vm_compute in H4. injection H4 as <-.
  vm_compute in H8. injection H8 as <-.
  split; [reflexivity|]. split; [reflexivity|].
  vm_compute. repeat split; reflexivity.
Qed.

(** ** Sorting with a comparator *)

Section SortBy.
Variable A : Type.
Variable cmp : A -> A -> float.

Lemma insertBy_perm (x : A) (l : list A) : Permutation (insertBy cmp x l) (x :: l).
Proof.
  induction l as [|y l IH]; cbn [insertBy]; [reflexivity|].
  destruct (PrimFloat.ltb 0 (cmp x y)); [|reflexivity].
  rewrite IH. apply perm_swap.
Qed.

Lemma sortBy_perm (l : list A) : Permutation (sortBy cmp l) l.
Proof.
  induction l as [|x l IH]; [reflexivity|].
  unfold sortBy in *. cbn [fold_right].
  rewrite insertBy_perm. now apply perm_skip.
Qed.

Variable key : A -> Z.
Variable P : A -> Prop.
Hypothesis cmp_sign :
  forall x y, P x -> P y -> PrimFloat.ltb 0 (cmp x y) = (key x <? key y).

Lemma insertBy_sorted (x : A) (l : list A) :
  P x -> Forall P l ->
  StronglySorted (fun a b => key b <= key a) l ->
  StronglySorted (fun a b => key b <= key a) (insertBy cmp x l).
Proof.
  intros Hx HP Hs. induction Hs as [|y l Hs IH Hy]; cbn [insertBy].
  - constructor; constructor.
  - inversion HP as [|? ? HPy HPl]; subst.
    rewrite (cmp_sign x y Hx HPy).
    destruct (Z.ltb_spec (key x) (key y)) as [Hlt|Hge].
    + constructor; [now apply IH|].
      rewrite (insertBy_perm x l). constructor; [lia | exact Hy].
    + constructor; [now constructor|].
      constructor; [exact Hge|].
      rewrite Forall_forall in *. intros z Hz. specialize (Hy z Hz). lia.
Qed.

Lemma sortBy_sorted (l : list A) :
  Forall P l -> StronglySorted (fun a b => key b <= key a) (sortBy cmp l).
Proof.
  induction l as [|x l IH]; intros HP; [constructor|].
  inversion HP as [|? ? Hx Hl]; subst.
  unfold sortBy in *. cbn [fold_right].
  apply insertBy_sorted; [exact Hx | | now apply IH].
  rewrite (sortBy_perm l). exact Hl.
Qed.

End SortBy.

(** ** The capture sort is MVV-LVA *)

Lemma allKinds_all (t : AllPieceType) : In t allKinds.
Proof. destruct t; cbn; tauto. Qed.

Lemma capture_key_sign_table :
  forallb (fun c1 => forallb (fun p1 => forallb (fun c2 => forallb (fun p2 =>
     Bool.eqb
       (PrimFloat.ltb 0
          (MultiStageEngine.captureOrder
             (MoveOf (mkMoveAction (mkPosition 0 0) (mkPosition 0 0) p1
                                   (Some c1) false))
             (MoveOf (mkMoveAction (mkPosition 0 0) (mkPosition 0 0) p2
                                   (Some c2) false))))
       (10 * pieceValueZ c1 - pieceValueZ p1
        <? 10 * pieceValueZ c2 - pieceValueZ p2))
     allKinds) allKinds) allKinds) allKinds = true.
Proof. vm_compute. reflexivity. Qed.

Lemma captureOrder_sign (x y : Move) :
  isCapture x = true -> isCapture y = true ->
  PrimFloat.ltb 0 (MultiStageEngine.captureOrder x y) = (mvvLva x <? mvvLva y).
Proof.
  destruct x as [[xs xd xp [xc|] xq]|]; try discriminate.
  destruct y as [[ys yd yp [yc|] yq]|]; try discriminate.
  intros _ _.
  pose proof capture_key_sign_table as T.
  rewrite forallb_forall in T. specialize (T xc (allKinds_all xc)).
  rewrite forallb_forall in T. specialize (T xp (allKinds_all xp)).
  rewrite forallb_forall in T. specialize (T yc (allKinds_all yc)).
  rewrite forallb_forall in T. specialize (T yp (allKinds_all yp)).
  apply Bool.eqb_prop in T. exact T.
Qed.

Lemma explored_captures (state : GameState) :
  let explored :=
    sortBy MultiStageEngine.captureOrder
           (filter isCapture (getAllLegalMoves state)) in
  Permutation explored (filter isCapture (getAllLegalMoves state))
  /\ Forall (fun mv => isCapture mv = true /\ In mv (getAllLegalMoves state))
            explored
  /\ StronglySorted (fun a b => mvvLva b <= mvvLva a) explored.
Proof.
  intros explored. split; [apply sortBy_perm|]. split.
  - apply Forall_forall. intros mv Hmv.
    apply (Permutation_in _ (sortBy_perm _ _ _)) in Hmv.
    apply filter_In in Hmv. tauto.
  - apply (sortBy_sorted _ _ _ (fun mv => isCapture mv = true)).
    + intros x y. apply captureOrder_sign.
    + apply Forall_forall. intros mv Hmv. now apply filter_In in Hmv.
Qed.

(** ** Quiescence at depth zero *)

Lemma below_cap (depth : nat) :
  (depth < MultiStageEngine.MAX_QUIESCENCE_DEPTH)%nat ->
  exists k,
    (MultiStageEngine.MAX_QUIESCENCE_DEPTH - depth = S k)%nat
    /\ (MultiStageEngine.MAX_QUIESCENCE_DEPTH - S depth = k)%nat.
Proof.
  unfold MultiStageEngine.MAX_QUIESCENCE_DEPTH. intros H.
  exists (5 - depth)%nat. lia.
Qed.

Lemma quiescenceSearch_at_cap (state : GameState) (alpha beta : float)
      (maximizing : bool) (count : Z) (depth : nat) :
  (MultiStageEngine.MAX_QUIESCENCE_DEPTH <= depth)%nat ->
  MultiStageEngine.quiescenceSearch state alpha beta maximizing count depth
  = inr (Evaluation.quickEvaluate state, count + 1).
Proof.
  intros H. unfold MultiStageEngine.quiescenceSearch.
  replace (MultiStageEngine.MAX_QUIESCENCE_DEPTH - depth)%nat with 0%nat
    by lia.
  reflexivity.
Qed.

Lemma quiescenceSearch_fail_high (state : GameState) (alpha beta : float)
      (count : Z) (depth : nat) :
  (depth < MultiStageEngine.MAX_QUIESCENCE_DEPTH)%nat ->
  PrimFloat.leb beta (Evaluation.quickEvaluate state) = true ->
  MultiStageEngine.quiescenceSearch state alpha beta true count depth
  = inr (beta, count + 1).
Proof.
  intros Hd Hcut. destruct (below_cap depth Hd) as [k [Hk _]].
  unfold MultiStageEngine.quiescenceSearch. rewrite Hk.
  cbn [MultiStageEngine.quiescenceWalk andb]. now rewrite Hcut.
Qed.

Lemma quiescenceSearch_fail_low (state : GameState) (alpha beta : float)
      (count : Z) (depth : nat) :
  (depth < MultiStageEngine.MAX_QUIESCENCE_DEPTH)%nat ->
  PrimFloat.leb (Evaluation.quickEvaluate state) alpha = true ->
  MultiStageEngine.quiescenceSearch state alpha beta false count depth
  = inr (alpha, count + 1).
Proof.
  intros Hd Hcut. destruct (below_cap depth Hd) as [k [Hk _]].
  unfold MultiStageEngine.quiescenceSearch. rewrite Hk.
  cbn [MultiStageEngine.quiescenceWalk andb negb]. now rewrite Hcut.
Qed.

(** Below the cap and inside the window, the search stands pat when no
    capture is legal and otherwise runs the capture loop on the sorted
    captures, with the side that moved the window to the stand-pat score. *)
Lemma quiescenceSearch_inside (state : GameState) (alpha beta : float)
      (maximizing : bool) (count : Z) (depth : nat) :
  (depth < MultiStageEngine.MAX_QUIESCENCE_DEPTH)%nat ->
  let standPat := Evaluation.quickEvaluate state in
  maximizing && PrimFloat.leb beta standPat = false ->
  negb maximizing && PrimFloat.leb standPat alpha = false ->
  MultiStageEngine.quiescenceSearch state alpha beta maximizing count depth
  = match filter isCapture (getAllLegalMoves state) with
    | [] => inr (standPat, count + 1)
    | _ :: _ =>
        MultiStageEngine.captureLoop
          (fun newState a b c =>
             MultiStageEngine.quiescenceSearch newState a b (negb maximizing)
                                               c (S depth))
          state maximizing standPat
          (sortBy MultiStageEngine.captureOrder
                  (filter isCapture (getAllLegalMoves state)))
          (if maximizing && PrimFloat.ltb alpha standPat then standPat
           else alpha)
          (if negb maximizing && PrimFloat.ltb standPat beta then standPat
           else beta)
          (count + 1)
    end.
Proof.
  intros Hd standPat Hhigh Hlow.
  destruct (below_cap depth Hd) as [k [Hk HSk]].
  unfold MultiStageEngine.quiescenceSearch. rewrite Hk, HSk.
  cbn [MultiStageEngine.quiescenceWalk]. fold standPat.
  rewrite Hhigh, Hlow. reflexivity.
Qed.

Lemma captureLoop_pruned
      (recurse : GameState -> float -> float -> Z -> Thrown (float * Z))
      (state : GameState) (maximizing : bool) (standPat : float)
      (ms : list Move) (alpha beta : float) (count : Z) :
  Forall (fun mv =>
            MultiStageEngine.deltaPruned maximizing standPat alpha beta mv
            = true) ms ->
  MultiStageEngine.captureLoop recurse state maximizing standPat ms alpha beta
                               count
  = inr (if maximizing then alpha else beta, count).
Proof.
  induction 1 as [|mv ms Hmv _ IH]; cbn [MultiStageEngine.captureLoop];
    [reflexivity|].
  now rewrite Hmv.
Qed.

Lemma deltaPruned_spec (maximizing : bool) (standPat alpha beta : float)
      (m : MoveAction) (victim : AllPieceType) :
  captured m = Some victim ->
  MultiStageEngine.deltaPruned maximizing standPat alpha beta (MoveOf m)
  = if maximizing
    then PrimFloat.ltb
           (PrimFloat.add
              (PrimFloat.add standPat (Evaluation.PIECE_VALUES victim))
              200%float) alpha
    else PrimFloat.ltb beta
           (PrimFloat.sub
              (PrimFloat.sub standPat (Evaluation.PIECE_VALUES victim))
              200%float).
Proof.
  intros Hc. unfold MultiStageEngine.deltaPruned. rewrite Hc.
  unfold MultiStageEngine.DELTA_MARGIN.
  destruct maximizing; cbn [andb negb]; [|reflexivity].
  now destruct (PrimFloat.ltb _ alpha).
Qed.

(** C7 (as stated, refuted). On the hanging-gold position a capture is
    legal; the depth-zero node of ai/intermediate answers the raw static
    evaluation of the position, which is not what [quiescenceSearch] answers
    there (it follows the capture).  And on the opening position, where no
    capture is legal, [quiescenceSearch] with the window closed above at
    -100 answers -100, not the stand-pat score 0. *)
Lemma depth_zero_not_always_quiescent :
  (let s := hangingGoldState in
   filter isCapture (getAllLegalMoves s) <> []
   /\ Intermediate.minimax s 0 PrimFloat.neg_infinity PrimFloat.infinity true 0
      = inr (Intermediate.mkSearchResult
               (Intermediate.evaluateBoardAdvanced s) None 1)
   /\ MultiStageEngine.quiescenceSearch s PrimFloat.neg_infinity
                                        PrimFloat.infinity true 1 0
      = inr (1150%float, 3)
   /\ Intermediate.evaluateBoardAdvanced s <> 1150%float)
  /\ (let s := createInitialGameState in
      filter isCapture (getAllLegalMoves s) = []
      /\ Evaluation.quickEvaluate s = 0%float
      /\ MultiStageEngine.minimax s 0 PrimFloat.neg_infinity (-100)%float
                                  true 0
         = inr (MultiStageEngine.mkMinimaxResult (-100)%float None 2)).
Proof.
  split.
  - cbv zeta. split; [vm_compute; discriminate|].
    split; [reflexivity|]. split; [vm_compute; reflexivity|].
    intros H.
    assert (PrimFloat.ltb
              (Intermediate.evaluateBoardAdvanced hangingGoldState)
              1150%float
            = PrimFloat.ltb 1150%float 1150%float) as Habs
        by (now rewrite H).
    vm_compute in Habs. discriminate.
  - cbv zeta. split; [vm_compute; reflexivity|].
    split; vm_compute; reflexivity.
Qed.

(** C7 (amended). In ai/multiStageEngine, whose [minimax] runs the
    depth-2, 3 and 4 searches, the depth-zero node answers what
    [quiescenceSearch] answers.  That search answers the static score
    [quickEvaluate] once 6 quiescence plies are reached.  Below that cap it
    answers beta for the maximizer when the stand-pat score is at least beta
    and alpha for the minimizer when it is at most alpha; otherwise it stands
    pat when no capture is legal, and else runs its loop over the legal
    captures only, in descending MVV-LVA order, one ply deeper with the side
    flipped; a capture whose victim's value plus the margin 200 cannot bring
    the stand-pat score back to the bound is skipped, and when all are
    skipped the bound is answered.  In ai/intermediate, whose [minimax] runs
    the depth-2 and 3 searches, the depth-zero node answers the static
    evaluation [evaluateBoardAdvanced], with no quiescence search. *)
Theorem depth_zero_quiescence :
  (forall state alpha beta maximizing count,
      MultiStageEngine.minimax state 0 alpha beta maximizing count
      = match MultiStageEngine.quiescenceSearch state alpha beta maximizing
                                                (count + 1) 0 with
        | inl e => inl e
        | inr (sc, n) => inr (MultiStageEngine.mkMinimaxResult sc None n)
        end)
  /\ (forall state alpha beta maximizing count depth,
        (6 <= depth)%nat ->
        MultiStageEngine.quiescenceSearch state alpha beta maximizing count
                                          depth
        = inr (Evaluation.quickEvaluate state, count + 1))
  /\ (forall state alpha beta count depth,
        (depth < 6)%nat ->
        (PrimFloat.leb beta (Evaluation.quickEvaluate state) = true ->
         MultiStageEngine.quiescenceSearch state alpha beta true count depth
         = inr (beta, count + 1))
        /\ (PrimFloat.leb (Evaluation.quickEvaluate state) alpha = true ->
            MultiStageEngine.quiescenceSearch state alpha beta false count
                                              depth
            = inr (alpha, count + 1)))
  /\ (forall state alpha beta maximizing count depth,
        (depth < 6)%nat ->
        let standPat := Evaluation.quickEvaluate state in
        maximizing && PrimFloat.leb beta standPat = false ->
        negb maximizing && PrimFloat.leb standPat alpha = false ->
        let explored :=
          sortBy MultiStageEngine.captureOrder
                 (filter isCapture (getAllLegalMoves state)) in
        let alpha' :=
          if maximizing && PrimFloat.ltb alpha standPat then standPat
          else alpha in
        let beta' :=
          if negb maximizing && PrimFloat.ltb standPat beta then standPat
          else beta in
        (filter isCapture (getAllLegalMoves state) = [] ->
         MultiStageEngine.quiescenceSearch state alpha beta maximizing count
                                           depth
         = inr (standPat, count + 1))
        /\ (filter isCapture (getAllLegalMoves state) <> [] ->
            MultiStageEngine.quiescenceSearch state alpha beta maximizing
                                              count depth
            = MultiStageEngine.captureLoop
                (fun newState a b c =>
                   MultiStageEngine.quiescenceSearch
                     newState a b (negb maximizing) c (S depth))
                state maximizing standPat explored alpha' beta' (count + 1))
        /\ Permutation explored (filter isCapture (getAllLegalMoves state))
        /\ StronglySorted (fun a b => mvvLva b <= mvvLva a) explored
        /\ (Forall (fun mv =>
                      MultiStageEngine.deltaPruned maximizing standPat alpha'
                                                   beta' mv = true)
                   explored ->
            filter isCapture (getAllLegalMoves state) <> [] ->
            MultiStageEngine.quiescenceSearch state alpha beta maximizing
                                              count depth
            = inr (if maximizing then alpha' else beta', count + 1)))
  /\ (forall maximizing standPat alpha beta m victim,
        captured m = Some victim ->
        MultiStageEngine.deltaPruned maximizing standPat alpha beta (MoveOf m)
        = if maximizing
          then PrimFloat.ltb
                 (PrimFloat.add
                    (PrimFloat.add standPat (Evaluation.PIECE_VALUES victim))
                    200%float) alpha
          else PrimFloat.ltb beta
                 (PrimFloat.sub
                    (PrimFloat.sub standPat (Evaluation.PIECE_VALUES victim))
                    200%float))
  /\ (forall state alpha beta maximizing count,
        Intermediate.minimax state 0 alpha beta maximizing count
        = inr (Intermediate.mkSearchResult
                 (Intermediate.evaluateBoardAdvanced state) None (count + 1))).
Proof.
  split; [reflexivity|].
  split; [intros; now apply quiescenceSearch_at_cap|].
  split.
  { intros state alpha beta count depth Hd. split; intros Hcut.
    - now apply quiescenceSearch_fail_high.
    - now apply quiescenceSearch_fail_low. }
  split.
  { intros state alpha beta maximizing count depth Hd standPat Hhigh Hlow
           explored alpha' beta'.
    pose proof (quiescenceSearch_inside state alpha beta maximizing count depth
                                        Hd Hhigh Hlow) as Heq.
    fold standPat in Heq.
    destruct (explored_captures state) as [Hperm [_ Hsorted]].
    split; [intros Hnone; now rewrite Heq, Hnone|].
    assert (filter isCapture (getAllLegalMoves state) <> [] ->
            MultiStageEngine.quiescenceSearch state alpha beta maximizing
                                              count depth
            = MultiStageEngine.captureLoop
                (fun newState a b c =>
                   MultiStageEngine.quiescenceSearch
                     newState a b (negb maximizing) c (S depth))
                state maximizing standPat explored alpha' beta' (count + 1))
      as Hloop.
    { intros Hsome. rewrite Heq. unfold explored, alpha', beta'.
      destruct (filter isCapture (getAllLegalMoves state));
        [now destruct Hsome | reflexivity]. }
    split; [exact Hloop|]. split; [exact Hperm|]. split; [exact Hsorted|].
    intros Hpruned Hsome. rewrite (Hloop Hsome).
    now apply captureLoop_pruned. }
  split; [intros; now apply deltaPruned_spec | reflexivity].
Qed.

(** With the window raised to 1000 on the hanging-gold position both
    captures are delta-pruned and the bound is answered; on the opening
    position no capture is legal and the search stands pat. *)
Lemma depth_zero_quiescence_witness :
  MultiStageEngine.quiescenceSearch hangingGoldState 1000%float
                                    PrimFloat.infinity true 0 0
  = inr (1000%float, 1)
  /\ MultiStageEngine.quiescenceSearch createInitialGameState
                                       PrimFloat.neg_infinity
                                       PrimFloat.infinity true 0 0
     = inr (0%float, 1).
Proof.
  destruct depth_zero_quiescence as [_ [_ [_ [Hinside _]]]].
  split.
  - destruct (Hinside hangingGoldState 1000%float PrimFloat.infinity true 0
                      0%nat)
      as [_ [_ [_ [_ Hpruned]]]]; [lia | reflexivity | reflexivity |].
    rewrite Hpruned; [reflexivity | | vm_compute; discriminate].
    vm_compute. repeat constructor.
  - destruct (Hinside createInitialGameState PrimFloat.neg_infinity
                      PrimFloat.infinity true 0 0%nat)
      as [Hnone _]; [lia | reflexivity | reflexivity |].
    rewrite Hnone; [|vm_compute; reflexivity].
    vm_compute. reflexivity.
Defined.

(* ================================================================== *)
(** * Further properties of the sources *)

(** ** Coordinates and squares *)

(** X1. [positionToIndex] and [indexToPosition] are inverse to each other,
    and they exchange the squares 1..9 x 1..9 with the indices 0..8 x 0..8
    (file 1 is column index 8, rank 1 is row index 0). *)
Theorem position_index_round_trip :
  (forall pos,
      indexToPosition (fst (positionToIndex pos)) (snd (positionToIndex pos))
      = pos)
  /\ (forall rowIndex colIndex,
        positionToIndex (indexToPosition rowIndex colIndex)
        = (rowIndex, colIndex))
  /\ (forall pos,
        onBoard pos
        <-> 0 <= fst (positionToIndex pos) < 9
            /\ 0 <= snd (positionToIndex pos) < 9)
  /\ (forall pos, isValidPosition (col pos) (row pos) = true <-> onBoard pos).
Proof.
  unfold positionToIndex, indexToPosition, onBoard, isValidPosition.
  split; [|split; [|split]].
  - intros [c r]. cbn [fst snd col row]. f_equal; lia.
  - intros r c. cbn [col row]. f_equal; lia.
  - intros pos. cbn [fst snd]. lia.
  - intros pos. rewrite !andb_true_iff, !Z.leb_le. lia.
Qed.

Lemma map_same {A : Type} (l : list A) : map (fun x : A => x) l = l.
Proof. apply map_id. Qed.

(** X2. On a board of nine rows of nine squares, [setPieceAt] followed by
    [getPieceAt] on the same square of the board reads back what was put,
    every other square of the board reads as before, and the board keeps its
    shape. *)
Theorem setPieceAt_getPieceAt (b : Board) (pos : Position) (sq : Square)
        (Hshape : wellShaped b) (Hpos : onBoard pos) :
  getPieceAt (setPieceAt b pos sq) pos = sq
  /\ (forall other, onBoard other -> other <> pos ->
                    getPieceAt (setPieceAt b pos sq) other = getPieceAt b other)
  /\ wellShaped (setPieceAt b pos sq).
Proof.
  unfold setPieceAt, positionToIndex. rewrite map_same.
  split; [now apply getPieceAt_boardPut_same|]. split.
  - intros other Ho Hne. now apply getPieceAt_boardPut_other.
  - now apply boardPut_wellShaped.
Qed.

Lemma wellShaped_by_scan (b : Board) :
  (List.length b =? 9)%nat
  && forallb (fun r => (List.length r =? 9)%nat) b = true ->
  wellShaped b.
Proof.
  rewrite andb_true_iff, Nat.eqb_eq, forallb_forall. intros [Hl Hr].
  split; [exact Hl|]. apply Forall_forall. intros r Hin.
  apply Nat.eqb_eq. now apply Hr.
Qed.

Lemma setPieceAt_getPieceAt_witness :
  let b := setPieceAt createInitialBoard (mkPosition 5 5)
                      (Some (createPiece gold sente)) in
  getPieceAt b (mkPosition 5 5) = Some (createPiece gold sente)
  /\ getPieceAt b (mkPosition 5 9) = Some (createPiece king sente).
Proof.
  intros b.
  assert (wellShaped createInitialBoard) as Hshape
      by (apply wellShaped_by_scan; reflexivity).
  assert (onBoard (mkPosition 5 5)) as Hpos by (unfold onBoard; cbn; lia).
  destruct (setPieceAt_getPieceAt createInitialBoard (mkPosition 5 5)
              (Some (createPiece gold sente)) Hshape Hpos) as [Hsame [Hother _]].
  split; [exact Hsame|].
  unfold b. rewrite Hother; [reflexivity | unfold onBoard; cbn; lia |].
  intros H. discriminate H.
Defined.

(** ** Hands *)

Lemma handWith_restore (hand : Hand) (k : HandPieceType) (n : Z) :
  handWith (handWith hand k n) k (handCount hand k) = hand.
Proof. destruct hand, k; reflexivity. Qed.

(** X3. Taking from a hand a piece just added gives back the hand, provided
    the count was not negative; and adding back a piece just taken gives
    back the hand.  [addToHand] raises the count of its kind by one and
    leaves the other counts. *)
Theorem hand_add_remove_round_trip :
  (forall hand k,
      0 <= handCount hand k ->
      removeFromHand (addToHand hand k) k = inr hand)
  /\ (forall hand k hand',
        removeFromHand hand k = inr hand' -> addToHand hand' k = hand)
  /\ (forall hand k,
        handCount (addToHand hand k) k = handCount hand k + 1
        /\ forall k', k' <> k ->
                      handCount (addToHand hand k) k' = handCount hand k').
Proof.
  split; [|split].
  - intros hand k Hk. unfold removeFromHand, addToHand.
    rewrite handWith_same.
    replace (handCount hand k + 1 <=? 0) with false
      by (symmetry; apply Z.leb_gt; lia).
    f_equal. replace (handCount hand k + 1 - 1) with (handCount hand k) by lia.
    apply handWith_restore.
  - intros hand k hand'. unfold removeFromHand, addToHand.
    destruct (handCount hand k <=? 0); [discriminate|].
    intros H. injection H as <-. rewrite handWith_same.
    replace (handCount hand k - 1 + 1) with (handCount hand k) by lia.
    apply handWith_restore.
  - intros hand k. unfold addToHand. split; [apply handWith_same|].
    intros k' Hne. now apply handWith_other.
Qed.

Lemma handPieces_all (k : HandPieceType) : In k handPieces.
Proof. destruct k; cbn; tauto. Qed.

Lemma handPieces_NoDup : NoDup handPieces.
Proof.
  unfold handPieces.
  repeat (constructor; [cbn; intros H; repeat destruct H as [H|H];
                        try discriminate H; exact H|]).
  constructor.
Qed.

(** X4. [getHandPieces] lists exactly the kinds held at least once, each
    once, and nothing for a hand with no kind held. *)
Theorem getHandPieces_spec (hand : Hand) :
  (forall k, In k (getHandPieces hand) <-> 0 < handCount hand k)
  /\ NoDup (getHandPieces hand)
  /\ ((forall k, handCount hand k <= 0) -> getHandPieces hand = []).
Proof.
  unfold getHandPieces. split; [|split].
  - intros k. rewrite filter_In, Z.ltb_lt.
    split; [tauto | intros H; split; [apply handPieces_all | exact H]].
  - apply NoDup_filter, handPieces_NoDup.
  - intros Hnone.
    destruct (filter _ handPieces) as [|k l] eqn:Hf; [reflexivity|].
    assert (In k (filter (fun k => 0 <? handCount hand k) handPieces)) as Hin
        by (rewrite Hf; now left).
    apply filter_In in Hin as [_ Hk]. apply Z.ltb_lt in Hk.
    specialize (Hnone k). lia.
Qed.

(** ** Promotion and reserve kinds *)

(** X5. No kind is both promotable and promoted; [unpromotePiece] undoes
    [promotePiece], is idempotent and never yields a promoted kind;
    [toHandPieceType] throws exactly for the king and otherwise yields the
    reserve kind of the unpromoted piece, so a reserve kind is mapped to
    itself. *)
Theorem promotion_kinds :
  (forall t, canPromote t = true -> isPromotedPiece t = false)
  /\ (forall t promoted,
        promotePiece t = inr promoted ->
        unpromotePiece promoted = t /\ isPromotedPiece promoted = true
        /\ canPromote promoted = false)
  /\ (forall t,
        unpromotePiece (unpromotePiece t) = unpromotePiece t
        /\ isPromotedPiece (unpromotePiece t) = false)
  /\ (forall t,
        (exists msg, toHandPieceType t = inl msg) <-> t = king)
  /\ (forall t k,
        toHandPieceType t = inr k -> handKind k = unpromotePiece t)
  /\ (forall k, toHandPieceType (handKind k) = inr k).
Proof.
  split; [|split; [|split; [|split; [|split]]]].
  - intros t. destruct t; cbn; congruence.
  - intros t promoted. destruct t; cbn; intros H; try discriminate;
      injection H as <-; repeat split; reflexivity.
  - intros t. destruct t; split; reflexivity.
  - intros t. split.
    + intros [msg H]. destruct t; try reflexivity; discriminate.
    + intros ->. eexists. reflexivity.
  - intros t k. destruct t; cbn; intros H; try discriminate;
      injection H as <-; reflexivity.
  - intros k. destruct k; reflexivity.
Qed.

(** ** The undo history *)

Lemma removelast_last_restore {A : Type} (l : list A) (d : A) :
  l <> [] -> removelast l ++ [last l d] = l.
Proof. intros H. symmetry. now apply app_removelast_last. Qed.

(** X6. In the undo history, [undo], [undoTwice], [redo] never lose or
    reorder a state: the sequence past, present, future stays the same.
    [redo] after [undo] restores the history whenever there is a past, and
    [undo] after [redo] whenever there is a future; [undo] after
    [setGameState] shows the state that was present before. *)
Theorem history_undo_redo (h : GameHistory.GameHistoryState) :
  GameHistory.timeline (GameHistory.undo h) = GameHistory.timeline h
  /\ GameHistory.timeline (GameHistory.undoTwice h) = GameHistory.timeline h
  /\ GameHistory.timeline (GameHistory.redo h) = GameHistory.timeline h
  /\ (GameHistory.past h <> [] ->
      GameHistory.redo (GameHistory.undo h) = h)
  /\ (GameHistory.future h <> [] ->
      GameHistory.undo (GameHistory.redo h) = h)
  /\ (forall newState,
        GameHistory.past (GameHistory.undo (GameHistory.setGameState h newState))
        = GameHistory.past h
        /\ GameHistory.present
             (GameHistory.undo (GameHistory.setGameState h newState))
           = GameHistory.present h
        /\ GameHistory.future
             (GameHistory.undo (GameHistory.setGameState h newState))
           = [newState]).
Proof.
  destruct h as [pa pr fu].
  unfold GameHistory.timeline, GameHistory.undo, GameHistory.undoTwice,
    GameHistory.redo, GameHistory.setGameState.
  cbn [GameHistory.past GameHistory.present GameHistory.future].
  split; [|split; [|split; [|split; [|split]]]].
  - destruct pa as [|x pa]; [reflexivity|].
    cbn [GameHistory.past GameHistory.present GameHistory.future].
    rewrite <- (removelast_last_restore (x :: pa) pr) at 3 by discriminate.
    now rewrite <- app_assoc.
  - destruct (Nat.ltb_spec (List.length pa) 2) as [Hlt|Hge]; [reflexivity|].
    cbn [GameHistory.past GameHistory.present GameHistory.future].
    assert (pa <> []) as Hpa by (destruct pa; [cbn in Hge; lia | discriminate]).
    assert (removelast pa <> []) as Hpa'.
    { destruct pa as [|x [|y pa]]; cbn in Hge; try lia.
      cbn [removelast]. discriminate. }
    rewrite <- (removelast_last_restore pa pr Hpa) at 4.
    rewrite <- (removelast_last_restore (removelast pa) pr Hpa') at 3.
    now rewrite <- !app_assoc.
  - destruct fu as [|x fu]; [reflexivity|].
    cbn [GameHistory.past GameHistory.present GameHistory.future].
    now rewrite <- app_assoc.
  - intros Hpa. destruct pa as [|x pa]; [now destruct Hpa|].
    cbn [GameHistory.past GameHistory.present GameHistory.future].
    now rewrite (removelast_last_restore (x :: pa) pr) by discriminate.
  - intros Hfu. destruct fu as [|x fu]; [now destruct Hfu|].
    cbn [GameHistory.past GameHistory.present GameHistory.future].
    destruct (pa ++ [pr]) as [|y l] eqn:Hl;
      [now destruct pa; discriminate Hl|].
    rewrite <- Hl. now rewrite removelast_last, last_last.
  - intros newState.
    destruct (pa ++ [pr]) as [|y l] eqn:Hl;
      [now destruct pa; discriminate Hl|].
    cbn [GameHistory.past GameHistory.present GameHistory.future].
    rewrite <- Hl. now rewrite removelast_last, last_last.
Qed.

(** X7. [undoTwice] is two [undo]s when at least two states lie in the
    past, and does nothing otherwise: with a single past state it does not
    step back at all, where one [undo] would. *)
Theorem undoTwice_is_two_undos (h : GameHistory.GameHistoryState) :
  (GameHistory.canUndoTwice h = true ->
   GameHistory.undoTwice h = GameHistory.undo (GameHistory.undo h))
  /\ (GameHistory.canUndoTwice h = false -> GameHistory.undoTwice h = h)
  /\ (List.length (GameHistory.past h) = 1%nat ->
      GameHistory.undoTwice h = h /\ GameHistory.undo h <> h).
Proof.
  destruct h as [pa pr fu].
  unfold GameHistory.canUndoTwice, GameHistory.undoTwice, GameHistory.undo.
  cbn [GameHistory.past GameHistory.present GameHistory.future].
  split; [|split].
  - intros Hge. apply Nat.leb_le in Hge.
    replace (List.length pa <? 2)%nat with false
      by (symmetry; apply Nat.ltb_ge; exact Hge).
    destruct pa as [|x [|y pa]]; cbn in Hge; try lia.
    cbn [GameHistory.past GameHistory.present GameHistory.future].
    destruct (removelast (x :: y :: pa)) as [|z l] eqn:Hl;
      [cbn in Hl; discriminate Hl|].
    cbn [GameHistory.past GameHistory.present GameHistory.future].
    f_equal.
    destruct l as [|w l]; [reflexivity|].
    assert (forall (d d' : GameState) (m : list GameState),
               m <> [] -> last m d = last m d') as Hlast.
    { intros d d' m. induction m as [|a [|b m] IH]; intros Hm;
        [now destruct Hm | reflexivity |].
      cbn [last] in *. apply IH. discriminate. }
    apply Hlast. discriminate.
  - intros Hlt. apply Nat.leb_gt in Hlt.
    now replace (List.length pa <? 2)%nat with true
      by (symmetry; apply Nat.ltb_lt; exact Hlt).
  - intros Hone. destruct pa as [|x [|y pa]]; try discriminate Hone.
    cbn. split; [reflexivity|]. intros H. discriminate H.
Qed.

(** ** The raw move generator *)

Lemma isValidPosition_onBoard (c r : Z) :
  isValidPosition c r = true <-> onBoard (mkPosition c r).
Proof.
  unfold isValidPosition, onBoard. cbn [col row].
  rewrite !andb_true_iff, !Z.leb_le. lia.
Qed.

Lemma slideWalk_In (b : Board) (o : Player) (d : Direction) (fuel : nat) :
  forall c r dst,
    In dst (slideWalk fuel b o d c r) ->
    exists k : nat,
      dst = mkPosition (c + Z.of_nat k * dcol d) (r + Z.of_nat k * drow d)
      /\ onBoard dst
      /\ (forall tp, getPieceAt b dst = Some tp -> owner tp <> o)
      /\ forall j : nat,
          (j < k)%nat ->
          onBoard (mkPosition (c + Z.of_nat j * dcol d)
                              (r + Z.of_nat j * drow d))
          /\ getPieceAt b (mkPosition (c + Z.of_nat j * dcol d)
                                      (r + Z.of_nat j * drow d)) = None.
Proof.
  induction fuel as [|fuel IH]; intros c r dst Hin; [destruct Hin|].
  cbn [slideWalk] in Hin.
  destruct (isValidPosition c r) eqn:Hv; [|destruct Hin].
  apply isValidPosition_onBoard in Hv.
  assert (mkPosition (c + Z.of_nat 0 * dcol d) (r + Z.of_nat 0 * drow d)
          = mkPosition c r) as H0 by (f_equal; lia).
  destruct (getPieceAt b (mkPosition c r)) as [tp|] eqn:Hp.
  - destruct (playerEqb (owner tp) o) eqn:Ho; [destruct Hin|].
    destruct Hin as [<-|[]]. exists 0%nat. rewrite H0.
    split; [reflexivity|]. split; [exact Hv|]. split; [|intros j Hj; lia].
    intros tp' Htp'. rewrite Hp in Htp'. injection Htp' as <-.
    intros Heq. apply playerEqb_eq in Heq. congruence.
  - destruct Hin as [<-|Hin].
    + exists 0%nat. rewrite H0.
      split; [reflexivity|]. split; [exact Hv|]. split; [|intros j Hj; lia].
      intros tp' Htp'. rewrite Hp in Htp'. discriminate.
    + destruct (IH _ _ _ Hin) as [k [Hdst [Hon [Hown Hway]]]].
      exists (S k).
      assert (forall n : nat,
                 mkPosition (c + dcol d + Z.of_nat n * dcol d)
                            (r + drow d + Z.of_nat n * drow d)
                 = mkPosition (c + Z.of_nat (S n) * dcol d)
                              (r + Z.of_nat (S n) * drow d)) as Hshift
          by (intros n; f_equal; lia).
      rewrite Hshift in Hdst.
      split; [exact Hdst|]. split; [exact Hon|]. split; [exact Hown|].
      intros [|j] Hj.
      * rewrite H0. now split.
      * rewrite <- Hshift. apply Hway. lia.
Qed.

Lemma slideWalk_reach (b : Board) (o : Player) (d : Direction) (k : nat) :
  forall fuel c r,
    (k < fuel)%nat ->
    (forall j : nat,
        (j < k)%nat ->
        onBoard (mkPosition (c + Z.of_nat j * dcol d)
                            (r + Z.of_nat j * drow d))
        /\ getPieceAt b (mkPosition (c + Z.of_nat j * dcol d)
                                    (r + Z.of_nat j * drow d)) = None) ->
    let dst := mkPosition (c + Z.of_nat k * dcol d)
                          (r + Z.of_nat k * drow d) in
    onBoard dst ->
    (forall tp, getPieceAt b dst = Some tp -> owner tp <> o) ->
    In dst (slideWalk fuel b o d c r).
Proof.
  induction k as [|k IH]; intros fuel c r Hfuel Hway dst Hon Hown;
    (destruct fuel as [|fuel]; [lia|]); cbn [slideWalk].
  - assert (dst = mkPosition c r) as Hd by (unfold dst; f_equal; lia).
    rewrite Hd in Hon, Hown.
    rewrite (proj2 (isValidPosition_onBoard c r) Hon).
    destruct (getPieceAt b (mkPosition c r)) as [tp|] eqn:Hp.
    + destruct (playerEqb (owner tp) o) eqn:Ho.
      * apply playerEqb_eq in Ho. now destruct (Hown tp eq_refl).
      * rewrite Hd. now left.
    + rewrite Hd. now left.
  - assert (mkPosition (c + Z.of_nat 0 * dcol d) (r + Z.of_nat 0 * drow d)
            = mkPosition c r) as H0 by (f_equal; lia).
    destruct (Hway 0%nat) as [Hon0 Hp0]; [lia|]. rewrite H0 in Hon0, Hp0.
    rewrite (proj2 (isValidPosition_onBoard c r) Hon0), Hp0. right.
    assert (forall n : nat,
               mkPosition (c + dcol d + Z.of_nat n * dcol d)
                          (r + drow d + Z.of_nat n * drow d)
               = mkPosition (c + Z.of_nat (S n) * dcol d)
                            (r + Z.of_nat (S n) * drow d)) as Hshift
        by (intros n; f_equal; lia).
    unfold dst. rewrite <- Hshift. apply IH; [lia | | |].
    + intros j Hj. rewrite Hshift. apply Hway. lia.
    + rewrite Hshift. exact Hon.
    + rewrite Hshift. exact Hown.
Qed.

Lemma squaresAhead_after (d : Direction) (c r : Z) (k : nat) :
  unitStep d ->
  squaresAhead d (c + Z.of_nat k * dcol d) (r + Z.of_nat k * drow d)
  = squaresAhead d c r - Z.of_nat k.
Proof.
  intros Hd. induction k as [|k IH].
  - replace (c + Z.of_nat 0 * dcol d) with c by lia.
    replace (r + Z.of_nat 0 * drow d) with r by lia. lia.
  - replace (c + Z.of_nat (S k) * dcol d)
      with (c + Z.of_nat k * dcol d + dcol d) by lia.
    replace (r + Z.of_nat (S k) * drow d)
      with (r + Z.of_nat k * drow d + drow d) by lia.
    rewrite (squaresAhead_next d _ _ Hd), IH. lia.
Qed.

Lemma patternMoves_In (b : Board) (pos : Position) (t : AllPieceType)
      (o : Player) (pattern : MovePattern) (dst : Position) :
  In pattern (PIECE_MOVES t) ->
  In dst (patternMoves b pos o pattern) <-> reachesAlong b pos o pattern dst.
Proof.
  intros Hcat. unfold reachesAlong, patternMoves.
  set (d := adjustDirectionForPlayer (direction pattern) o).
  destruct (moveType pattern) eqn:Hmt.
  - (* step *)
    assert (stepFrom pos d 1 = mkPosition (col pos + dcol d) (row pos + drow d))
      as H1 by (unfold stepFrom; f_equal; lia).
    split.
    + intros Hin.
      destruct (isValidPosition (col pos + dcol d) (row pos + drow d)) eqn:Hv;
        [|destruct Hin].
      apply isValidPosition_onBoard in Hv.
      exists 1. rewrite H1.
      destruct (getPieceAt b _) as [tp|] eqn:Hp.
      * destruct (playerEqb (owner tp) o) eqn:Ho; [destruct Hin|].
        destruct Hin as [<-|[]].
        split; [lia|]. split; [reflexivity|]. split; [reflexivity|].
        split; [exact Hv|]. split; [|intros j Hj; lia].
        intros tp' Htp'. rewrite Hp in Htp'. injection Htp' as <-.
        intros Heq. apply playerEqb_eq in Heq. congruence.
      * destruct Hin as [<-|[]].
        split; [lia|]. split; [reflexivity|]. split; [reflexivity|].
        split; [exact Hv|]. split; [|intros j Hj; lia].
        intros tp' Htp'. rewrite Hp in Htp'. discriminate.
    + intros [k [Hk [Hstep [Hdst [Hon [Hown _]]]]]].
      rewrite (Hstep eq_refl) in Hdst. rewrite H1 in Hdst. subst dst.
      rewrite (proj2 (isValidPosition_onBoard _ _) Hon).
      destruct (getPieceAt b _) as [tp|] eqn:Hp; [|now left].
      destruct (playerEqb (owner tp) o) eqn:Ho; [|now left].
      apply playerEqb_eq in Ho. now destruct (Hown tp eq_refl).
  - (* slide *)
    assert (forall n : nat,
               mkPosition (col pos + dcol d + Z.of_nat n * dcol d)
                          (row pos + drow d + Z.of_nat n * drow d)
               = stepFrom pos d (Z.of_nat n + 1)) as Hshift
        by (intros n; unfold stepFrom; f_equal; lia).
    split.
    + intros Hin. apply slideWalk_In in Hin as [k [Hdst [Hon [Hown Hway]]]].
      exists (Z.of_nat k + 1). rewrite Hshift in Hdst.
      split; [lia|]. split; [discriminate|]. split; [exact Hdst|].
      split; [exact Hon|]. split; [exact Hown|].
      intros j Hj.
      replace j with (Z.of_nat (Z.to_nat (j - 1)) + 1) by lia.
      rewrite <- Hshift. apply Hway. lia.
    + intros [k [Hk [_ [Hdst [Hon [Hown Hway]]]]]].
      assert (unitStep d) as Hd by (now apply (catalog_slides_are_unit t)).
      replace k with (Z.of_nat (Z.to_nat (k - 1)) + 1) in Hdst by lia.
      rewrite <- Hshift in Hdst. rewrite Hdst in Hon, Hown. rewrite Hdst.
      apply slideWalk_reach; [| |exact Hon|exact Hown].
      * destruct Hon as [Hc Hr]. cbn [col row] in Hc, Hr.
        pose proof (squaresAhead_after d (col pos + dcol d) (row pos + drow d)
                                       (Z.to_nat (k - 1)) Hd) as Hafter.
        pose proof (squaresAhead_valid d _ _
                      (proj2 (isValidPosition_onBoard _ _) (conj Hc Hr)))
          as Hhere.
        assert (squaresAhead d (col pos + dcol d) (row pos + drow d) <= 9)
          as Hstart.
        { destruct (Z.to_nat (k - 1)) as [|n] eqn:Hn.
          - replace (col pos + dcol d + Z.of_nat 0 * dcol d)
              with (col pos + dcol d) in Hhere by lia.
            replace (row pos + drow d + Z.of_nat 0 * drow d)
              with (row pos + drow d) in Hhere by lia. lia.
          - destruct (Hway 1) as [Hon1 _]; [lia|].
            assert (stepFrom pos d 1
                    = mkPosition (col pos + dcol d) (row pos + drow d)) as H1
                by (unfold stepFrom; f_equal; lia).
            rewrite H1 in Hon1.
            pose proof (squaresAhead_valid d _ _
                          (proj2 (isValidPosition_onBoard _ _) Hon1)). lia. }
        unfold slideFuel. lia.
      * intros j Hj. rewrite Hshift. apply Hway. lia.
Qed.


Lemma catalog_directions_move (t : AllPieceType) (o : Player)
      (pattern : MovePattern) :
  In pattern (PIECE_MOVES t) ->
  let d := adjustDirectionForPlayer (direction pattern) o in
  dcol d <> 0 \/ drow d <> 0.
Proof.
  intros Hin.
  destruct t; cbn in Hin;
    repeat (destruct Hin as [<-|Hin]; [destruct o; cbn; lia|]);
    destruct Hin.
Qed.

Lemma getRawMoves_landing (b : Board) (pos : Position) (t : AllPieceType)
      (o : Player) (dst : Position) :
  In dst (getRawMoves b pos t o) ->
  onBoard dst /\ dst <> pos
  /\ forall tp, getPieceAt b dst = Some tp -> owner tp = opponentOf o.
Proof.
  unfold getRawMoves. rewrite in_flat_map.
  intros [pattern [Hcat Hin]].
  apply (patternMoves_In b pos t o pattern dst Hcat) in Hin.
  destruct Hin as [k [Hk [_ [Hdst [Hon [Hown _]]]]]].
  split; [exact Hon|]. split.
  - intros Heq. rewrite Heq in Hdst.
    pose proof (catalog_directions_move t o pattern Hcat) as Hmove.
    cbv zeta in Hmove. unfold stepFrom in Hdst. destruct pos as [c r].
    cbn [col row] in Hdst. injection Hdst as Hc Hr. nia.
  - intros tp Htp. specialize (Hown tp Htp).
    destruct (owner tp), o; try reflexivity; now destruct Hown.
Qed.

(** X9. Every square [getRawMoves] returns is on the board, is not the
    origin, and holds no piece of the owner: a raw move never leaves the
    board, never stays in place and never captures an own piece. *)
Theorem getRawMoves_never (b : Board) (pos : Position) (t : AllPieceType)
        (o : Player) (dst : Position) :
  In dst (getRawMoves b pos t o) ->
  onBoard dst /\ dst <> pos
  /\ forall tp, getPieceAt b dst = Some tp -> owner tp = opponentOf o.
Proof. apply getRawMoves_landing. Qed.

Lemma getRawMoves_never_witness :
  let dst := mkPosition 7 6 in
  In dst (getRawMoves createInitialBoard (mkPosition 7 7) pawn sente)
  /\ onBoard dst /\ dst <> mkPosition 7 7.
Proof.
  intros dst.
  assert (In dst (getRawMoves createInitialBoard (mkPosition 7 7) pawn sente))
    as Hin by (vm_compute; now left).
  destruct (getRawMoves_never createInitialBoard (mkPosition 7 7) pawn sente
                              dst Hin) as [Hon [Hne _]].
  split; [exact Hin|]. now split.
Defined.

(** ** Immobile squares *)

Lemma off_rank_invalid (c r : Z) :
  r < 1 \/ 9 < r -> isValidPosition c r = false.
Proof.
  intros H. unfold isValidPosition.
  destruct (1 <=? c), (c <=? 9); cbn [andb]; try reflexivity.
  destruct (Z.leb_spec 1 r); cbn [andb]; [|reflexivity].
  apply Z.leb_gt. lia.
Qed.

Lemma dead_square_no_raw_move (b : Board) (pos : Position) (t : AllPieceType)
      (o : Player) :
  isDeadPosition t pos o = true -> getRawMoves b pos t o = [].
Proof.
  unfold isDeadPosition.
  destruct o, t; try discriminate; rewrite ?Z.eqb_eq, ?Z.leb_le; intros H;
    unfold getRawMoves, PIECE_MOVES, PAWN_MOVES, LANCE_MOVES, KNIGHT_MOVES,
      stepping, sliding, patternMoves, slideFuel;
    cbn [flat_map map app moveType direction adjustDirectionForPlayer
         dcol drow UP KNIGHT_LEFT KNIGHT_RIGHT slideWalk];
    rewrite !off_rank_invalid by lia; reflexivity.
Qed.

Lemma live_square_table :
  forallb (fun o => forallb (fun t => forallb (fun pos =>
     isDeadPosition t pos o || negb (noMoves (getRawMoves emptyBoard pos t o)))
     allPositions) allKinds) players = true.
Proof. vm_compute. reflexivity. Qed.

(** X10. For a square of the board, [isDeadPosition] (which is also
    [mustPromote]) holds exactly when a piece of that kind and owner standing
    there has no raw move on any board whatever: the squares it names are
    those from which the unpromoted piece could never move again. *)
Theorem isDeadPosition_iff_immobile (t : AllPieceType) (o : Player)
        (pos : Position) (Hpos : onBoard pos) :
  isDeadPosition t pos o = true <-> forall b, getRawMoves b pos t o = [].
Proof.
  split.
  - intros Hdead b. now apply dead_square_no_raw_move.
  - intros Hnone.
    pose proof live_square_table as T.
    rewrite forallb_forall in T.
    assert (In o players) as Ho by (destruct o; cbn; tauto).
    specialize (T o Ho). rewrite forallb_forall in T.
    specialize (T t (allKinds_all t)). rewrite forallb_forall in T.
    specialize (T pos (proj2 (allPositions_In pos) Hpos)).
    rewrite (Hnone emptyBoard) in T. cbn [noMoves negb] in T.
    now rewrite orb_false_r in T.
Qed.

Lemma isDeadPosition_iff_immobile_witness :
  (forall b, getRawMoves b (mkPosition 4 2) knight sente = [])
  /\ isDeadPosition knight (mkPosition 4 3) sente = false.
Proof.
  assert (onBoard (mkPosition 4 2)) as Hpos by (unfold onBoard; cbn; lia).
  split.
  - apply (isDeadPosition_iff_immobile knight sente (mkPosition 4 2) Hpos).
    reflexivity.
  - reflexivity.
Defined.

(** ** Moves and drops on the board *)

Lemma applyMove_spec_witness :
  let move := mkMoveAction (mkPosition 3 4) (mkPosition 3 3) pawn (Some gold)
                           true in
  let b := board hangingGoldState in
  capturedPiece (applyMove b move) = Some (createPiece gold gote)
  /\ getPieceAt (newBoard (applyMove b move)) (mkPosition 3 4) = None
  /\ getPieceAt (newBoard (applyMove b move)) (mkPosition 3 3)
     = Some (mkPiece promotedPawn sente true).
Proof.
  intros move b.
  assert (wellShaped b) as Hshape by (apply wellShaped_by_scan; reflexivity).
  assert (onBoard (from move)) as Hfrom by (unfold onBoard; cbn; lia).
  assert (onBoard (to move)) as Hto by (unfold onBoard; cbn; lia).
  assert (from move <> to move) as Hne by (intros H; discriminate H).
  destruct (applyMove_spec b move (createPiece pawn sente) Hshape Hfrom Hto
                           Hne eq_refl) as [Hcap [Hsrc [Hdst _]]].
  split; [exact Hcap|]. split; [exact Hsrc | exact Hdst].
Defined.

Lemma applyMove_wellShaped (b : Board) (move : MoveAction) :
  wellShaped b -> wellShaped (newBoard (applyMove b move)).
Proof.
  intros Hb. unfold applyMove. rewrite cloneBoard_same.
  destruct (positionToIndex (from move)) as [fr fc].
  destruct (positionToIndex (to move)) as [tr tc].
  destruct (boardAt b fr fc) as [mp|]; [|now apply boardPut_wellShaped].
  destruct (promote move && canPromote (type mp)
            && negb (isPromotedPiece (type mp)));
    [destruct (promotePiece (type mp))|]; cbn [newBoard];
    repeat apply boardPut_wellShaped; exact Hb.
Qed.

Lemma applyDrop_wellShaped (b : Board) (drop : DropAction) (player : Player) :
  wellShaped b -> wellShaped (applyDrop b drop player).
Proof.
  intros Hb. unfold applyDrop. rewrite cloneBoard_same.
  destruct (positionToIndex (dropTo drop)). now apply boardPut_wellShaped.
Qed.

(** X12. On a board of the declared shape, [applyDrop] puts on an on-board
    destination an unpromoted piece of the dropped kind owned by the player
    and leaves every other square; and both [applyDrop] and [applyMove] give
    back a board of nine rows of nine squares. *)
Theorem applyDrop_spec (b : Board) (drop : DropAction) (player : Player)
        (Hshape : wellShaped b) (Hto : onBoard (dropTo drop)) :
  getPieceAt (applyDrop b drop player) (dropTo drop)
  = Some (mkPiece (handKind (dropPiece drop)) player false)
  /\ (forall other, onBoard other -> other <> dropTo drop ->
                    getPieceAt (applyDrop b drop player) other
                    = getPieceAt b other)
  /\ wellShaped (applyDrop b drop player)
  /\ (forall move, wellShaped (newBoard (applyMove b move))).
Proof.
  split; [|split; [|split]].
  - unfold applyDrop, positionToIndex. rewrite cloneBoard_same.
    now apply getPieceAt_boardPut_same.
  - intros other Ho Hne. unfold applyDrop, positionToIndex.
    rewrite cloneBoard_same. now apply getPieceAt_boardPut_other.
  - now apply applyDrop_wellShaped.
  - intros move. now apply applyMove_wellShaped.
Qed.

Lemma applyDrop_spec_witness :
  let drop := mkDropAction (mkPosition 1 8) handGold in
  getPieceAt (applyDrop corneredKingBoard drop sente) (mkPosition 1 8)
  = Some (mkPiece gold sente false)
  /\ getPieceAt (applyDrop corneredKingBoard drop sente) (mkPosition 1 9)
     = Some (createPiece king sente).
Proof.
  intros drop.
  assert (wellShaped corneredKingBoard) as Hshape
      by (apply wellShaped_by_scan; reflexivity).
  assert (onBoard (dropTo drop)) as Hto by (unfold onBoard; cbn; lia).
  destruct (applyDrop_spec corneredKingBoard drop sente Hshape Hto)
    as [Hdst [Hother _]].
  split; [exact Hdst|].
  rewrite Hother; [reflexivity | unfold onBoard; cbn; lia |].
  intros H. discriminate H.
Defined.

(** ** The drop generator and the full generator *)

Lemma getLegalDrops_In (b : Board) (player : Player) (hand : Hand)
      (d : DropAction) :
  In d (getLegalDrops b player hand)
  <-> onBoard (dropTo d) /\ isLegalDrop b d player hand = true.
Proof.
  unfold getLegalDrops. rewrite in_flat_map. split.
  - intros [k [_ Hin]].
    destruct (handCount hand k <=? 0); [destruct Hin|].
    apply filter_In in Hin as [Hin Hlegal].
    apply in_map_iff in Hin as [dst [<- Hdst]].
    apply allPositions_In in Hdst. cbn [dropTo]. now split.
  - intros [Hon Hlegal]. exists (dropPiece d). split; [apply handPieces_all|].
    destruct (handCount hand (dropPiece d) <=? 0) eqn:Hcount.
    + unfold isLegalDrop in Hlegal. rewrite Hcount in Hlegal. discriminate.
    + apply filter_In. split; [|exact Hlegal].
      apply in_map_iff. exists (dropTo d). split; [now destruct d|].
      now apply allPositions_In.
Qed.

(** X13. [getLegalDrops] returns exactly the drops onto squares of the board
    that [isLegalDrop] accepts; each is of a kind held at least once and onto
    an empty square, and with nothing in hand nothing is returned. *)
Theorem getLegalDrops_iff (b : Board) (player : Player) (hand : Hand) :
  (forall d,
      In d (getLegalDrops b player hand)
      <-> onBoard (dropTo d) /\ isLegalDrop b d player hand = true)
  /\ (forall d,
        In d (getLegalDrops b player hand) ->
        1 <= handCount hand (dropPiece d) /\ getPieceAt b (dropTo d) = None)
  /\ ((forall k, handCount hand k <= 0) -> getLegalDrops b player hand = []).
Proof.
  split; [|split].
  - intros d. apply getLegalDrops_In.
  - intros d Hin. apply getLegalDrops_In in Hin as [_ Hlegal].
    rewrite isLegalDrop_tests, !andb_true_iff in Hlegal.
    destruct Hlegal as [[[[[Hcount Hempty] _] _] _] _].
    apply negb_true_iff, Z.leb_gt in Hcount. split; [lia|].
    now destruct (getPieceAt b (dropTo d)).
  - intros Hnone.
    destruct (getLegalDrops b player hand) as [|d l] eqn:Hl; [reflexivity|].
    assert (In d (getLegalDrops b player hand)) as Hin by (rewrite Hl; now left).
    apply getLegalDrops_In in Hin as [_ Hlegal].
    unfold isLegalDrop in Hlegal.
    rewrite (proj2 (Z.leb_le _ _) (Hnone (dropPiece d))) in Hlegal.
    discriminate.
Qed.

Lemma boardAt_getPieceAt (b : Board) (pos : Position) :
  boardAt b (row pos - 1) (9 - col pos) = getPieceAt b pos.
Proof. reflexivity. Qed.

Lemma getPieceAt_indexToPosition (b : Board) (r c : Z) :
  getPieceAt b (indexToPosition r c) = boardAt b r c.
Proof.
  unfold getPieceAt, indexToPosition, positionToIndex. cbn [col row].
  f_equal; lia.
Qed.

Lemma getLegalMovesForPiece_from (b : Board) (src : Position)
      (player : Player) (m : MoveAction) :
  In m (getLegalMovesForPiece b src player) ->
  from m = src
  /\ exists p, getPieceAt b src = Some p /\ owner p = player.
Proof.
  intros Hin. apply getLegalMovesForPiece_In in Hin as [Hcand _].
  apply candidateMoves_In in Hcand as [p [dst [Hp [Ho [_ Hin]]]]].
  apply candidatesTo_In in Hin as [Hm _]. split.
  - rewrite Hm. reflexivity.
  - now exists p.
Qed.

Lemma getAllLegalMoves_move (state : GameState) (m : MoveAction) :
  In (MoveOf m) (getAllLegalMoves state)
  <-> onBoard (from m)
      /\ In m (getLegalMovesForPiece (board state) (from m)
                                     (currentPlayer state)).
Proof.
  unfold getAllLegalMoves. rewrite in_app_iff, in_flat_map. split.
  - intros [[[r c] [Hrc Hin]]|Hin].
    + cbn [fst snd] in Hin. apply allIndices_In in Hrc. cbn [fst snd] in Hrc.
      destruct (boardAt (board state) r c) as [p|]; [|destruct Hin].
      destruct (playerEqb (owner p) (currentPlayer state)); [|destruct Hin].
      apply in_map_iff in Hin as [m' [Heq Hin]]. injection Heq as ->.
      destruct (getLegalMovesForPiece_from _ _ _ _ Hin) as [Hfrom _].
      rewrite Hfrom. split; [|exact Hin].
      unfold onBoard, indexToPosition. cbn [col row]. lia.
    + apply in_map_iff in Hin as [d [Heq _]]. discriminate.
  - intros [Hon Hin]. left.
    exists (row (from m) - 1, 9 - col (from m)). split.
    + apply allIndices_In. cbn [fst snd]. unfold onBoard in Hon. lia.
    + cbn [fst snd]. rewrite boardAt_getPieceAt.
      destruct (getLegalMovesForPiece_from _ _ _ _ Hin) as [_ [p [Hp Ho]]].
      rewrite Hp. rewrite (proj2 (playerEqb_eq _ _) Ho).
      apply in_map.
      replace (indexToPosition (row (from m) - 1) (9 - col (from m)))
        with (from m); [exact Hin|].
      unfold indexToPosition. destruct (from m) as [c r]. cbn [col row].
      f_equal; lia.
Qed.

Lemma getAllLegalMoves_drop (state : GameState) (d : DropAction) :
  In (DropOf d) (getAllLegalMoves state)
  <-> In d (getLegalDrops (board state) (currentPlayer state)
                          (handOf (hands state) (currentPlayer state))).
Proof.
  unfold getAllLegalMoves. rewrite in_app_iff, in_flat_map. split.
  - intros [[[r c] [_ Hin]]|Hin].
    + cbn [fst snd] in Hin.
      destruct (boardAt (board state) r c) as [p|]; [|destruct Hin].
      destruct (playerEqb (owner p) (currentPlayer state)); [|destruct Hin].
      apply in_map_iff in Hin as [m [Heq _]]. discriminate.
    + apply in_map_iff in Hin as [d' [Heq Hin]]. now injection Heq as ->.
  - intros Hin. right. now apply in_map.
Qed.

Lemma getAllLegalMoves_safe (state : GameState) (mv : Move) :
  In mv (getAllLegalMoves state) ->
  isInCheck (boardAfter (board state) (currentPlayer state) mv)
            (currentPlayer state) = false.
Proof.
  destruct mv as [m|d]; cbn [boardAfter].
  - intros Hin. apply getAllLegalMoves_move in Hin as [_ Hin].
    apply getLegalMovesForPiece_In in Hin as [_ Hlegal].
    unfold isLegalMove in Hlegal. now apply negb_true_iff in Hlegal.
  - intros Hin. apply getAllLegalMoves_drop, getLegalDrops_In in Hin
      as [_ Hlegal].
    rewrite isLegalDrop_tests, !andb_true_iff in Hlegal.
    destruct Hlegal as [_ Hsafe]. now apply negb_true_iff in Hsafe.
Qed.

(** X14. [getAllLegalMoves] returns a relocation exactly when its origin is
    on the board and [getLegalMovesForPiece] returns it from that origin, and
    a drop exactly when [getLegalDrops] returns it for the hand of the side
    to move; and no move it returns, relocation or drop, leaves the king of
    the side to move in check. *)
Theorem getAllLegalMoves_iff (state : GameState) :
  (forall m,
      In (MoveOf m) (getAllLegalMoves state)
      <-> onBoard (from m)
          /\ In m (getLegalMovesForPiece (board state) (from m)
                                         (currentPlayer state)))
  /\ (forall d,
        In (DropOf d) (getAllLegalMoves state)
        <-> In d (getLegalDrops (board state) (currentPlayer state)
                                (handOf (hands state) (currentPlayer state))))
  /\ (forall mv,
        In mv (getAllLegalMoves state) ->
        isInCheck (boardAfter (board state) (currentPlayer state) mv)
                  (currentPlayer state) = false).
Proof.
  split; [|split].
  - apply getAllLegalMoves_move.
  - apply getAllLegalMoves_drop.
  - apply getAllLegalMoves_safe.
Qed.

(** ** Drops that escape check, and checkmate with a hand *)

Lemma isLegalDrop_escape (b : Board) (drop : DropAction) (player : Player)
      (hand : Hand) :
  isLegalDrop b drop player hand
  = isLegalDropForCheckEscape b drop player hand
    && negb (isHandPawn (dropPiece drop)
             && isCheckmate (applyDrop b drop player) (opponentOf player) None).
Proof.
  unfold isLegalDrop, isLegalDropForCheckEscape.
  destruct (handCount hand (dropPiece drop) <=? 0); [reflexivity|].
  destruct (getPieceAt b (dropTo drop)); [reflexivity|].
  destruct (isDeadPosition _ _ _); [reflexivity|].
  destruct (isHandPawn (dropPiece drop) && ownPawnOnFile _ _ _);
    [reflexivity|].
  destruct (isHandPawn (dropPiece drop) && isCheckmate _ _ _);
    cbn [negb]; [now rewrite andb_false_r | now rewrite andb_true_r].
Qed.

(** X15. [isLegalDrop] accepts a drop exactly when
    [isLegalDropForCheckEscape] accepts it and it is not a pawn drop that
    checkmates the opponent (checkmate judged without a hand): the two agree
    on every kind but the pawn, and every legal drop counts as an escape. *)
Theorem isLegalDrop_vs_check_escape (b : Board) (drop : DropAction)
        (player : Player) (hand : Hand) :
  (isLegalDrop b drop player hand = true
   <-> isLegalDropForCheckEscape b drop player hand = true
       /\ ~ (dropPiece drop = handPawn
             /\ isCheckmate (applyDrop b drop player) (opponentOf player) None
                = true))
  /\ (dropPiece drop <> handPawn ->
      isLegalDrop b drop player hand
      = isLegalDropForCheckEscape b drop player hand)
  /\ (isLegalDrop b drop player hand = true ->
      isLegalDropForCheckEscape b drop player hand = true).
Proof.
  rewrite isLegalDrop_escape. split; [|split].
  - rewrite andb_true_iff, negb_true_iff, andb_false_iff, <- isHandPawn_spec.
    destruct (isHandPawn (dropPiece drop));
      destruct (isCheckmate _ _ _); intuition congruence.
  - intros Hk.
    replace (isHandPawn (dropPiece drop)) with false;
      [cbn [andb negb]; apply andb_true_r|].
    symmetry. destruct (isHandPawn (dropPiece drop)) eqn:H; [|reflexivity].
    apply isHandPawn_spec in H. now destruct Hk.
  - intros H. now apply andb_true_iff in H.
Qed.

Lemma escapesByDrop_spec (b : Board) (player : Player) (hand : Hand) :
  escapesByDrop b player hand = true
  <-> exists d, onBoard (dropTo d)
                /\ isLegalDropForCheckEscape b d player hand = true.
Proof.
  unfold escapesByDrop. rewrite existsb_exists. split.
  - intros [k [_ H]].
    destruct (handCount hand k <=? 0); [discriminate|].
    apply existsb_exists in H as [dst [Hdst Hesc]].
    exists (mkDropAction dst k). split; [|exact Hesc].
    now apply allPositions_In.
  - intros [d [Hon Hesc]]. exists (dropPiece d).
    split; [apply handPieces_all|].
    destruct (handCount hand (dropPiece d) <=? 0) eqn:Hcount.
    + unfold isLegalDropForCheckEscape in Hesc. rewrite Hcount in Hesc.
      discriminate.
    + apply existsb_exists. exists (dropTo d).
      split; [now apply allPositions_In|]. now destruct d.
Qed.

Lemma isCheckmate_hand (b : Board) (player : Player) (hand : Hand) :
  isCheckmate b player (Some hand)
  = isCheckmate b player None && negb (escapesByDrop b player hand).
Proof.
  unfold isCheckmate.
  destruct (negb (isInCheck b player)); [reflexivity|].
  destruct (existsb (escapesBy b player) allIndices); [reflexivity|].
  now destruct (escapesByDrop b player hand).
Qed.

(** X16. [isCheckmate] given a hand answers true exactly when the player is
    in check, no relocation escapes and no drop onto a square of the board
    passes [isLegalDropForCheckEscape]; so a mate found with the hand is
    also a mate without it, and with nothing in hand the two answers are the
    same. *)
Theorem isCheckmate_with_hand (b : Board) (player : Player) (hand : Hand) :
  (isCheckmate b player (Some hand) = true
   <-> isInCheck b player = true
       /\ ~ relocationEscapes b player
       /\ forall d, onBoard (dropTo d) ->
                    isLegalDropForCheckEscape b d player hand = false)
  /\ (isCheckmate b player (Some hand) = true ->
      isCheckmate b player None = true)
  /\ ((forall k, handCount hand k <= 0) ->
      isCheckmate b player (Some hand) = isCheckmate b player None).
Proof.
  rewrite isCheckmate_hand. split; [|split].
  - rewrite andb_true_iff, negb_true_iff, isCheckmate_no_hand.
    split.
    + intros [[Hc He] Hd]. split; [exact Hc|]. split; [exact He|].
      intros d Hon.
      destruct (isLegalDropForCheckEscape b d player hand) eqn:Hesc;
        [|reflexivity].
      assert (escapesByDrop b player hand = true) as Habs
          by (apply escapesByDrop_spec; now exists d).
      congruence.
    + intros [Hc [He Hd]]. split; [now split|].
      destruct (escapesByDrop b player hand) eqn:Hesc; [|reflexivity].
      apply escapesByDrop_spec in Hesc as [d [Hon Hesc]].
      rewrite (Hd d Hon) in Hesc. discriminate.
  - intros H. now apply andb_true_iff in H.
  - intros Hnone.
    replace (escapesByDrop b player hand) with false;
      [cbn [negb]; apply andb_true_r|].
    symmetry. destruct (escapesByDrop b player hand) eqn:Hesc; [|reflexivity].
    apply escapesByDrop_spec in Hesc as [d [_ Hesc]].
    unfold isLegalDropForCheckEscape in Hesc.
    rewrite (proj2 (Z.leb_le _ _) (Hnone (dropPiece d))) in Hesc.
    discriminate.
Qed.

(** ** Legality does not depend on the promotion flag *)

Lemma find_ext_in {A : Type} (f g : A -> bool) (l : list A) :
  (forall x, In x l -> f x = g x) -> find f l = find g l.
Proof.
  induction l as [|x l IH]; intros H; [reflexivity|].
  cbn [find]. rewrite (H x) by now left.
  destruct (g x); [reflexivity|]. apply IH. intros y Hy. apply H. now right.
Qed.

Lemma existsb_ext_in {A : Type} (f g : A -> bool) (l : list A) :
  (forall x, In x l -> f x = g x) -> existsb f l = existsb g l.
Proof.
  induction l as [|x l IH]; intros H; [reflexivity|].
  cbn [existsb]. rewrite (H x) by now left.
  f_equal. apply IH. intros y Hy. apply H. now right.
Qed.

Section SameOwners.
Variables b1 b2 : Board.
Hypothesis owners : forall pos, onBoard pos -> ownerAt b1 pos = ownerAt b2 pos.

Lemma landing_owners (o : Player) (pos : Position) (rest1 rest2 : list Position) :
  onBoard pos -> rest1 = rest2 ->
  match getPieceAt b1 pos with
  | None => pos :: rest1
  | Some tp => if playerEqb (owner tp) o then [] else [pos]
  end
  = match getPieceAt b2 pos with
    | None => pos :: rest2
    | Some tp => if playerEqb (owner tp) o then [] else [pos]
    end.
Proof.
  intros Hon ->. pose proof (owners pos Hon) as H. unfold ownerAt in H.
  destruct (getPieceAt b1 pos) as [p1|], (getPieceAt b2 pos) as [p2|];
    cbn [option_map] in H; try discriminate; [|reflexivity].
  injection H as ->. reflexivity.
Qed.

Lemma slideWalk_owners (o : Player) (d : Direction) (fuel : nat) :
  forall c r, slideWalk fuel b1 o d c r = slideWalk fuel b2 o d c r.
Proof.
  induction fuel as [|fuel IH]; intros c r; [reflexivity|].
  cbn [slideWalk]. destruct (isValidPosition c r) eqn:Hv; [|reflexivity].
  apply isValidPosition_onBoard in Hv. now apply landing_owners.
Qed.

Lemma getRawMoves_owners (pos : Position) (t : AllPieceType) (o : Player) :
  getRawMoves b1 pos t o = getRawMoves b2 pos t o.
Proof.
  unfold getRawMoves. apply flat_map_ext. intros pattern.
  unfold patternMoves. destruct (moveType pattern).
  - destruct (isValidPosition _ _) eqn:Hv; [|reflexivity].
    apply isValidPosition_onBoard in Hv.
    pose proof (landing_owners o _ [] [] Hv eq_refl) as H.
    destruct (getPieceAt b1 _), (getPieceAt b2 _); exact H.
  - apply slideWalk_owners.
Qed.

End SameOwners.

Lemma sameForCheck_owners (player : Player) (b1 b2 : Board) :
  sameForCheck player b1 b2 ->
  forall pos, onBoard pos -> ownerAt b1 pos = ownerAt b2 pos.
Proof.
  intros Hsame pos [Hc Hr]. unfold ownerAt, getPieceAt, positionToIndex.
  destruct (Hsame (row pos - 1) (9 - col pos)) as [->|H]; [lia | lia | reflexivity |].
  destruct H as [p1 [p2 [-> [-> [H1 [H2 _]]]]]]. cbn. congruence.
Qed.

Lemma sameForCheck_isInCheck (player : Player) (b1 b2 : Board) :
  sameForCheck player b1 b2 -> isInCheck b1 player = isInCheck b2 player.
Proof.
  intros Hsame. unfold isInCheck, findKingPosition.
  rewrite (find_ext_in
             (fun rc => isKingOf player (boardAt b1 (fst rc) (snd rc)))
             (fun rc => isKingOf player (boardAt b2 (fst rc) (snd rc)))).
  2:{ intros [r c] Hin. apply allIndices_In in Hin. cbn [fst snd] in *.
      destruct (Hsame r c) as [->|H]; [lia | lia | reflexivity |].
      destruct H as [p1 [p2 [-> [-> [_ [_ [H1 H2]]]]]]]. cbn [isKingOf].
      replace (pieceTypeEqb (type p1) king) with false
        by (symmetry; destruct (pieceTypeEqb (type p1) king) eqn:E;
            [apply pieceTypeEqb_eq in E; now destruct H1 | reflexivity]).
      replace (pieceTypeEqb (type p2) king) with false
        by (symmetry; destruct (pieceTypeEqb (type p2) king) eqn:E;
            [apply pieceTypeEqb_eq in E; now destruct H2 | reflexivity]).
      reflexivity. }
  destruct (find _ allIndices) as [[kr kc]|]; [|reflexivity].
  unfold isSquareAttacked. apply existsb_ext_in.
  intros [r c] Hin. apply allIndices_In in Hin. cbn [fst snd] in Hin.
  unfold attacksFrom. cbn [fst snd].
  destruct (Hsame r c) as [Heq|H]; [lia | lia | |].
  - rewrite Heq. destruct (boardAt b2 r c) as [p|]; [|reflexivity].
    now rewrite (getRawMoves_owners b1 b2 (sameForCheck_owners player b1 b2 Hsame)).
  - destruct H as [p1 [p2 [-> [-> [H1 [H2 _]]]]]].
    rewrite H1, H2. now destruct player.
Qed.

Lemma boardAt_boardPut (b : Board) (r c : Z) (sq : Square) (r' c' : Z) :
  0 <= r' -> 0 <= c' ->
  boardAt (boardPut b r c sq) r' c'
  = if (r' =? r) && (c' =? c) && writable b r c then sq else boardAt b r' c'.
Proof.
  intros Hr' Hc'. unfold boardPut, boardAt, writable.
  replace ((r' <? 0) || (c' <? 0)) with false
    by (symmetry; apply orb_false_iff; split; apply Z.ltb_ge; lia).
  destruct (Z.ltb_spec r 0) as [Hr|Hr]; cbn [orb].
  { replace (r' =? r) with false by (symmetry; apply Z.eqb_neq; lia).
    reflexivity. }
  destruct (Z.ltb_spec c 0) as [Hc|Hc].
  { replace (c' =? c) with false by (symmetry; apply Z.eqb_neq; lia).
    now rewrite andb_false_r. }
  replace (0 <=? r) with true by (symmetry; apply Z.leb_le; lia).
  replace (0 <=? c) with true by (symmetry; apply Z.leb_le; lia).
  cbn [andb].
  destruct (Z.eqb_spec r' r) as [->|Hne]; cbn [andb].
  - destruct (Nat.ltb_spec (Z.to_nat r) (List.length b)) as [Hin|Hout];
      cbn [andb].
    + rewrite nth_replaceNth_same by exact Hin.
      destruct (Z.eqb_spec c' c) as [->|Hnc]; cbn [andb].
      * destruct (Nat.ltb_spec (Z.to_nat c)
                               (List.length (nth (Z.to_nat r) b [])))
          as [Hcin|Hcout].
        -- now apply nth_replaceNth_same.
        -- rewrite !nth_overflow; rewrite ?replaceNth_length; auto.
      * apply nth_replaceNth_other. lia.
    + rewrite andb_false_r.
      rewrite (nth_overflow (replaceNth _ _ b) [])
        by (rewrite replaceNth_length; exact Hout).
      now rewrite (nth_overflow b []) by exact Hout.
  - rewrite nth_replaceNth_other by lia. reflexivity.
Qed.

Lemma applyMove_newBoard (b : Board) (move : MoveAction) :
  newBoard (applyMove b move)
  = let '(fr, fc) := positionToIndex (from move) in
    let '(tr, tc) := positionToIndex (to move) in
    match getPieceAt b (from move) with
    | Some mp =>
        boardPut (boardPut b fr fc None) tr tc (Some (arrival move mp))
    | None => boardPut b fr fc None
    end.
Proof.
  unfold applyMove, getPieceAt, arrival. rewrite cloneBoard_same.
  destruct (positionToIndex (from move)) as [fr fc].
  destruct (positionToIndex (to move)) as [tr tc].
  destruct (boardAt b fr fc) as [mp|]; [|reflexivity].
  destruct (promote move && canPromote (type mp)
            && negb (isPromotedPiece (type mp))) eqn:Hprom; [|reflexivity].
  apply andb_true_iff in Hprom as [Hprom _].
  apply andb_true_iff in Hprom as [_ Hcan].
  unfold promotePiece. unfold canPromote in Hcan.
  destruct (PROMOTION_MAP (type mp)); [reflexivity | discriminate].
Qed.

Lemma arrival_owner (move : MoveAction) (mp : Piece) :
  owner (arrival move mp) = owner mp.
Proof.
  unfold arrival. now destruct (promote move && _ && _).
Qed.

Lemma arrival_not_king (move : MoveAction) (mp : Piece) :
  type mp <> king -> type (arrival move mp) <> king.
Proof.
  unfold arrival. intros Hk.
  destruct (promote move && _ && _); [|exact Hk].
  cbn [type]. destruct (type mp); cbn; congruence.
Qed.

Lemma arrival_differs (m m' : MoveAction) (mp : Piece) :
  arrival m mp <> arrival m' mp -> type mp <> king.
Proof.
  unfold arrival. intros Hne Hk. apply Hne.
  rewrite Hk. cbn [canPromote PROMOTION_MAP]. now rewrite !andb_false_r.
Qed.

Lemma applyMove_sameForCheck (b : Board) (player : Player)
      (m m' : MoveAction) :
  from m = from m' -> to m = to m' ->
  (forall mp, getPieceAt b (from m) = Some mp -> owner mp = player) ->
  sameForCheck player (newBoard (applyMove b m)) (newBoard (applyMove b m')).
Proof.
  intros Hfrom Hto Hown. rewrite !applyMove_newBoard, <- Hfrom, <- Hto.
  destruct (positionToIndex (from m)) as [fr fc].
  destruct (positionToIndex (to m)) as [tr tc].
  destruct (getPieceAt b (from m)) as [mp|]; [|intros r c _ _; now left].
  intros r c Hr Hc. rewrite !boardAt_boardPut by lia.
  destruct ((r =? tr) && (c =? tc)
            && writable (boardPut b fr fc None) tr tc); [|now left].
  assert ({arrival m mp = arrival m' mp} + {arrival m mp <> arrival m' mp})
    as [->|Hne] by (repeat decide equality); [now left|].
  right. exists (arrival m mp), (arrival m' mp).
  pose proof (arrival_differs m m' mp Hne) as Hk.
  rewrite !arrival_owner. rewrite (Hown mp eq_refl).
  repeat (split; [reflexivity|]).
  split; now apply arrival_not_king.
Qed.

Lemma isInCheck_after_move (b : Board) (player : Player) (m m' : MoveAction) :
  from m = from m' -> to m = to m' ->
  (forall mp, getPieceAt b (from m) = Some mp -> owner mp = player) ->
  isInCheck (newBoard (applyMove b m)) player
  = isInCheck (newBoard (applyMove b m')) player.
Proof.
  intros Hfrom Hto Hown.
  now apply sameForCheck_isInCheck, applyMove_sameForCheck.
Qed.

(** X17. Whether [isLegalMove] accepts a relocation depends only on its
    origin and destination, not on its promotion flag nor on the kind and
    capture it records, whenever the origin holds a piece of the player or
    is empty: promoting never makes a move legal or illegal. *)
Theorem isLegalMove_ignores_promotion (b : Board) (player : Player)
        (m m' : MoveAction)
        (Hfrom : from m = from m') (Hto : to m = to m')
        (Hown : forall mp, getPieceAt b (from m) = Some mp -> owner mp = player) :
  isLegalMove b m player = isLegalMove b m' player.
Proof.
  unfold isLegalMove. now rewrite (isInCheck_after_move b player m m').
Qed.

Lemma isLegalMove_ignores_promotion_witness :
  isLegalMove (board hangingGoldState)
              (mkMoveAction (mkPosition 3 4) (mkPosition 3 3) pawn
                            (Some gold) true) sente
  = isLegalMove (board hangingGoldState)
                (mkMoveAction (mkPosition 3 4) (mkPosition 3 3) pawn None
                              false) sente.
Proof.
  apply isLegalMove_ignores_promotion; [reflexivity | reflexivity |].
  intros mp Hmp. vm_compute in Hmp. injection Hmp as <-. reflexivity.
Defined.

(** ** Checkmate and the move generator *)

Lemma candidatesTo_some (src : Position) (p : Piece) (player : Player)
      (cap : option AllPieceType) (dst : Position) :
  exists prom,
    In (mkMoveAction src dst (type p) cap prom)
       (candidatesTo src p player cap dst).
Proof.
  unfold candidatesTo.
  destruct (canPromote (type p) && negb (isPromotedPiece (type p))
            && canPromoteMove src dst player).
  - exists true. now left.
  - exists false. now left.
Qed.

Lemma indexToPosition_of_position (pos : Position) :
  indexToPosition (row pos - 1) (9 - col pos) = pos.
Proof.
  unfold indexToPosition. destruct pos as [c r]. cbn [col row]. f_equal; lia.
Qed.

Lemma relocationEscapes_generator (b : Board) (player : Player) :
  relocationEscapes b player
  <-> exists src, onBoard src /\ getLegalMovesForPiece b src player <> [].
Proof.
  split.
  - intros [r [c [p [dst [prom [Hr [Hc [Hp [Ho [Hraw [_ Hlegal]]]]]]]]]]].
    set (src := indexToPosition r c) in *.
    assert (getPieceAt b src = Some p) as Hsrc
        by (unfold src; now rewrite getPieceAt_indexToPosition).
    exists src. split; [unfold src, onBoard, indexToPosition; cbn [col row]; lia|].
    destruct (candidatesTo_some src p player
                (option_map type (getPieceAt b dst)) dst) as [prom' Hcand].
    assert (In (mkMoveAction src dst (type p)
                             (option_map type (getPieceAt b dst)) prom')
               (getLegalMovesForPiece b src player)) as Hin.
    { apply getLegalMovesForPiece_In. split.
      - apply candidateMoves_In. now exists p, dst.
      - rewrite <- Hlegal. unfold isLegalMove.
        rewrite (isInCheck_after_move b player
                   (mkMoveAction src dst (type p)
                                 (option_map type (getPieceAt b dst)) prom')
                   (mkMoveAction src dst (type p) None prom));
          [reflexivity | reflexivity | reflexivity |].
        cbn [from]. intros mp Hmp. rewrite Hsrc in Hmp. now injection Hmp as <-. }
    intros Hnil. rewrite Hnil in Hin. destruct Hin.
  - intros [src [[Hc Hr] Hne]].
    destruct (getLegalMovesForPiece b src player) as [|m l] eqn:Hl;
      [now destruct Hne|].
    assert (In m (getLegalMovesForPiece b src player)) as Hin
        by (rewrite Hl; now left).
    apply getLegalMovesForPiece_In in Hin as [Hcand Hlegal].
    apply candidateMoves_In in Hcand as [p [dst [Hp [Ho [Hraw Hin]]]]].
    apply candidatesTo_In in Hin as [Hm _].
    exists (row src - 1), (9 - col src), p, dst, false.
    rewrite indexToPosition_of_position, boardAt_getPieceAt.
    split; [lia|]. split; [lia|]. split; [exact Hp|]. split; [exact Ho|].
    split; [exact Hraw|]. split; [discriminate|].
    rewrite <- Hlegal. unfold isLegalMove.
    rewrite (isInCheck_after_move b player
               (mkMoveAction src dst (type p) None false) m).
    + reflexivity.
    + rewrite Hm. reflexivity.
    + rewrite Hm. reflexivity.
    + cbn [from]. intros mp Hmp. rewrite Hp in Hmp. now injection Hmp as <-.
Qed.

Lemma no_board_moves (state : GameState) :
  getAllLegalMoves state = [] ->
  forall src, onBoard src ->
              getLegalMovesForPiece (board state) src (currentPlayer state) = [].
Proof.
  intros Hnone src Hon.
  destruct (getLegalMovesForPiece _ src _) as [|m l] eqn:Hl; [reflexivity|].
  assert (In m (getLegalMovesForPiece (board state) src (currentPlayer state)))
    as Hin by (rewrite Hl; now left).
  destruct (getLegalMovesForPiece_from _ _ _ _ Hin) as [Hfrom _].
  assert (In (MoveOf m) (getAllLegalMoves state)) as Hall.
  { apply getAllLegalMoves_move. rewrite Hfrom. now split. }
  rewrite Hnone in Hall. destruct Hall.
Qed.

(** X18. The checkmate test agrees with the move generator.  Without a
    hand, [isCheckmate] holds exactly when the player is in check and
    [getLegalMovesForPiece] returns nothing from any square of the board;
    with the hand of the side to move, a checkmate leaves
    [getAllLegalMoves] empty; and a side in check for which
    [getAllLegalMoves] is empty (the mate test of the search) is checkmated
    for [isCheckmate] without a hand. *)
Theorem isCheckmate_agrees_with_generator (state : GameState) :
  let b := board state in
  let player := currentPlayer state in
  (isCheckmate b player None = true
   <-> isInCheck b player = true
       /\ forall src, onBoard src -> getLegalMovesForPiece b src player = [])
  /\ (isCheckmate b player (Some (handOf (hands state) player)) = true ->
      isInCheck b player = true /\ getAllLegalMoves state = [])
  /\ (isInCheck b player = true -> getAllLegalMoves state = [] ->
      isCheckmate b player None = true).
Proof.
  intros b player.
  assert (isCheckmate b player None = true
          <-> isInCheck b player = true
              /\ forall src, onBoard src ->
                             getLegalMovesForPiece b src player = []) as Hnone.
  { rewrite isCheckmate_no_hand, relocationEscapes_generator. split.
    - intros [Hc Hno]. split; [exact Hc|]. intros src Hon.
      destruct (getLegalMovesForPiece b src player) eqn:Hl; [reflexivity|].
      destruct Hno. exists src. split; [exact Hon|]. rewrite Hl. discriminate.
    - intros [Hc Hno]. split; [exact Hc|].
      intros [src [Hon Hne]]. now apply Hne, Hno. }
  split; [exact Hnone|]. split.
  - intros Hmate. rewrite isCheckmate_hand in Hmate.
    apply andb_true_iff in Hmate as [Hboard Hdrop].
    apply negb_true_iff in Hdrop.
    apply Hnone in Hboard as [Hc Hno]. split; [exact Hc|].
    destruct (getAllLegalMoves state) as [|mv l] eqn:Hl; [reflexivity|].
    assert (In mv (getAllLegalMoves state)) as Hin by (rewrite Hl; now left).
    destruct mv as [m|d].
    + apply getAllLegalMoves_move in Hin as [Hon Hin].
      fold b player in Hin. rewrite (Hno _ Hon) in Hin. destruct Hin.
    + apply getAllLegalMoves_drop, getLegalDrops_In in Hin as [Hon Hlegal].
      rewrite isLegalDrop_escape in Hlegal.
      apply andb_true_iff in Hlegal as [Hesc _].
      assert (escapesByDrop b player (handOf (hands state) player) = true)
        as Habs by (apply escapesByDrop_spec; now exists d).
      congruence.
  - intros Hc Hempty. apply Hnone. split; [exact Hc|].
    now apply no_board_moves.
Qed.

(** ** The verdicts of the game result evaluator *)

Lemma isStalemate_spec (state : GameState) :
  isStalemate state = true
  <-> isInCheck (board state) (currentPlayer state) = false
      /\ getAllLegalMoves state = [].
Proof.
  unfold isStalemate.
  destruct (isInCheck (board state) (currentPlayer state)).
  - split; [discriminate | intros [H _]; discriminate].
  - destruct (getAllLegalMoves state).
    + now split.
    + split; [discriminate | intros [_ H]; discriminate].
Qed.

Lemma isPerpeturalCheck_spec (state : GameState) :
  isPerpeturalCheck state
  = if isInCheck (board state) (currentPlayer state)
       && (3 <=? occurrences (positionHistory state) (gameStateToSfen state))%nat
    then Some (opponentOf (currentPlayer state)) else None.
Proof.
  unfold isPerpeturalCheck.
  destruct (isInCheck (board state) (currentPlayer state)); cbn [negb andb];
    [|reflexivity].
  rewrite repetition_count.
  destruct (Nat.leb_spec 3 (occurrences (positionHistory state)
                                        (gameStateToSfen state))) as [H|H].
  - now replace (3 <=? 0 + _) with true by (symmetry; apply Z.leb_le; lia).
  - now replace (3 <=? 0 + _) with false by (symmetry; apply Z.leb_gt; lia).
Qed.

Lemma isRepetition_spec (state : GameState) :
  isRepetition state
  = (3 <=? occurrences (positionHistory state) (gameStateToSfen state))%nat.
Proof.
  unfold isRepetition. rewrite countPositionRepetitions_occurrences.
  destruct (Nat.leb_spec 3 (occurrences (positionHistory state)
                                        (gameStateToSfen state))) as [H|H].
  - apply Z.leb_le. lia.
  - apply Z.leb_gt. lia.
Qed.

Lemma checkGameResult_cases (state : GameState) :
  checkGameResult state
  = if isCheckmate (board state) (currentPlayer state) None
    then checkmate (opponentOf (currentPlayer state))
    else if isStalemate state then stalemate (opponentOf (currentPlayer state))
    else if (3 <=? occurrences (positionHistory state)
                               (gameStateToSfen state))%nat
    then if isInCheck (board state) (currentPlayer state)
         then repetition (wonBy (currentPlayer state)) else repetition draw
    else ongoing.
Proof.
  unfold checkGameResult.
  rewrite isPerpeturalCheck_spec, isRepetition_spec.
  destruct (isCheckmate _ _ None); [reflexivity|].
  destruct (isStalemate state); [reflexivity|].
  destruct (isInCheck _ _), (3 <=? _)%nat; cbn [andb]; try reflexivity.
  now destruct (currentPlayer state).
Qed.

(** X19. The verdicts of [checkGameResult] besides checkmate.  Stalemate,
    won by the opponent, is given exactly when the side to move is not in
    check and has no legal move.  A repetition is given only when the history
    already holds the encoding of the state three times: it is a win for the
    side to move exactly when that side is in check and not mated, and a draw
    exactly when it is not in check and has a legal move, so a repeated
    position with the side to move in check is never a draw.  Resignation is
    never given. *)
Theorem checkGameResult_verdicts (state : GameState) :
  let b := board state in
  let player := currentPlayer state in
  let repeated :=
    (3 <= occurrences (positionHistory state) (gameStateToSfen state))%nat in
  (forall winner,
      checkGameResult state = stalemate winner
      <-> isInCheck b player = false /\ getAllLegalMoves state = []
          /\ winner = opponentOf player)
  /\ (forall winner,
        checkGameResult state = repetition (wonBy winner)
        <-> isInCheck b player = true /\ isCheckmate b player None = false
            /\ repeated /\ winner = player)
  /\ (checkGameResult state = repetition draw
      <-> isInCheck b player = false /\ getAllLegalMoves state <> []
          /\ repeated)
  /\ (checkGameResult state = ongoing
      <-> isCheckmate b player None = false /\ isStalemate state = false
          /\ ~ repeated)
  /\ (forall winner, checkGameResult state <> resignation winner).
Proof.
  intros b player repeated. rewrite checkGameResult_cases. fold b player.
  pose proof (isStalemate_spec state) as Hstale. fold b player in Hstale.
  pose proof (isCheckmate_needs_check b player None) as Hneeds.
  assert ((3 <=? occurrences (positionHistory state) (gameStateToSfen state))%nat
          = true <-> repeated) as Hrep by apply Nat.leb_le.
  destruct (isCheckmate b player None) eqn:Hmate.
  { destruct (isInCheck b player); [|specialize (Hneeds eq_refl); discriminate].
    split; [|split; [|split; [|split]]]; try intros winner;
      try discriminate; split; try discriminate; intros H;
      decompose [and] H; discriminate. }
  clear Hneeds.
  destruct (isStalemate state) eqn:Hst.
  { destruct Hstale as [Hs _]. destruct (Hs eq_refl) as [Hc Hn].
    rewrite Hc, Hn.
    split; [|split; [|split; [|split]]]; try intros winner; try discriminate.
    - split; [intros H; injection H as <-; auto | intros [_ [_ ->]]; reflexivity].
    - split; [discriminate | intros [H _]; discriminate].
    - split; [discriminate | intros [_ [H _]]; now destruct H].
    - split; [discriminate | intros [_ [H _]]; discriminate]. }
  assert (isInCheck b player = false -> getAllLegalMoves state <> []) as Hmoves.
  { intros Hc Hn. destruct Hstale as [_ Hs].
    assert (false = true) as Habs by (apply Hs; now split).
    discriminate. }
  destruct (3 <=? occurrences (positionHistory state)
                              (gameStateToSfen state))%nat eqn:Hocc.
  - assert repeated as Hr by now apply Hrep.
    destruct (isInCheck b player) eqn:Hc.
    + split; [|split; [|split; [|split]]]; try intros winner; try discriminate.
      * split; [discriminate | intros [H _]; discriminate].
      * split; [intros H; injection H as <-; auto | intros [_ [_ [_ ->]]]; reflexivity].
      * split; [discriminate | intros [H _]; discriminate].
      * split; [discriminate | intros [_ [_ H]]; now destruct H].
    + split; [|split; [|split; [|split]]]; try intros winner; try discriminate.
      * split; [discriminate | intros [_ [H _]]; now destruct (Hmoves eq_refl)].
      * split; [discriminate | intros [H _]; discriminate].
      * split; [intros _; auto | reflexivity].
      * split; [discriminate | intros [_ [_ H]]; now destruct H].
  - assert (~ repeated) as Hr
        by (intros H; apply Hrep in H; discriminate).
    split; [|split; [|split; [|split]]]; try intros winner; try discriminate.
    + split; [discriminate|]. intros [Hc [Hn _]]. now destruct (Hmoves Hc).
    + split; [discriminate | intros [_ [_ [H _]]]; now destruct Hr].
    + split; [discriminate | intros [_ [_ H]]; now destruct Hr].
    + split; [auto | reflexivity].
Qed.

(** ** How the caller advances the game *)

Lemma executeMoveWithPromotion_next (gameState next : GameState)
      (src dst : Position) (prom : bool) (p : Piece) :
  getPieceAt (board gameState) src = Some p ->
  App.executeMoveWithPromotion gameState src dst prom = inr next ->
  let moveAction :=
    mkMoveAction src dst (type p)
                 (option_map type (getPieceAt (board gameState) dst)) prom in
  board next = newBoard (applyMove (board gameState) moveAction)
  /\ currentPlayer next = opponentOf (currentPlayer gameState)
  /\ moveHistory next = moveHistory gameState ++ [MoveOf moveAction]
  /\ positionHistory next
     = positionHistory gameState ++ [gameStateToSfen next]
  /\ moveCount next = moveCount gameState + 1
  /\ gamePhase next = determineGamePhase (moveCount next)
  /\ isCheck next = isInCheck (board next) (currentPlayer next).
Proof.
  unfold App.executeMoveWithPromotion. intros Hp. rewrite Hp.
  destruct (capturedPiece _) as [cap|].
  - destruct (toHandPieceType (type cap)); [discriminate|].
    intros H. injection H as <-. repeat split; reflexivity.
  - intros H. injection H as <-. repeat split; reflexivity.
Qed.

Lemma executeDrop_next (gameState next : GameState) (k : HandPieceType)
      (dst : Position) :
  App.executeDrop gameState k dst = inr next ->
  board next
  = applyDrop (board gameState) (mkDropAction dst k) (currentPlayer gameState)
  /\ currentPlayer next = opponentOf (currentPlayer gameState)
  /\ moveHistory next
     = moveHistory gameState ++ [DropOf (mkDropAction dst k)]
  /\ positionHistory next
     = positionHistory gameState ++ [gameStateToSfen next]
  /\ moveCount next = moveCount gameState + 1
  /\ gamePhase next = determineGamePhase (moveCount next)
  /\ isCheck next = isInCheck (board next) (currentPlayer next).
Proof.
  unfold App.executeDrop.
  destruct (removeFromHand _ k); [discriminate|].
  intros H. injection H as <-. repeat split; reflexivity.
Qed.

Lemma recorded_step (gameState next : GameState) (mv : Move) :
  recorded gameState ->
  moveHistory next = moveHistory gameState ++ [mv] ->
  positionHistory next = positionHistory gameState ++ [gameStateToSfen next] ->
  moveCount next = moveCount gameState + 1 ->
  recorded next.
Proof.
  intros [Hpos [Hmov _]] Hm Hp Hc. unfold recorded.
  rewrite Hm, Hp, Hc, !length_app, last_last. cbn [List.length].
  split; [lia|]. split; [lia | reflexivity].
Qed.

(** X20. The caller keeps the game record in step.  From a state with one
    recorded position more than plies played and one recorded move per ply,
    [executeMoveWithPromotion] from an occupied square and [executeDrop],
    when they return, give a state with the same property, the side to move
    flipped, the ply count raised by one, and the state's own encoding as
    the last recorded position; the initial state has the property.
    [executeMoveWithPromotion] from an empty square changes nothing, and
    [executeDrop] throws exactly when the kind is not held. *)
Theorem caller_keeps_record (gameState : GameState) :
  recorded App.createInitialState
  /\ (forall src dst prom next,
        recorded gameState ->
        getPieceAt (board gameState) src <> None ->
        App.executeMoveWithPromotion gameState src dst prom = inr next ->
        recorded next
        /\ currentPlayer next = opponentOf (currentPlayer gameState)
        /\ moveCount next = moveCount gameState + 1)
  /\ (forall k dst next,
        recorded gameState ->
        App.executeDrop gameState k dst = inr next ->
        recorded next
        /\ currentPlayer next = opponentOf (currentPlayer gameState)
        /\ moveCount next = moveCount gameState + 1)
  /\ (forall src dst prom,
        getPieceAt (board gameState) src = None ->
        App.executeMoveWithPromotion gameState src dst prom = inr gameState)
  /\ (forall k dst,
        (exists msg, App.executeDrop gameState k dst = inl msg)
        <-> handCount (handOf (hands gameState) (currentPlayer gameState)) k
            <= 0).
Proof.
  split; [|split; [|split; [|split]]].
  - unfold recorded. vm_compute. repeat split; reflexivity.
  - intros src dst prom next Hrec Hsrc Hexec.
    destruct (getPieceAt (board gameState) src) as [p|] eqn:Hp;
      [|now destruct Hsrc].
    destruct (executeMoveWithPromotion_next _ _ _ _ _ _ Hp Hexec)
      as [_ [Hside [Hm [Hh [Hc _]]]]].
    split; [now apply (recorded_step gameState next _ Hrec Hm Hh Hc)|].
    now split.
  - intros k dst next Hrec Hexec.
    destruct (executeDrop_next _ _ _ _ Hexec) as [_ [Hside [Hm [Hh [Hc _]]]]].
    split; [now apply (recorded_step gameState next _ Hrec Hm Hh Hc)|].
    now split.
  - intros src dst prom Hsrc. unfold App.executeMoveWithPromotion.
    now rewrite Hsrc.
  - intros k dst. unfold App.executeDrop, removeFromHand.
    destruct (Z.leb_spec (handCount (handOf (hands gameState)
                                            (currentPlayer gameState)) k) 0)
      as [Hle|Hgt].
    + split; [intros _; exact Hle | intros _; eexists; reflexivity].
    + split; [intros [msg H]; discriminate | lia].
Qed.

(** ** Material is conserved *)

Lemma allIndices_NoDup : NoDup allIndices.
Proof.
  assert (nodup indexPairDec allIndices = allIndices) as H
      by (vm_compute; reflexivity).
  rewrite <- H. apply NoDup_nodup.
Qed.

Lemma sum_changed_at {A : Type} (f g : A -> Z) (x : A) (l : list A) :
  NoDup l -> In x l ->
  (forall y, In y l -> y <> x -> g y = f y) ->
  fold_right (fun y n => g y + n) 0 l
  = fold_right (fun y n => f y + n) 0 l - f x + g x.
Proof.
  induction l as [|a l IH]; intros Hnd Hin Hsame; [destruct Hin|].
  inversion Hnd as [|? ? Hnotin Hnd']; subst. cbn [fold_right].
  destruct Hin as [->|Hin].
  - assert (fold_right (fun y n => g y + n) 0 l
            = fold_right (fun y n => f y + n) 0 l) as Hrest.
    { clear IH Hnd Hnd'. induction l as [|b l IHl]; [reflexivity|].
      cbn [fold_right]. rewrite (Hsame b).
      - rewrite IHl; [reflexivity | |].
        + intros H. apply Hnotin. now right.
        + intros y Hy Hne. apply Hsame; [|exact Hne].
          destruct Hy as [->|Hy]; [now left | now right; right].
      - now right; left.
      - intros ->. apply Hnotin. now left. }
    rewrite Hrest. lia.
  - rewrite (Hsame a); [|now left | intros ->; now apply Hnotin].
    rewrite IH; [lia | exact Hnd' | exact Hin |].
    intros y Hy Hne. apply Hsame; [now right | exact Hne].
Qed.

Lemma wellShaped_writable (b : Board) (r c : Z) :
  wellShaped b -> 0 <= r < 9 -> 0 <= c < 9 -> writable b r c = true.
Proof.
  intros Hb Hr Hc. unfold writable.
  rewrite (wellShaped_row b r Hb Hr). destruct Hb as [-> _].
  rewrite !andb_true_iff, !Z.leb_le, !Nat.ltb_lt. lia.
Qed.

Lemma piecesOnBoard_boardPut (b : Board) (r c : Z) (sq : Square) :
  wellShaped b -> 0 <= r < 9 -> 0 <= c < 9 ->
  piecesOnBoard (boardPut b r c sq)
  = piecesOnBoard b - occupied (boardAt b r c) + occupied sq.
Proof.
  intros Hb Hr Hc. unfold piecesOnBoard.
  rewrite (sum_changed_at
             (fun rc => occupied (boardAt b (fst rc) (snd rc)))
             (fun rc => occupied (boardAt (boardPut b r c sq) (fst rc) (snd rc)))
             (r, c) allIndices allIndices_NoDup).
  - cbn [fst snd]. rewrite boardAt_boardPut by lia.
    rewrite !Z.eqb_refl, (wellShaped_writable b r c Hb Hr Hc). reflexivity.
  - apply allIndices_In. cbn [fst snd]. lia.
  - intros [r' c'] Hin Hne. apply allIndices_In in Hin. cbn [fst snd] in *.
    rewrite boardAt_boardPut by lia.
    destruct (Z.eqb_spec r' r) as [->|Hr']; [|reflexivity].
    destruct (Z.eqb_spec c' c) as [->|Hc']; [now destruct Hne | reflexivity].
Qed.

Lemma handTotal_handWith (hand : Hand) (k : HandPieceType) (n : Z) :
  handTotal (handWith hand k n) = handTotal hand - handCount hand k + n.
Proof.
  unfold handTotal, handPieces. destruct hand, k; cbn; lia.
Qed.

Lemma hands_total_handsWith (hs : Hands) (player : Player) (h : Hand) :
  handTotal (senteHand (handsWith hs player h))
  + handTotal (goteHand (handsWith hs player h))
  = handTotal (senteHand hs) + handTotal (goteHand hs)
    - handTotal (handOf hs player) + handTotal h.
Proof. destruct player; cbn [handsWith handOf senteHand goteHand]; lia. Qed.

Lemma applyMove_capturedPiece (b : Board) (move : MoveAction) :
  capturedPiece (applyMove b move) = getPieceAt b (to move).
Proof.
  unfold applyMove, getPieceAt. rewrite cloneBoard_same.
  destruct (positionToIndex (from move)) as [fr fc].
  destruct (positionToIndex (to move)) as [tr tc].
  destruct (boardAt b fr fc) as [mp|]; [|reflexivity].
  destruct (promote move && _ && _); [|reflexivity].
  now destruct (promotePiece (type mp)).
Qed.

Lemma piecesOnBoard_applyMove (b : Board) (move : MoveAction) (mp : Piece) :
  wellShaped b -> onBoard (from move) -> onBoard (to move) ->
  from move <> to move -> getPieceAt b (from move) = Some mp ->
  piecesOnBoard (newBoard (applyMove b move))
  = piecesOnBoard b - occupied (getPieceAt b (to move)).
Proof.
  intros Hb [Hfc Hfr] [Htc Htr] Hne Hmp.
  rewrite applyMove_newBoard. unfold positionToIndex. rewrite Hmp.
  rewrite piecesOnBoard_boardPut; [| now apply boardPut_wellShaped | lia | lia].
  rewrite piecesOnBoard_boardPut by (assumption || lia).
  rewrite boardAt_boardPut by lia.
  rewrite !boardAt_getPieceAt, Hmp.
  replace ((row (to move) - 1 =? row (from move) - 1)
           && (9 - col (to move) =? 9 - col (from move))) with false.
  - cbn [andb occupied]. lia.
  - symmetry. apply andb_false_iff.
    destruct (Z.eqb_spec (row (to move) - 1) (row (from move) - 1)) as [Hr|Hr];
      [|now left].
    right. apply Z.eqb_neq. intros Hc. apply Hne.
    destruct (from move) as [c1 r1], (to move) as [c2 r2]. cbn [col row] in *.
    f_equal; lia.
Qed.

Lemma piecesOnBoard_applyDrop (b : Board) (drop : DropAction) (player : Player) :
  wellShaped b -> onBoard (dropTo drop) -> getPieceAt b (dropTo drop) = None ->
  piecesOnBoard (applyDrop b drop player) = piecesOnBoard b + 1.
Proof.
  intros Hb [Hc Hr] Hempty. unfold applyDrop, positionToIndex.
  rewrite cloneBoard_same.
  rewrite piecesOnBoard_boardPut by (assumption || lia).
  rewrite boardAt_getPieceAt, Hempty. cbn [occupied]. lia.
Qed.

Lemma legal_move_playable (state : GameState) (m : MoveAction) :
  In (MoveOf m) (getAllLegalMoves state) ->
  onBoard (from m) /\ onBoard (to m) /\ from m <> to m
  /\ exists mp, getPieceAt (board state) (from m) = Some mp
                /\ owner mp = currentPlayer state.
Proof.
  intros Hin. apply getAllLegalMoves_move in Hin as [Hon Hin].
  split; [exact Hon|].
  apply getLegalMovesForPiece_In in Hin as [Hcand _].
  apply candidateMoves_In in Hcand as [p [dst [Hp [Ho [Hraw Hin]]]]].
  apply candidatesTo_In in Hin as [Hm _].
  apply getRawMoves_landing in Hraw as [Hdst [Hne _]].
  rewrite Hm. cbn [from to]. split; [exact Hdst|].
  split; [intros H; now apply Hne | now exists p].
Qed.

Lemma legal_drop_playable (state : GameState) (d : DropAction) :
  In (DropOf d) (getAllLegalMoves state) ->
  onBoard (dropTo d) /\ getPieceAt (board state) (dropTo d) = None
  /\ 1 <= handCount (handOf (hands state) (currentPlayer state)) (dropPiece d).
Proof.
  intros Hin. apply getAllLegalMoves_drop, getLegalDrops_In in Hin
    as [Hon Hlegal].
  split; [exact Hon|].
  rewrite isLegalDrop_tests, !andb_true_iff in Hlegal.
  destruct Hlegal as [[[[[Hcount Hempty] _] _] _] _].
  apply negb_true_iff, Z.leb_gt in Hcount.
  split; [now destruct (getPieceAt _ _) | lia].
Qed.

(** X21. Applying a legal move conserves material: on a board of the
    declared shape, when [applyMoveToState] (the function both search
    engines use) returns for a move of [getAllLegalMoves], the pieces on the
    board and in the two hands number as many as before, a captured piece
    having gone to the mover's hand and a dropped piece having left it; and
    the board keeps its shape. *)
Theorem legal_move_conserves_material (state state' : GameState) (mv : Move)
        (Hshape : wellShaped (board state))
        (Hlegal : In mv (getAllLegalMoves state))
        (Happlied : MultiStageEngine.applyMoveToState state mv = inr state') :
  material state' = material state /\ wellShaped (board state').
Proof.
  unfold MultiStageEngine.applyMoveToState in Happlied. unfold material.
  destruct mv as [m|d].
  - destruct (legal_move_playable state m Hlegal)
      as [Hfrom [Hto [Hne [mp [Hmp _]]]]].
    rewrite applyMove_capturedPiece in Happlied.
    pose proof (piecesOnBoard_applyMove (board state) m mp Hshape Hfrom Hto
                                        Hne Hmp) as Hcount.
    destruct (getPieceAt (board state) (to m)) as [cap|].
    + destruct (toHandPieceType (type cap)) as [e|k]; [discriminate|].
      injection Happlied as <-. cbn [board hands].
      split; [|now apply applyMove_wellShaped].
      rewrite Hcount. cbn [occupied].
      pose proof (hands_total_handsWith (hands state) (currentPlayer state)
                    (addToHand (handOf (hands state) (currentPlayer state)) k))
        as Hh.
      unfold addToHand in Hh at 3. rewrite handTotal_handWith in Hh. lia.
    + injection Happlied as <-. cbn [board hands].
      split; [|now apply applyMove_wellShaped].
      rewrite Hcount. cbn [occupied]. lia.
  - destruct (legal_drop_playable state d Hlegal) as [Hon [Hempty _]].
    unfold removeFromHand in Happlied.
    destruct (handCount _ (dropPiece d) <=? 0); [discriminate|].
    injection Happlied as <-. cbn [board hands].
    split; [|now apply applyDrop_wellShaped].
    rewrite (piecesOnBoard_applyDrop _ _ _ Hshape Hon Hempty).
    pose proof (hands_total_handsWith (hands state) (currentPlayer state)
                  (handWith (handOf (hands state) (currentPlayer state))
                            (dropPiece d)
                            (handCount (handOf (hands state)
                                               (currentPlayer state))
                                       (dropPiece d) - 1))) as Hh.
    rewrite handTotal_handWith in Hh. lia.
Qed.

Lemma legal_move_conserves_material_witness :
  exists state',
    MultiStageEngine.applyMoveToState hangingGoldState
      (MoveOf (mkMoveAction (mkPosition 3 4) (mkPosition 3 3) pawn (Some gold)
                            true)) = inr state'
    /\ material state' = material hangingGoldState
    /\ handCount (senteHand (hands state')) handGold = 1.
Proof.
  eexists. split; [vm_compute; reflexivity|]. split; [|reflexivity].
  refine (proj1 (legal_move_conserves_material hangingGoldState _
                   (MoveOf (mkMoveAction (mkPosition 3 4) (mkPosition 3 3)
                                         pawn (Some gold) true)) _ _ _)).
  - apply wellShaped_by_scan. reflexivity.
  - vm_compute. now left.
  - vm_compute. reflexivity.
Defined.

(* ================================================================== *)
(** ** The search proposes legal moves only *)

Lemma captureLoop_count
      (recurse : GameState -> float -> float -> Z -> Thrown (float * Z))
      (state : GameState) (maximizing : bool) (standPat : float) :
  (forall s a b c sc c', recurse s a b c = inr (sc, c') -> c < c') ->
  forall ms alpha beta count sc count',
    MultiStageEngine.captureLoop recurse state maximizing standPat ms alpha
                                 beta count = inr (sc, count') ->
    count <= count'.
Proof.
  intros Hrec. induction ms as [|mv ms IH]; intros alpha beta count sc count' H;
    cbn [MultiStageEngine.captureLoop] in H.
  - injection H as _ <-. lia.
  - destruct (MultiStageEngine.deltaPruned _ _ _ _ _); [now apply IH in H|].
    destruct (MultiStageEngine.applyMoveToState state mv) as [e|ns];
      [discriminate|].
    destruct (recurse ns alpha beta count) as [e|[sc1 c1]] eqn:Hr;
      [discriminate|].
    apply Hrec in Hr.
    destruct maximizing.
    + destruct (PrimFloat.leb beta _).
      * injection H as _ <-. lia.
      * apply IH in H. lia.
    + destruct (PrimFloat.leb _ alpha).
      * injection H as _ <-. lia.
      * apply IH in H. lia.
Qed.

Lemma quiescenceWalk_count (remaining : nat) :
  forall state alpha beta maximizing count sc count',
    MultiStageEngine.quiescenceWalk remaining state alpha beta maximizing count
    = inr (sc, count') ->
    count < count'.
Proof.
  induction remaining as [|remaining IH];
    intros state alpha beta maximizing count sc count' H;
    cbn [MultiStageEngine.quiescenceWalk] in H.
  - injection H as _ <-. lia.
  - destruct (maximizing && PrimFloat.leb beta _); [injection H as _ <-; lia|].
    destruct (negb maximizing && PrimFloat.leb _ alpha);
      [injection H as _ <-; lia|].
    destruct (filter isCapture (getAllLegalMoves state));
      [injection H as _ <-; lia|].
    apply captureLoop_count in H; [lia|].
    intros s a b c sc1 c1 Hr. now apply IH in Hr.
Qed.

Lemma multiStage_minimax_sound (depth : nat) :
  forall state alpha beta maximizing count r,
    MultiStageEngine.minimax state depth alpha beta maximizing count = inr r ->
    count < MultiStageEngine.nodesSearched r
    /\ forall mv, MultiStageEngine.move r = Some mv ->
                  In mv (getAllLegalMoves state).
Proof.
  induction depth as [|depth IH]; intros state alpha beta maximizing count r H;
    cbn [MultiStageEngine.minimax] in H.
  - destruct (MultiStageEngine.quiescenceSearch _ _ _ _ _ _) as [e|[sc c]] eqn:Hq;
      [discriminate|].
    injection H as <-. cbn [MultiStageEngine.nodesSearched MultiStageEngine.move].
    apply quiescenceWalk_count in Hq.
    split; [lia | discriminate].
  - destruct (getAllLegalMoves state) as [|m0 l0] eqn:Hmoves.
    + destruct (isInCheck _ _); injection H as <-;
        cbn [MultiStageEngine.nodesSearched MultiStageEngine.move];
        (split; [lia | discriminate]).
    + rewrite <- Hmoves in *.
      assert (forall mv, In mv (sortBy MultiStageEngine.moveOrder
                                       (getAllLegalMoves state)) ->
                         In mv (getAllLegalMoves state)) as Hperm.
      { intros mv. apply Permutation_in, sortBy_perm. }
      revert H Hperm.
      generalize (sortBy MultiStageEngine.moveOrder (getAllLegalMoves state))
        as ms.
      assert (forall mv : Move, @None Move = Some mv ->
                                In mv (getAllLegalMoves state)) as Hbest
          by discriminate.
      revert Hbest. generalize (@None Move) as bestMove.
      generalize (if maximizing then PrimFloat.neg_infinity
                  else PrimFloat.infinity) as best.
      assert (count < count + 1) as Hcount by lia.
      revert Hcount. generalize (count + 1) as count1.
      clear Hmoves m0 l0.
      intros count1 Hcount best bestMove Hbest ms.
      revert alpha beta count1 Hcount best bestMove Hbest.
      induction ms as [|mv ms IHms];
        intros alpha beta count1 Hcount best bestMove Hbest H Hperm.
      * injection H as <-.
        cbn [MultiStageEngine.nodesSearched MultiStageEngine.move].
        split; [lia | exact Hbest].
      * destruct (MultiStageEngine.applyMoveToState state mv) as [e|ns];
          [discriminate|].
        destruct (MultiStageEngine.minimax ns depth alpha beta
                                           (negb maximizing) count1)
          as [e|r1] eqn:Hr1; [discriminate|].
        apply IH in Hr1 as [Hc1 _].
        assert (forall b0 : bool, forall mv',
                   (if b0 then Some mv else bestMove) = Some mv' ->
                   In mv' (getAllLegalMoves state)) as Hbest'.
        { intros [|] mv' Hmv'; [|now apply Hbest].
          injection Hmv' as <-. apply Hperm. now left. }
        destruct maximizing.
        -- destruct (PrimFloat.leb beta _).
           ++ injection H as <-.
              cbn [MultiStageEngine.nodesSearched MultiStageEngine.move].
              split; [lia | apply Hbest'].
           ++ apply IHms in H; [exact H | lia | apply Hbest' |].
              intros mv' Hin. apply Hperm. now right.
        -- destruct (PrimFloat.leb _ alpha).
           ++ injection H as <-.
              cbn [MultiStageEngine.nodesSearched MultiStageEngine.move].
              split; [lia | apply Hbest'].
           ++ apply IHms in H; [exact H | lia | apply Hbest' |].
              intros mv' Hin. apply Hperm. now right.
Qed.

Lemma intermediate_minimax_sound (depth : nat) :
  forall state alpha beta maximizing count r,
    Intermediate.minimax state depth alpha beta maximizing count = inr r ->
    count < Intermediate.nodesSearched r
    /\ forall mv, Intermediate.move r = Some mv ->
                  In mv (getAllLegalMoves state).
Proof.
  induction depth as [|depth IH]; intros state alpha beta maximizing count r H;
    cbn [Intermediate.minimax] in H.
  - injection H as <-. cbn [Intermediate.nodesSearched Intermediate.move].
    split; [lia | discriminate].
  - destruct (getAllLegalMoves state) as [|m0 l0] eqn:Hmoves.
    + destruct (isInCheck _ _); injection H as <-;
        cbn [Intermediate.nodesSearched Intermediate.move];
        (split; [lia | discriminate]).
    + rewrite <- Hmoves in *.
      assert (forall mv, In mv (sortBy Intermediate.moveOrder
                                       (getAllLegalMoves state)) ->
                         In mv (getAllLegalMoves state)) as Hperm.
      { intros mv. apply Permutation_in, sortBy_perm. }
      revert H Hperm.
      generalize (sortBy Intermediate.moveOrder (getAllLegalMoves state))
        as ms.
      assert (forall mv : Move, @None Move = Some mv ->
                                In mv (getAllLegalMoves state)) as Hbest
          by discriminate.
      revert Hbest. generalize (@None Move) as bestMove.
      generalize (if maximizing then PrimFloat.neg_infinity
                  else PrimFloat.infinity) as best.
      assert (count < count + 1) as Hcount by lia.
      revert Hcount. generalize (count + 1) as count1.
      clear Hmoves m0 l0.
      intros count1 Hcount best bestMove Hbest ms.
      revert alpha beta count1 Hcount best bestMove Hbest.
      induction ms as [|mv ms IHms];
        intros alpha beta count1 Hcount best bestMove Hbest H Hperm.
      * injection H as <-.
        cbn [Intermediate.nodesSearched Intermediate.move].
        split; [lia | exact Hbest].
      * destruct (Intermediate.applyMoveToState state mv) as [e|ns];
          [discriminate|].
        destruct (Intermediate.minimax ns depth alpha beta
                                       (negb maximizing) count1)
          as [e|r1] eqn:Hr1; [discriminate|].
        apply IH in Hr1 as [Hc1 _].
        assert (forall b0 : bool, forall mv',
                   (if b0 then Some mv else bestMove) = Some mv' ->
                   In mv' (getAllLegalMoves state)) as Hbest'.
        { intros [|] mv' Hmv'; [|now apply Hbest].
          injection Hmv' as <-. apply Hperm. now left. }
        destruct maximizing.
        -- destruct (PrimFloat.leb beta _).
           ++ injection H as <-.
              cbn [Intermediate.nodesSearched Intermediate.move].
              split; [lia | apply Hbest'].
           ++ apply IHms in H; [exact H | lia | apply Hbest' |].
              intros mv' Hin. apply Hperm. now right.
        -- destruct (PrimFloat.leb _ alpha).
           ++ injection H as <-.
              cbn [Intermediate.nodesSearched Intermediate.move].
              split; [lia | apply Hbest'].
           ++ apply IHms in H; [exact H | lia | apply Hbest' |].
              intros mv' Hin. apply Hperm. now right.
Qed.

(** X22. The search of ai/multiStageEngine proposes legal moves only.
    Whenever [minimax] returns, at any depth and with any window, the move it
    names, if any, is one of [getAllLegalMoves] of the state searched, and
    the node counter has grown; at depth zero, and when the state has no
    legal move, it names no move. *)
Theorem multiStage_minimax_proposes_legal_move
        (depth : nat) (state : GameState) (alpha beta : float)
        (maximizing : bool) (count : Z) (r : MultiStageEngine.MinimaxResult)
        (Hreturns : MultiStageEngine.minimax state depth alpha beta maximizing
                                             count = inr r) :
  count < MultiStageEngine.nodesSearched r
  /\ (forall mv, MultiStageEngine.move r = Some mv ->
                 In mv (getAllLegalMoves state))
  /\ (depth = 0%nat \/ getAllLegalMoves state = [] ->
      MultiStageEngine.move r = None).
Proof.
  destruct (multiStage_minimax_sound depth state alpha beta maximizing count r
                                     Hreturns) as [Hcount Hlegal].
  split; [exact Hcount|]. split; [exact Hlegal|].
  intros [Hd|Hnone].
  - subst depth. cbn [MultiStageEngine.minimax] in Hreturns.
    destruct (MultiStageEngine.quiescenceSearch _ _ _ _ _ _) as [e|[sc c]];
      [discriminate|].
    now injection Hreturns as <-.
  - destruct (MultiStageEngine.move r) as [mv|]; [|reflexivity].
    specialize (Hlegal mv eq_refl). rewrite Hnone in Hlegal. destruct Hlegal.
Qed.

Lemma multiStage_minimax_proposes_legal_move_witness :
  exists r,
    MultiStageEngine.search 2 hangingGoldState = inr r
    /\ 0 < MultiStageEngine.nodesSearched r
    /\ (forall mv, MultiStageEngine.move r = Some mv ->
                   In mv (getAllLegalMoves hangingGoldState))
    /\ (2%nat = 0%nat \/ getAllLegalMoves hangingGoldState = [] ->
        MultiStageEngine.move r = None).
Proof.
  eexists. split; [vm_compute; reflexivity|].
  apply (multiStage_minimax_proposes_legal_move
           2 hangingGoldState PrimFloat.neg_infinity PrimFloat.infinity true 0).
  vm_compute. reflexivity.
Defined.

(** X23. The search of ai/intermediate proposes legal moves only.  Whenever
    its [minimax] returns, the move it names, if any, is one of
    [getAllLegalMoves] of the state searched, and the node counter has
    grown; at depth zero, and when the state has no legal move, it names no
    move and has counted the one node. *)
Theorem intermediate_minimax_proposes_legal_move
        (depth : nat) (state : GameState) (alpha beta : float)
        (maximizing : bool) (count : Z) (r : Intermediate.SearchResult)
        (Hreturns : Intermediate.minimax state depth alpha beta maximizing
                                         count = inr r) :
  count < Intermediate.nodesSearched r
  /\ (forall mv, Intermediate.move r = Some mv ->
                 In mv (getAllLegalMoves state))
  /\ (depth = 0%nat \/ getAllLegalMoves state = [] ->
      Intermediate.move r = None
      /\ Intermediate.nodesSearched r = count + 1).
Proof.
  destruct (intermediate_minimax_sound depth state alpha beta maximizing count
                                       r Hreturns) as [Hcount Hlegal].
  split; [exact Hcount|]. split; [exact Hlegal|].
  intros Hcase.
  destruct depth as [|depth]; cbn [Intermediate.minimax] in Hreturns.
  - injection Hreturns as <-. split; reflexivity.
  - destruct Hcase as [Hd|Hnone]; [discriminate|].
    rewrite Hnone in Hreturns.
    destruct (isInCheck _ _); injection Hreturns as <-; split; reflexivity.
Qed.

Lemma intermediate_minimax_proposes_legal_move_witness :
  exists r,
    Intermediate.search 2 hangingGoldState = inr r
    /\ 0 < Intermediate.nodesSearched r
    /\ (forall mv, Intermediate.move r = Some mv ->
                   In mv (getAllLegalMoves hangingGoldState))
    /\ (2%nat = 0%nat \/ getAllLegalMoves hangingGoldState = [] ->
        Intermediate.move r = None
        /\ Intermediate.nodesSearched r = 0 + 1).
Proof.
  eexists. split; [vm_compute; reflexivity|].
  apply (intermediate_minimax_proposes_legal_move
           2 hangingGoldState PrimFloat.neg_infinity PrimFloat.infinity true 0).
  vm_compute. reflexivity.
Defined.

(** ** Applying a legal move in the search *)

Lemma legal_move_target (state : GameState) (m : MoveAction) :
  In (MoveOf m) (getAllLegalMoves state) ->
  captured m = option_map type (getPieceAt (board state) (to m))
  /\ forall tp, getPieceAt (board state) (to m) = Some tp ->
                owner tp = opponentOf (currentPlayer state).
Proof.
  intros Hin. apply getAllLegalMoves_move in Hin as [_ Hin].
  apply getLegalMovesForPiece_In in Hin as [Hcand _].
  apply candidateMoves_In in Hcand as [p [dst [_ [_ [Hraw Hin]]]]].
  apply candidatesTo_In in Hin as [Hm _].
  apply getRawMoves_landing in Hraw as [_ [_ Hown]].
  rewrite Hm. cbn [captured to]. split; [reflexivity | exact Hown].
Qed.

Lemma toHandPieceType_cases (t : AllPieceType) :
  (t = king /\ toHandPieceType t = inl "King cannot be captured"%string)
  \/ (t <> king /\ exists k, toHandPieceType t = inr k).
Proof.
  destruct t; try (left; split; reflexivity);
    right; (split; [discriminate | eexists; reflexivity]).
Qed.

(** X24. What [applyMoveToState] (of both search engines) does with a move
    of [getAllLegalMoves].  It throws exactly when the move lands on a king,
    which is then the opponent's, and the move records it as captured; the
    message is that of [toHandPieceType]; a drop never throws.  When it
    returns, the side to move is flipped and the ply count raised by one,
    while the recorded moves and positions, the phase, the result and the
    check flag are left as they were: inside the search no position is
    recorded. *)
Theorem applyMoveToState_on_legal_move (state : GameState) (mv : Move)
        (Hlegal : In mv (getAllLegalMoves state)) :
  ((exists msg, MultiStageEngine.applyMoveToState state mv = inl msg)
   <-> exists m tp,
         mv = MoveOf m
         /\ getPieceAt (board state) (to m) = Some tp
         /\ type tp = king
         /\ owner tp = opponentOf (currentPlayer state)
         /\ captured m = Some king)
  /\ (forall msg,
        MultiStageEngine.applyMoveToState state mv = inl msg ->
        msg = "King cannot be captured"%string)
  /\ (forall state',
        MultiStageEngine.applyMoveToState state mv = inr state' ->
        board state' = boardAfter (board state) (currentPlayer state) mv
        /\ currentPlayer state' = opponentOf (currentPlayer state)
        /\ moveCount state' = moveCount state + 1
        /\ moveHistory state' = moveHistory state
        /\ positionHistory state' = positionHistory state
        /\ gamePhase state' = gamePhase state
        /\ result state' = result state
        /\ isCheck state' = isCheck state)
  /\ Intermediate.applyMoveToState state mv
     = MultiStageEngine.applyMoveToState state mv.
Proof.
  unfold Intermediate.applyMoveToState, MultiStageEngine.applyMoveToState,
    boardAfter.
  destruct mv as [m|d].
  - destruct (legal_move_target state m Hlegal) as [Hcap Hown].
    rewrite applyMove_capturedPiece.
    destruct (getPieceAt (board state) (to m)) as [tp|] eqn:Htp.
    + specialize (Hown tp eq_refl). cbn [option_map] in Hcap.
      destruct (toHandPieceType_cases (type tp)) as [[Hk Hthrow]|[Hk [k Hret]]].
      * rewrite Hthrow. split; [|split; [|split]].
        -- split; [|intros _; now eexists].
           intros _. exists m, tp. rewrite Hcap, Hk. now repeat split.
        -- intros msg H. now injection H as <-.
        -- intros state' H. discriminate.
        -- reflexivity.
      * rewrite Hret. split; [|split; [|split]].
        -- split; [intros [msg H]; discriminate|].
           intros [m' [tp' [Hm [Htp' [Hking _]]]]].
           injection Hm as <-. rewrite Htp' in Htp. injection Htp as ->.
           contradiction.
        -- intros msg H. discriminate.
        -- intros state' H. injection H as <-.
           cbn [board currentPlayer moveCount moveHistory positionHistory
                gamePhase result isCheck].
           now repeat split.
        -- reflexivity.
    + split; [|split; [|split]].
      * split; [intros [msg H]; discriminate|].
        intros [m' [tp' [Hm [Htp' _]]]]. injection Hm as <-.
        rewrite Htp' in Htp. discriminate.
      * intros msg H. discriminate.
      * intros state' H. injection H as <-.
        cbn [board currentPlayer moveCount moveHistory positionHistory
             gamePhase result isCheck].
        now repeat split.
      * reflexivity.
  - destruct (legal_drop_playable state d Hlegal) as [_ [_ Hheld]].
    unfold removeFromHand.
    destruct (Z.leb_spec
                (handCount (handOf (hands state) (currentPlayer state))
                           (dropPiece d)) 0) as [Hle|Hgt]; [lia|].
    split; [|split; [|split]].
    + split; [intros [msg H]; discriminate|].
      intros [m' [tp' [Hm _]]]. discriminate.
    + intros msg H. discriminate.
    + intros state' H. injection H as <-.
      cbn [board currentPlayer moveCount moveHistory positionHistory
           gamePhase result isCheck].
      now repeat split.
    + reflexivity.
Qed.

Lemma applyMoveToState_on_legal_move_witness :
  exists state',
    MultiStageEngine.applyMoveToState corneredKingState
      (DropOf (mkDropAction (mkPosition 1 8) handGold)) = inr state'
    /\ currentPlayer state' = gote
    /\ moveCount state' = 1
    /\ positionHistory state' = [].
Proof.
  eexists. split; [vm_compute; reflexivity|].
  destruct (applyMoveToState_on_legal_move
              corneredKingState
              (DropOf (mkDropAction (mkPosition 1 8) handGold)))
    as [_ [_ [Hret _]]].
  - vm_compute. tauto.
  - destruct (Hret _ eq_refl) as [_ [Hside [Hcount [_ [Hpos _]]]]].
    split; [exact Hside|]. split; [exact Hcount | exact Hpos].
Defined.

(** ** The order in which the search tries the moves *)

Lemma allCaptures_all (c : option AllPieceType) : In c allCaptures.
Proof.
  destruct c as [t|]; [|now left].
  right. apply in_map, allKinds_all.
Qed.

Lemma bools_all (q : bool) : In q [true; false].
Proof. destruct q; cbn; tauto. Qed.

Lemma moveOrder_sign_table :
  forallb (fun c1 => forallb (fun p1 => forallb (fun q1 =>
  forallb (fun c2 => forallb (fun p2 => forallb (fun q2 =>
     let x := MoveOf (mkMoveAction (mkPosition 0 0) (mkPosition 0 0) p1 c1 q1) in
     let y := MoveOf (mkMoveAction (mkPosition 0 0) (mkPosition 0 0) p2 c2 q2) in
     Bool.eqb (PrimFloat.ltb 0 (MultiStageEngine.moveOrder x y))
              (moveRank x <? moveRank y)
     && Bool.eqb (PrimFloat.ltb 0 (Intermediate.moveOrder x y))
                 (captureValue x <? captureValue y))
     [true; false]) allKinds) allCaptures)
     [true; false]) allKinds) allCaptures = true.
Proof. vm_compute. reflexivity. Qed.

Lemma moveOrder_sign (x y : Move) :
  PrimFloat.ltb 0 (MultiStageEngine.moveOrder x y) = (moveRank x <? moveRank y)
  /\ PrimFloat.ltb 0 (Intermediate.moveOrder x y)
     = (captureValue x <? captureValue y).
Proof.
  assert (forall c1 p1 q1 c2 p2 q2,
             let x := MoveOf (mkMoveAction (mkPosition 0 0) (mkPosition 0 0)
                                           p1 c1 q1) in
             let y := MoveOf (mkMoveAction (mkPosition 0 0) (mkPosition 0 0)
                                           p2 c2 q2) in
             PrimFloat.ltb 0 (MultiStageEngine.moveOrder x y)
             = (moveRank x <? moveRank y)
             /\ PrimFloat.ltb 0 (Intermediate.moveOrder x y)
                = (captureValue x <? captureValue y)) as T.
  { intros c1 p1 q1 c2 p2 q2.
    pose proof moveOrder_sign_table as T.
    rewrite forallb_forall in T. specialize (T c1 (allCaptures_all c1)).
    rewrite forallb_forall in T. specialize (T p1 (allKinds_all p1)).
    rewrite forallb_forall in T. specialize (T q1 (bools_all q1)).
    rewrite forallb_forall in T. specialize (T c2 (allCaptures_all c2)).
    rewrite forallb_forall in T. specialize (T p2 (allKinds_all p2)).
    rewrite forallb_forall in T. specialize (T q2 (bools_all q2)).
    apply andb_true_iff in T as [T1 T2].
    apply Bool.eqb_prop in T1. apply Bool.eqb_prop in T2.
    split; [exact T1 | exact T2]. }
  destruct x as [[xs xd xp xc xq]|xd]; destruct y as [[ys yd yp yc yq]|yd].
  - exact (T xc xp xq yc yp yq).
  - exact (T xc xp xq None pawn false).
  - exact (T None pawn false yc yp yq).
  - exact (T None pawn false None pawn false).
Qed.

(** X25. The order in which [minimax] tries the moves.  In
    ai/multiStageEngine the sorted list is a rearrangement of the moves in
    which the rank never rises, the rank being ten times the value of the
    piece taken less the value of the piece moved, plus 300 for a promotion;
    in ai/intermediate it is a rearrangement in which the value of the piece
    taken never rises.  A drop ranks as a quiet move in both. *)
Theorem minimax_move_order (moves : list Move) :
  (Permutation (sortBy MultiStageEngine.moveOrder moves) moves
   /\ StronglySorted (fun a b => moveRank b <= moveRank a)
                     (sortBy MultiStageEngine.moveOrder moves))
  /\ (Permutation (sortBy Intermediate.moveOrder moves) moves
      /\ StronglySorted (fun a b => captureValue b <= captureValue a)
                        (sortBy Intermediate.moveOrder moves))
  /\ (forall d, moveRank (DropOf d) = 0 /\ captureValue (DropOf d) = 0).
Proof.
  split; [|split].
  - split; [apply sortBy_perm|].
    apply (sortBy_sorted _ _ _ (fun _ => True)).
    + intros x y _ _. apply moveOrder_sign.
    + apply Forall_forall. intros mv _. exact I.
  - split; [apply sortBy_perm|].
    apply (sortBy_sorted _ _ _ (fun _ => True)).
    + intros x y _ _. apply moveOrder_sign.
    + apply Forall_forall. intros mv _. exact I.
  - intros d. split; reflexivity.
Qed.

(** ** The destinations shown for a piece *)

Lemma destinationKey_table :
  forallb (fun p => forallb (fun q =>
     implb (String.eqb (destinationKey p) (destinationKey q))
           (positionEqb p q)) allPositions) allPositions = true.
Proof. vm_compute. reflexivity. Qed.

Lemma positionEqb_true (p q : Position) : positionEqb p q = true -> p = q.
Proof.
  unfold positionEqb. rewrite andb_true_iff, !Z.eqb_eq.
  destruct p as [pc pr], q as [qc qr]. cbn [col row]. intros [-> ->].
  reflexivity.
Qed.

Lemma destinationKey_inj (p q : Position) :
  onBoard p -> onBoard q -> destinationKey p = destinationKey q -> p = q.
Proof.
  intros Hp Hq Hkey. pose proof destinationKey_table as T.
  rewrite forallb_forall in T.
  specialize (T p (proj2 (allPositions_In p) Hp)).
  rewrite forallb_forall in T.
  specialize (T q (proj2 (allPositions_In q) Hq)).
  rewrite Hkey, String.eqb_refl in T. cbn [implb] in T.
  now apply positionEqb_true.
Qed.

Lemma destinations_fold (moves : list MoveAction) :
  forall entries : list (string * Position),
    (forall m, In m moves -> onBoard (to m)) ->
    (forall e, In e entries ->
               fst e = destinationKey (snd e) /\ onBoard (snd e)) ->
    NoDup (map snd entries) ->
    let result :=
      fold_left
        (fun (destinations : list (string * Position)) (move : MoveAction) =>
           let key := destinationKey (to move) in
           if existsb (fun entry => String.eqb (fst entry) key) destinations
           then destinations
           else destinations ++ [(key, to move)])
        moves entries in
    NoDup (map snd result)
    /\ forall dst, In dst (map snd result)
                   <-> In dst (map snd entries)
                       \/ exists m, In m moves /\ to m = dst.
Proof.
  induction moves as [|move moves IH]; intros entries Hmoves Hentries Hnodup;
    cbn [fold_left].
  - split; [exact Hnodup|]. intros dst. split; [now left|].
    intros [H|[m [[] _]]]. exact H.
  - assert (onBoard (to move)) as Hto by (apply Hmoves; now left).
    assert (forall m, In m moves -> onBoard (to m)) as Hrest
        by (intros m Hm; apply Hmoves; now right).
    destruct (existsb (fun entry => String.eqb (fst entry)
                                               (destinationKey (to move)))
                      entries) eqn:Hhas.
    + destruct (IH entries Hrest Hentries Hnodup) as [Hnd Hin].
      split; [exact Hnd|]. intros dst. rewrite Hin. split.
      * intros [H|[m [Hm Hdst]]]; [now left|].
        right. exists m. split; [now right | exact Hdst].
      * intros [H|[m [[<-|Hm] Hdst]]]; [now left | | right; now exists m].
        left. apply existsb_exists in Hhas as [[key pos] [He Hkey]].
        apply String.eqb_eq in Hkey. cbn [fst] in Hkey.
        destruct (Hentries _ He) as [Hk Hon]. cbn [fst snd] in Hk, Hon.
        rewrite Hk in Hkey.
        apply destinationKey_inj in Hkey; [|exact Hon | exact Hto].
        subst dst. rewrite <- Hkey. apply in_map_iff.
        exists (key, pos). now split.
    + assert (~ In (to move) (map snd entries)) as Hnew.
      { intros Hin. apply in_map_iff in Hin as [[key pos] [Hpos He]].
        cbn [snd] in Hpos. subst pos.
        destruct (Hentries _ He) as [Hk _]. cbn [fst snd] in Hk.
        assert (existsb (fun entry => String.eqb (fst entry)
                                                 (destinationKey (to move)))
                        entries = true) as Hyes.
        { apply existsb_exists. exists (key, to move).
          split; [exact He|]. cbn [fst]. rewrite Hk. apply String.eqb_refl. }
        rewrite Hyes in Hhas. discriminate. }
      destruct (IH (entries ++ [(destinationKey (to move), to move)]) Hrest)
        as [Hnd Hin].
      * intros e He. apply in_app_iff in He as [He|[<-|[]]];
          [now apply Hentries | now split].
      * rewrite map_app. cbn [map snd].
        apply NoDup_app; repeat split.
        -- exact Hnodup.
        -- constructor; [intros [] | constructor].
        -- intros x Hx [<-|[]]. now apply Hnew.
      * split; [exact Hnd|]. intros dst. rewrite Hin, map_app, in_app_iff.
        cbn [map snd In]. split.
        -- intros [[H|[<-|[]]]|[m [Hm Hdst]]].
           ++ now left.
           ++ right. exists move. split; [now left | reflexivity].
           ++ right. exists m. split; [now right | exact Hdst].
        -- intros [H|[m [[<-|Hm] Hdst]]].
           ++ left. now left.
           ++ left. right. left. exact Hdst.
           ++ right. now exists m.
Qed.

Lemma getLegalMovesForPiece_to (b : Board) (src : Position) (player : Player)
      (m : MoveAction) :
  In m (getLegalMovesForPiece b src player) ->
  onBoard (to m) /\ to m <> src
  /\ forall tp, getPieceAt b (to m) = Some tp -> owner tp = opponentOf player.
Proof.
  intros Hin. apply getLegalMovesForPiece_In in Hin as [Hcand _].
  apply candidateMoves_In in Hcand as [p [dst [_ [_ [Hraw Hin]]]]].
  apply candidatesTo_In in Hin as [Hm _].
  apply getRawMoves_landing in Hraw. rewrite Hm. cbn [to]. exact Hraw.
Qed.

(** X26. [getLegalDestinations] lists, each once, exactly the squares that
    some move of [getLegalMovesForPiece] from the given square goes to: a
    square reached both with and without promotion is shown once.  Every
    square listed is on the board, is not the origin and holds no piece of
    the player. *)
Theorem getLegalDestinations_spec (b : Board) (src : Position)
        (player : Player) :
  NoDup (getLegalDestinations b src player)
  /\ (forall dst,
        In dst (getLegalDestinations b src player)
        <-> exists m, In m (getLegalMovesForPiece b src player) /\ to m = dst)
  /\ (forall dst,
        In dst (getLegalDestinations b src player) ->
        onBoard dst /\ dst <> src
        /\ forall tp, getPieceAt b dst = Some tp -> owner tp = opponentOf player).
Proof.
  unfold getLegalDestinations.
  destruct (destinations_fold (getLegalMovesForPiece b src player) [])
    as [Hnd Hin].
  - intros m Hm. now apply getLegalMovesForPiece_to in Hm.
  - intros e [].
  - constructor.
  - split; [exact Hnd|]. split.
    + intros dst. rewrite Hin. cbn [map In]. tauto.
    + intros dst Hdst. apply Hin in Hdst as [[]|[m [Hm <-]]].
      now apply getLegalMovesForPiece_to in Hm.
Qed.

(** ** The king in the opposing camp *)

(** X27. [isKingInEnemyTerritory] answers true exactly when the king that
    [findKingPosition] finds stands in the zone where [canPromoteMove] lets
    the player promote (ranks 1 to 3 for the first player, 7 to 9 for the
    second); with no king on the board it answers false. *)
Theorem isKingInEnemyTerritory_spec (b : Board) (player : Player) :
  isKingInEnemyTerritory b player
  = match findKingPosition b player with
    | Some kingPos => canPromoteMove kingPos kingPos player
    | None => false
    end.
Proof.
  unfold isKingInEnemyTerritory, findKingPosition.
  destruct (find _ allIndices) as [[r c]|]; [|reflexivity].
  unfold canPromoteMove, indexToPosition. cbn [row].
  rewrite orb_diag.
  destruct player.
  - destruct (Z.leb_spec r 2), (Z.leb_spec (r + 1) 3); (reflexivity || lia).
  - destruct (Z.leb_spec 6 r), (Z.leb_spec 7 (r + 1)); (reflexivity || lia).
Qed.

(* ================================================================== *)
(** ** The encoding tells positions apart *)

Lemma append_assoc (s1 s2 s3 : string) :
  ((s1 ++ s2) ++ s3 = s1 ++ (s2 ++ s3))%string.
Proof.
  induction s1 as [|ch s1 IH]; cbn [append]; [reflexivity | now rewrite IH].
Qed.

Lemma append_empty_r (s : string) : (s ++ EmptyString)%string = s.
Proof.
  induction s as [|ch s IH]; cbn [append]; [reflexivity | now rewrite IH].
Qed.

Lemma append_cancel_l (s x y : string) :
  (s ++ x)%string = (s ++ y)%string -> x = y.
Proof.
  induction s as [|ch s IH]; cbn [append]; intros H; [exact H|].
  injection H as H. now apply IH.
Qed.

Lemma allChars_append (P : ascii -> bool) (s1 s2 : string) :
  allChars P (s1 ++ s2) = allChars P s1 && allChars P s2.
Proof.
  induction s1 as [|ch s1 IH]; cbn [append allChars]; [reflexivity|].
  now rewrite IH, andb_assoc.
Qed.

Lemma allChars_impl (P Q : ascii -> bool) (s : string) :
  (forall ch, P ch = true -> Q ch = true) ->
  allChars P s = true -> allChars Q s = true.
Proof.
  intros HPQ. induction s as [|ch s IH]; cbn [allChars]; [reflexivity|].
  rewrite !andb_true_iff. intros [Hch Hs]. split; [now apply HPQ | now apply IH].
Qed.

(** A string is cut in one way only at the first occurrence of a
    character. *)
Lemma split_at_char (a : ascii) (s s' x y : string) :
  allChars (differsFrom a) s = true ->
  allChars (differsFrom a) s' = true ->
  (s ++ String a x)%string = (s' ++ String a y)%string ->
  s = s' /\ x = y.
Proof.
  revert s'. induction s as [|ch s IH]; intros [|ch' s'];
    cbn [append allChars]; intros Hs Hs' H.
  - injection H as H. now split.
  - injection H as Hch _. subst ch'.
    apply andb_true_iff in Hs' as [Hch _]. unfold differsFrom in Hch.
    now rewrite Ascii.eqb_refl in Hch.
  - injection H as Hch _. subst ch.
    apply andb_true_iff in Hs as [Hch _]. unfold differsFrom in Hch.
    now rewrite Ascii.eqb_refl in Hch.
  - injection H as Hch H. subst ch'.
    apply andb_true_iff in Hs as [_ Hs]. apply andb_true_iff in Hs' as [_ Hs'].
    destruct (IH s' Hs Hs' H) as [-> ->]. now split.
Qed.

Lemma digit_differs (a d : ascii) :
  isDigit a = false -> isDigit d = true -> differsFrom a d = true.
Proof.
  intros Ha Hd. unfold differsFrom.
  destruct (Ascii.eqb_spec d a) as [->|_]; [congruence | reflexivity].
Qed.

(** *** Numbers *)

Lemma string_of_uint_digits (u : Decimal.uint) :
  allChars isDigit (NilEmpty.string_of_uint u) = true.
Proof.
  induction u as [|u IH|u IH|u IH|u IH|u IH|u IH|u IH|u IH|u IH|u IH];
    cbn [NilEmpty.string_of_uint allChars]; [reflexivity|..];
    rewrite IH; reflexivity.
Qed.

Lemma numberToString_digits (n : Z) :
  0 <= n ->
  allChars isDigit (numberToString n) = true
  /\ exists d rest, numberToString n = String d rest.
Proof.
  intros Hn. unfold numberToString.
  destruct n as [|p|p]; [split; [reflexivity | now eexists; eexists] | | lia].
  cbn [Z.to_int NilZero.string_of_int]. unfold NilZero.string_of_uint.
  pose proof (string_of_uint_digits (Pos.to_uint p)) as Hdigits.
  pose proof (DecimalPos.Unsigned.to_uint_nonnil p) as Hnonnil.
  destruct (Pos.to_uint p); [now destruct Hnonnil|..];
    (split; [exact Hdigits | cbn [NilEmpty.string_of_uint];
                             now eexists; eexists]).
Qed.

Lemma numberToString_inj (n n' : Z) :
  numberToString n = numberToString n' -> n = n'.
Proof.
  unfold numberToString. intros H.
  assert (forall z, Z.to_int z <> Decimal.Pos Decimal.Nil
                    /\ Z.to_int z <> Decimal.Neg Decimal.Nil) as Hnonnil.
  { intros [|p|p]; cbn [Z.to_int]; split; try discriminate;
      intros Heq; injection Heq as Heq;
      now apply (DecimalPos.Unsigned.to_uint_nonnil p). }
  apply DecimalZ.to_int_inj.
  assert (Some (Z.to_int n) = Some (Z.to_int n')) as Hsome.
  { rewrite <- (NilZero.isi (Z.to_int n)), <- (NilZero.isi (Z.to_int n'));
      try apply Hnonnil.
    now rewrite H. }
  now injection Hsome.
Qed.

Lemma single_digits_table :
  forallb (fun n =>
             match numberToString n with
             | String d EmptyString => isDigit d
             | _ => false
             end) ranks = true.
Proof. vm_compute. reflexivity. Qed.

Lemma pendingCount_cases (n : Z) :
  0 <= n <= 9 ->
  (n = 0 /\ pendingCount n = EmptyString)
  \/ (0 < n /\ exists d, pendingCount n = String d EmptyString
                         /\ numberToString n = String d EmptyString
                         /\ isDigit d = true).
Proof.
  intros Hn. unfold pendingCount.
  destruct (Z.ltb_spec 0 n) as [Hpos|Hzero];
    [right | left; split; [lia | reflexivity]].
  split; [exact Hpos|].
  pose proof single_digits_table as T. rewrite forallb_forall in T.
  specialize (T n (proj2 (ranks_In n) ltac:(lia))).
  destruct (numberToString n) as [|d [|d2 rest]]; try discriminate.
  now exists d.
Qed.

(** *** Pieces *)

Lemma allPieces_all (t : AllPieceType) (o : Player) : In (t, o) allPieces.
Proof.
  unfold allPieces. apply in_flat_map. exists t.
  split; [apply allKinds_all|]. apply in_map. destruct o; cbn; tauto.
Qed.

Lemma pieceToSfen_shown (p : Piece) :
  pieceToSfen p = pieceToSfen (mkPiece (type p) (owner p) false).
Proof. reflexivity. Qed.

Lemma append_prefix (s1 s2 x y : string) :
  (s1 ++ x)%string = (s2 ++ y)%string ->
  String.prefix s1 s2 = true \/ String.prefix s2 s1 = true.
Proof.
  revert s2. induction s1 as [|a s1 IH]; intros [|b s2]; cbn [append prefix];
    intros H; try (now left); try (now right).
  injection H as -> H.
  destruct (ascii_dec b b) as [_|Hne]; [now apply IH | now destruct Hne].
Qed.

Lemma piece_tokens_table :
  forallb (fun x => forallb (fun y =>
     let tx := pieceToSfen (mkPiece (fst x) (snd x) false) in
     let ty := pieceToSfen (mkPiece (fst y) (snd y) false) in
     implb (String.prefix tx ty || String.prefix ty tx)
           (pieceTypeEqb (fst x) (fst y) && playerEqb (snd x) (snd y)))
     allPieces) allPieces = true.
Proof. vm_compute. reflexivity. Qed.

Lemma piece_heads_table :
  forallb (fun x =>
     match pieceToSfen (mkPiece (fst x) (snd x) false) with
     | String a _ =>
         negb (isDigit a)
         && allChars (fun ch => differsFrom "/" ch && differsFrom " " ch)
                     (pieceToSfen (mkPiece (fst x) (snd x) false))
     | EmptyString => false
     end) allPieces = true.
Proof. vm_compute. reflexivity. Qed.

Lemma pieceToSfen_prefix (p q : Piece) (x y : string) :
  (pieceToSfen p ++ x)%string = (pieceToSfen q ++ y)%string ->
  shown (Some p) = shown (Some q) /\ x = y.
Proof.
  intros H. pose proof (append_prefix _ _ _ _ H) as Hpre.
  pose proof piece_tokens_table as T.
  rewrite forallb_forall in T.
  specialize (T (type p, owner p) (allPieces_all _ _)).
  rewrite forallb_forall in T.
  specialize (T (type q, owner q) (allPieces_all _ _)).
  cbn [fst snd] in T. cbv zeta in T.
  rewrite <- !pieceToSfen_shown in T.
  replace (String.prefix (pieceToSfen p) (pieceToSfen q)
           || String.prefix (pieceToSfen q) (pieceToSfen p)) with true in T
    by (symmetry; apply orb_true_iff; exact Hpre).
  cbn [implb] in T. apply andb_true_iff in T as [Ht Ho].
  apply pieceTypeEqb_eq in Ht. apply playerEqb_eq in Ho.
  assert (pieceToSfen p = pieceToSfen q) as Heq
      by (rewrite (pieceToSfen_shown p), (pieceToSfen_shown q), Ht, Ho;
          reflexivity).
  split.
  - cbn [shown option_map]. now rewrite Ht, Ho.
  - rewrite Heq in H. now apply append_cancel_l in H.
Qed.

Lemma pieceToSfen_head (p : Piece) :
  (exists a rest, pieceToSfen p = String a rest /\ isDigit a = false)
  /\ allChars (fun ch => differsFrom "/" ch && differsFrom " " ch)
              (pieceToSfen p) = true.
Proof.
  pose proof piece_heads_table as T. rewrite forallb_forall in T.
  specialize (T (type p, owner p) (allPieces_all _ _)). cbn [fst snd] in T.
  rewrite <- pieceToSfen_shown in T.
  destruct (pieceToSfen p) as [|a rest]; [discriminate|].
  apply andb_true_iff in T as [Hd Hc]. apply negb_true_iff in Hd.
  split; [now exists a, rest | exact Hc].
Qed.

(** *** Rows *)

Lemma rowToSfen_fold (b : Board) (r : Z) (cs : list Z) :
  forall (s : string) (n : Z),
    0 <= n ->
    (let '(rowStr, emptyCount) :=
       fold_left (fun acc c => sfenSquare acc (boardAt b r c)) cs (s, n) in
     if 0 <? emptyCount then (rowStr ++ numberToString emptyCount)%string
     else rowStr)
    = (s ++ rowTail n (map (boardAt b r) cs))%string.
Proof.
  induction cs as [|c cs IH]; intros s n Hn; cbn [fold_left map rowTail].
  - unfold pendingCount. destruct (0 <? n); [reflexivity|].
    now rewrite append_empty_r.
  - unfold sfenSquare at 2. destruct (boardAt b r c) as [p|].
    + unfold pendingCount. destruct (Z.ltb_spec 0 n) as [Hpos|Hzero].
      * rewrite IH by lia. now rewrite !append_assoc.
      * replace n with 0 by lia. rewrite IH by lia.
        cbn [append]. now rewrite !append_assoc.
    + apply IH. lia.
Qed.

Lemma rowToSfen_rowTail (b : Board) (r : Z) :
  rowToSfen b r = rowTail 0 (map (boardAt b r) indices).
Proof.
  unfold rowToSfen.
  pose proof (rowToSfen_fold b r indices EmptyString 0 (Z.le_refl 0)) as H.
  cbn [append] in H. exact H.
Qed.

Lemma rowTail_shown (l l' : list Square) :
  map shown l = map shown l' -> forall n, rowTail n l = rowTail n l'.
Proof.
  revert l'. induction l as [|[p|] l IH]; intros [|[q|] l'] H n;
    try discriminate; cbn [rowTail]; cbn [map] in H.
  - reflexivity.
  - cbn [shown option_map] in H. injection H as Ht Ho H.
    rewrite (pieceToSfen_shown p), (pieceToSfen_shown q), Ht, Ho.
    now rewrite (IH l' H).
  - injection H as H. now apply IH.
Qed.

Lemma pad_shift (n : Z) (rest : list Square) :
  0 <= n ->
  repeat (@None Piece) (Z.to_nat (n + 1)) ++ rest
  = repeat None (Z.to_nat n) ++ None :: rest.
Proof.
  intros Hn. replace (Z.to_nat (n + 1)) with (S (Z.to_nat n)) by lia.
  change (None :: rest) with ([@None Piece] ++ rest).
  rewrite app_assoc, <- repeat_cons. reflexivity.
Qed.

Lemma rowTail_end_not_piece (n n' : Z) (q : Piece) (rest' : list Square) :
  0 <= n <= 9 -> 0 <= n' <= 9 ->
  pendingCount n
  <> append (pendingCount n') (append (pieceToSfen q) (rowTail 0 rest')).
Proof.
  intros Hn Hn' H.
  destruct (pieceToSfen_head q) as [[a [tl [Hq Ha]]] _]. rewrite Hq in H.
  destruct (pendingCount_cases n Hn) as [[_ En]|[_ [d [En [_ Hd]]]]];
    destruct (pendingCount_cases n' Hn') as [[_ En']|[_ [d' [En' [_ Hd']]]]];
    rewrite En, En' in H; cbn [append] in H; try discriminate.
  injection H as Hda _. congruence.
Qed.

Lemma rowTail_inj (l : list Square) :
  forall (n : Z) (l' : list Square) (n' : Z),
    0 <= n -> 0 <= n' ->
    n + Z.of_nat (List.length l) <= 9 ->
    n + Z.of_nat (List.length l) = n' + Z.of_nat (List.length l') ->
    rowTail n l = rowTail n' l' ->
    map shown (repeat None (Z.to_nat n) ++ l)
    = map shown (repeat None (Z.to_nat n') ++ l').
Proof.
  induction l as [|[p|] rest IH]; intros n l'.
  - induction l' as [|[q|] rest' IH']; intros n' Hn Hn' Hlen Hsame H;
      cbn [List.length] in *.
    + replace n' with n by lia. reflexivity.
    + cbn [rowTail] in H. exfalso.
      apply (rowTail_end_not_piece n n' q rest'); [lia | lia | exact H].
    + cbn [rowTail] in H. rewrite <- pad_shift by lia.
      apply IH'; [lia | lia | lia | lia | exact H].
  - induction l' as [|[q|] rest' IH']; intros n' Hn Hn' Hlen Hsame H;
      cbn [List.length] in *.
    + cbn [rowTail] in H. exfalso.
      apply (rowTail_end_not_piece n' n p rest); [lia | lia | now symmetry].
    + cbn [rowTail] in H.
      assert (n = n'
              /\ append (pieceToSfen p) (rowTail 0 rest)
                 = append (pieceToSfen q) (rowTail 0 rest')) as [Hnn Htok].
      { destruct (pieceToSfen_head p) as [[a [tl [Hp Ha]]] _].
        destruct (pieceToSfen_head q) as [[a' [tl' [Hq Ha']]] _].
        destruct (pendingCount_cases n ltac:(lia))
          as [[Zn En]|[_ [d [En [Nn Hd]]]]];
          destruct (pendingCount_cases n' ltac:(lia))
            as [[Zn' En']|[_ [d' [En' [Nn' Hd']]]]];
          rewrite En, En' in H; cbn [append] in H.
        - split; [lia | exact H].
        - rewrite Hp in H. cbn [append] in H. injection H as Hda _. congruence.
        - rewrite Hq in H. cbn [append] in H. injection H as Hda _. congruence.
        - injection H as Hdd H. subst d'. split; [|exact H].
          apply numberToString_inj. now rewrite Nn, Nn'. }
      subst n'. apply pieceToSfen_prefix in Htok as [Hshown Hrest].
      assert (map shown rest = map shown rest') as Hrests.
      { apply (IH 0 rest' 0); [lia | lia | lia | lia | exact Hrest]. }
      rewrite !map_app. cbn [map]. apply f_equal.
      apply f_equal2; [exact Hshown | exact Hrests].
    + cbn [rowTail] in H. rewrite <- pad_shift by lia.
      apply IH'; [lia | lia | lia | lia | exact H].
  - intros n' Hn Hn' Hlen Hsame H. cbn [List.length] in *.
    cbn [rowTail] in H. rewrite <- pad_shift by lia.
    apply IH; [lia | lia | lia | lia | exact H].
Qed.

Lemma rowTail_chars (l : list Square) :
  forall n, 0 <= n -> n + Z.of_nat (List.length l) <= 9 ->
    allChars (fun ch => differsFrom "/" ch && differsFrom " " ch)
             (rowTail n l) = true.
Proof.
  assert (forall n, 0 <= n <= 9 ->
            allChars (fun ch => differsFrom "/" ch && differsFrom " " ch)
                     (pendingCount n) = true) as Hpending.
  { intros n Hn.
    destruct (pendingCount_cases n Hn) as [[_ En]|[_ [d [En [_ Hd]]]]];
      rewrite En; [reflexivity|].
    cbn [allChars]. rewrite andb_true_r.
    now rewrite !(digit_differs _ d) by (reflexivity || exact Hd). }
  induction l as [|[p|] rest IH]; intros n Hn Hlen; cbn [List.length] in Hlen;
    cbn [rowTail].
  - apply Hpending. lia.
  - rewrite !allChars_append. rewrite Hpending by lia.
    rewrite (proj2 (pieceToSfen_head p)). rewrite IH by lia. reflexivity.
  - apply IH; lia.
Qed.

(** *** The board *)

Lemma concat_rows_inj (rows : list string) :
  forall rows',
    List.length rows = List.length rows' ->
    Forall (fun s => allChars (differsFrom "/") s = true) rows ->
    Forall (fun s => allChars (differsFrom "/") s = true) rows' ->
    String.concat "/" rows = String.concat "/" rows' ->
    rows = rows'.
Proof.
  induction rows as [|x xs IH]; intros [|y ys] Hlen Hrows Hrows' H;
    try discriminate; [reflexivity|].
  inversion Hrows as [|? ? Hx Hxs]; subst.
  inversion Hrows' as [|? ? Hy Hys]; subst.
  destruct xs as [|x2 xs]; destruct ys as [|y2 ys]; try discriminate.
  - cbn [String.concat] in H. now rewrite H.
  - change (String.concat "/" (x :: x2 :: xs))
      with (x ++ String "/" (String.concat "/" (x2 :: xs)))%string in H.
    change (String.concat "/" (y :: y2 :: ys))
      with (y ++ String "/" (String.concat "/" (y2 :: ys)))%string in H.
    apply split_at_char in H as [-> H]; [|exact Hx | exact Hy].
    f_equal. apply IH; [cbn [List.length] in *; lia | exact Hxs | exact Hys | exact H].
Qed.

Lemma concat_rows_chars (rows : list string) :
  Forall (fun s => allChars (fun ch => differsFrom "/" ch && differsFrom " " ch)
                            s = true) rows ->
  allChars (differsFrom " ") (String.concat "/" rows) = true.
Proof.
  induction rows as [|x xs IH]; intros Hrows; [reflexivity|].
  inversion Hrows as [|? ? Hx Hxs]; subst.
  assert (allChars (differsFrom " ") x = true) as Hx'.
  { apply (allChars_impl _ _ _ (fun ch H => proj2 (andb_prop _ _ H)) Hx). }
  destruct xs as [|x2 xs]; [exact Hx'|].
  change (String.concat "/" (x :: x2 :: xs))
    with (x ++ String "/" (String.concat "/" (x2 :: xs)))%string.
  rewrite allChars_append, Hx'. cbn [allChars]. now rewrite (IH Hxs).
Qed.

Lemma boardToSfen_rows (b : Board) :
  Forall (fun s => allChars (fun ch => differsFrom "/" ch && differsFrom " " ch)
                            s = true)
         (map (rowToSfen b) indices).
Proof.
  apply Forall_forall. intros s Hs. apply in_map_iff in Hs as [r [<- _]].
  rewrite rowToSfen_rowTail. apply rowTail_chars; [lia|].
  rewrite length_map. cbn. lia.
Qed.

Lemma boardToSfen_rows_slash (b : Board) :
  Forall (fun s => allChars (differsFrom "/") s = true)
         (map (rowToSfen b) indices).
Proof.
  pose proof (boardToSfen_rows b) as Hrows. rewrite Forall_forall in *.
  intros s Hs. specialize (Hrows s Hs). revert Hrows.
  apply allChars_impl. intros ch Hch. now apply andb_true_iff in Hch.
Qed.

Lemma map_eq_In {A B : Type} (f g : A -> B) (l : list A) (x : A) :
  map f l = map g l -> In x l -> f x = g x.
Proof.
  induction l as [|y l IH]; intros Hm []; cbn [map] in Hm.
  - subst y. now injection Hm.
  - injection Hm as _ Hm. now apply IH.
Qed.

Lemma boardToSfen_inj (b1 b2 : Board) :
  boardToSfen b1 = boardToSfen b2 <-> sameShown b1 b2.
Proof.
  unfold boardToSfen. split.
  - intros H.
    apply concat_rows_inj in H;
      [| now rewrite !length_map | apply boardToSfen_rows_slash
       | apply boardToSfen_rows_slash].
    intros r c Hr Hc. apply indices_In in Hr. apply indices_In in Hc.
    pose proof (map_eq_In _ _ _ r H Hr) as Hrow.
    rewrite !rowToSfen_rowTail in Hrow.
    apply rowTail_inj in Hrow;
      [| lia | lia | cbn; lia | now rewrite !length_map].
    cbn [Z.to_nat repeat app] in Hrow. rewrite !map_map in Hrow.
    exact (map_eq_In _ _ _ c Hrow Hc).
  - intros Hsame. f_equal. apply map_ext_in. intros r Hr.
    apply indices_In in Hr. rewrite !rowToSfen_rowTail.
    apply rowTail_shown. rewrite !map_map. apply map_ext_in.
    intros c Hc. apply indices_In in Hc. now apply Hsame.
Qed.

(** *** The hands *)

Lemma handToSfen_items (hand : Hand) (letter : HandPieceType -> string)
      (ch : HandPieceType -> ascii) :
  (forall k, letter k = String (ch k) EmptyString) ->
  forall start,
    handToSfen hand letter start
    = append start
             (encItems (map (fun k => (handCount hand k, ch k)) handPieces)).
Proof.
  intros Hletter. unfold handToSfen. generalize handPieces as kinds.
  induction kinds as [|k kinds IH]; intros start; cbn [fold_left map encItems].
  - now rewrite append_empty_r.
  - rewrite IH. unfold handToken. rewrite Hletter.
    destruct (0 <? handCount hand k); [|reflexivity].
    destruct (1 <? handCount hand k); cbn [append];
      now rewrite !append_assoc.
Qed.

Lemma encItems_app (l1 l2 : list (Z * ascii)) :
  encItems (l1 ++ l2) = append (encItems l1) (encItems l2).
Proof.
  induction l1 as [|[c a] l1 IH]; cbn [app encItems append]; [reflexivity|].
  now rewrite IH, append_assoc.
Qed.

Lemma handsToSfen_items (hs : Hands) :
  handsToSfen hs
  = match encItems (handItems hs) with
    | EmptyString => "-"%string
    | String ch rest => String ch rest
    end.
Proof.
  unfold handsToSfen, handItems.
  rewrite (handToSfen_items (senteHand hs) sfenMap upperLetter)
    by (intros k; destruct k; reflexivity).
  rewrite (handToSfen_items (goteHand hs) (fun k => toLowerCase (sfenMap k))
                            lowerLetter)
    by (intros k; destruct k; reflexivity).
  cbn [append]. rewrite encItems_app.
  now destruct (append _ _).
Qed.

Lemma handToken_cases (c : Z) (a : ascii) :
  0 <= c ->
  (c = 0 /\ handToken c a = EmptyString)
  \/ (0 < c
      /\ exists pre,
           handToken c a = append pre (String a EmptyString)
           /\ allChars isDigit pre = true
           /\ (c = 1 -> pre = EmptyString)
           /\ (1 < c -> pre = numberToString c
                        /\ exists d rest, pre = String d rest)).
Proof.
  intros Hc. unfold handToken.
  destruct (Z.ltb_spec 0 c) as [Hpos|Hzero]; [right | left; split; [lia|reflexivity]].
  split; [exact Hpos|].
  destruct (Z.ltb_spec 1 c) as [Hmany|Hone].
  - exists (numberToString c).
    destruct (numberToString_digits c Hc) as [Hdigits Hnonempty].
    split; [reflexivity|]. split; [exact Hdigits|]. split; [lia|].
    intros _. split; [reflexivity | exact Hnonempty].
  - exists EmptyString. split; [reflexivity|]. split; [reflexivity|].
    split; [reflexivity | lia].
Qed.

Lemma encItems_avoids (a : ascii) (items : list (Z * ascii)) :
  isDigit a = false ->
  ~ In a (map snd items) ->
  Forall (fun it => 0 <= fst it) items ->
  allChars (differsFrom a) (encItems items) = true.
Proof.
  intros Ha. induction items as [|[c b] items IH]; intros Hnotin Hcounts;
    cbn [encItems]; [reflexivity|].
  cbn [map snd In] in Hnotin. inversion Hcounts as [|? ? Hc Hrest]; subst.
  cbn [fst] in Hc. rewrite allChars_append.
  rewrite IH by (try exact Hrest; intros Hin; apply Hnotin; now right).
  rewrite andb_true_r.
  destruct (handToken_cases c b Hc) as [[_ ->]|[_ [pre [-> [Hpre _]]]]];
    [reflexivity|].
  rewrite allChars_append. cbn [allChars]. rewrite andb_true_r.
  apply andb_true_iff. split.
  - revert Hpre. apply allChars_impl. intros d Hd. now apply digit_differs.
  - unfold differsFrom. destruct (Ascii.eqb_spec b a) as [Heq|_];
      [|reflexivity].
    exfalso. apply Hnotin. now left.
Qed.

Lemma encItems_inj (items : list (Z * ascii)) :
  forall items',
    map snd items = map snd items' ->
    NoDup (map snd items) ->
    Forall (fun a => isDigit a = false) (map snd items) ->
    Forall (fun it => 0 <= fst it) items ->
    Forall (fun it => 0 <= fst it) items' ->
    encItems items = encItems items' ->
    map fst items = map fst items'.
Proof.
  induction items as [|[c a] items IH]; intros [|[c' a'] items'];
    cbn [map fst snd encItems]; intros Hletters Hnodup Hnondigit Hcounts
                                       Hcounts' H;
    try discriminate; [reflexivity|].
  injection Hletters as <- Hletters.
  inversion Hnodup as [|? ? Hnotin Hnodup']; subst.
  inversion Hnondigit as [|? ? Ha Hnondigit']; subst.
  inversion Hcounts as [|? ? Hc Hrest]; subst.
  inversion Hcounts' as [|? ? Hc' Hrest']; subst.
  cbn [fst] in Hc, Hc'.
  pose proof (encItems_avoids a items Ha Hnotin Hrest) as Havoid.
  assert (~ In a (map snd items')) as Hnotin' by now rewrite <- Hletters.
  pose proof (encItems_avoids a items' Ha Hnotin' Hrest') as Havoid'.
  assert (c = c' /\ encItems items = encItems items') as [-> Hrests].
  { destruct (handToken_cases c a Hc)
      as [[-> Etok]|[Hpos [pre [Etok [Hpre [Hone Hmany]]]]]];
      destruct (handToken_cases c' a Hc')
        as [[-> Etok']|[Hpos' [pre' [Etok' [Hpre' [Hone' Hmany']]]]]];
      rewrite ?Etok, ?Etok' in H.
    - cbn [append] in H. now split.
    - exfalso. cbn [append] in H. rewrite H in Havoid.
      rewrite !allChars_append in Havoid. cbn [allChars] in Havoid.
      unfold differsFrom at 2 in Havoid. rewrite Ascii.eqb_refl in Havoid.
      cbn [negb andb] in Havoid. rewrite !andb_false_r in Havoid.
      discriminate.
    - exfalso. cbn [append] in H. rewrite <- H in Havoid'.
      rewrite !allChars_append in Havoid'. cbn [allChars] in Havoid'.
      unfold differsFrom at 2 in Havoid'. rewrite Ascii.eqb_refl in Havoid'.
      cbn [negb andb] in Havoid'. rewrite !andb_false_r in Havoid'.
      discriminate.
    - rewrite !append_assoc in H. cbn [append] in H.
      apply split_at_char in H as [Hpres Hrests].
      + split; [|exact Hrests].
        destruct (Z.eq_dec c 1) as [->|Hc1];
          destruct (Z.eq_dec c' 1) as [->|Hc1']; [reflexivity | | |].
        * destruct (Hmany' ltac:(lia)) as [_ [d [tl Hd]]].
          rewrite (Hone eq_refl) in Hpres. congruence.
        * destruct (Hmany ltac:(lia)) as [_ [d [tl Hd]]].
          rewrite (Hone' eq_refl) in Hpres. congruence.
        * destruct (Hmany ltac:(lia)) as [Hn _].
          destruct (Hmany' ltac:(lia)) as [Hn' _].
          apply numberToString_inj. congruence.
      + revert Hpre. apply allChars_impl. intros d Hd.
        now apply digit_differs.
      + revert Hpre'. apply allChars_impl. intros d Hd.
        now apply digit_differs. }
  f_equal.
  apply IH; [exact Hletters | exact Hnodup' | exact Hnondigit' | exact Hrest
             | exact Hrest' | exact Hrests].
Qed.

Lemma handItems_letters (hs : Hands) :
  map snd (handItems hs)
  = ["R"; "B"; "G"; "S"; "N"; "L"; "P"; "r"; "b"; "g"; "s"; "n"; "l"; "p"]%char.
Proof. reflexivity. Qed.

Lemma handItems_counts (hs : Hands) :
  held hs -> Forall (fun it => 0 <= fst it) (handItems hs).
Proof.
  intros Hheld. unfold handItems. apply Forall_app. split;
    apply Forall_forall; intros it Hit; apply in_map_iff in Hit as [k [<- _]];
    cbn [fst].
  - apply (Hheld sente).
  - apply (Hheld gote).
Qed.

Lemma handItems_inj (hs hs' : Hands) :
  map fst (handItems hs) = map fst (handItems hs') -> hs = hs'.
Proof.
  destruct hs as [[s1 s2 s3 s4 s5 s6 s7] [g1 g2 g3 g4 g5 g6 g7]].
  destruct hs' as [[t1 t2 t3 t4 t5 t6 t7] [h1 h2 h3 h4 h5 h6 h7]].
  unfold handItems, handPieces.
  cbn [map app fst senteHand goteHand handCount inRook inBishop inGold
       inSilver inKnight inLance inPawn].
  intros H. injection H. intros. subst. reflexivity.
Qed.

Lemma handsToSfen_inj (hs hs' : Hands) :
  held hs -> held hs' -> handsToSfen hs = handsToSfen hs' -> hs = hs'.
Proof.
  intros Hheld Hheld' H. apply handItems_inj.
  pose proof (handItems_counts hs Hheld) as Hcounts.
  pose proof (handItems_counts hs' Hheld') as Hcounts'.
  assert (forall h, held h ->
                    allChars (differsFrom "-") (encItems (handItems h)) = true)
    as Hdash.
  { intros h Hh. apply encItems_avoids; [reflexivity | | now apply handItems_counts].
    rewrite handItems_letters. cbn [In].
    intros Hin. repeat (destruct Hin as [Hin|Hin]; [discriminate|]).
    exact Hin. }
  apply encItems_inj; try assumption.
  - now rewrite !handItems_letters.
  - rewrite handItems_letters.
    repeat (constructor; [cbn [In]; intros Hin;
                          repeat (destruct Hin as [Hin|Hin]; [discriminate|]);
                          exact Hin|]).
    constructor.
  - rewrite handItems_letters. repeat (constructor; [reflexivity|]).
    constructor.
  - rewrite !handsToSfen_items in H.
    pose proof (Hdash hs Hheld) as Hd. pose proof (Hdash hs' Hheld') as Hd'.
    destruct (encItems (handItems hs)) as [|ch rest];
      destruct (encItems (handItems hs')) as [|ch' rest'].
    + reflexivity.
    + rewrite <- H in Hd'. discriminate.
    + rewrite H in Hd. discriminate.
    + exact H.
Qed.

(** X28. The encoding of positions tells positions apart.  For two states
    whose hands hold no negative count, [gameStateToSfen] gives the same
    string exactly when the boards show, on each of the 81 squares, a piece
    of the same kind and owner or none, the hands are equal and the side to
    move is the same: positions that differ are never counted as a
    repetition of each other.  The encoding does not read the promoted flag
    of a piece, only its kind. *)
Theorem gameStateToSfen_injective (s1 s2 : GameState)
        (Hheld1 : held (hands s1)) (Hheld2 : held (hands s2)) :
  gameStateToSfen s1 = gameStateToSfen s2
  <-> sameShown (board s1) (board s2)
      /\ hands s1 = hands s2
      /\ currentPlayer s1 = currentPlayer s2.
Proof.
  unfold gameStateToSfen. split.
  - intros H.
    change (append " " ?x) with (String " " x) in H.
    apply split_at_char in H as [Hboard H];
      [| apply concat_rows_chars, boardToSfen_rows
       | apply concat_rows_chars, boardToSfen_rows].
    apply boardToSfen_inj in Hboard. split; [exact Hboard|].
    destruct (currentPlayer s1), (currentPlayer s2); cbn [append] in H;
      try discriminate; injection H as H;
      (split; [now apply handsToSfen_inj | reflexivity]).
  - intros [Hboard [Hhands Hside]].
    now rewrite (proj2 (boardToSfen_inj _ _) Hboard), Hhands, Hside.
Qed.

Lemma gameStateToSfen_injective_witness :
  gameStateToSfen hangingGoldState <> gameStateToSfen corneredKingState
  /\ ~ sameShown (board hangingGoldState) (board corneredKingState).
Proof.
  assert (held (hands hangingGoldState)) as H1
      by (intros [|] [| | | | | |]; vm_compute; discriminate).
  assert (held (hands corneredKingState)) as H2
      by (intros [|] [| | | | | |]; vm_compute; discriminate).
  pose proof (gameStateToSfen_injective hangingGoldState corneredKingState
                                        H1 H2) as Hiff.
  assert (hands hangingGoldState <> hands corneredKingState) as Hne
      by (vm_compute; discriminate).
  split.
  - intros H. apply Hiff in H as [_ [Hhands _]]. now apply Hne.
  - intros Hsame. specialize (Hsame 8 4 ltac:(lia) ltac:(lia)).
    vm_compute in Hsame. discriminate.
Defined.

(* ================================================================== *)
(** ** What a generated move records *)

Lemma arrival_not_dead (m : MoveAction) (mp : Piece) (player : Player) :
  (if promote m
   then canPromote (type mp) && negb (isPromotedPiece (type mp))
        && canPromoteMove (from m) (to m) player = true
   else canPromote (type mp) && negb (isPromotedPiece (type mp))
        && canPromoteMove (from m) (to m) player
        && mustPromote (type mp) (to m) player = false) ->
  isDeadPosition (type (arrival m mp)) (to m) player = false.
Proof.
  unfold arrival. destruct (promote m); cbn [andb]; intros H.
  - apply andb_true_iff in H as [H _]. rewrite H.
    apply andb_true_iff in H as [Hcan _].
    destruct mp as [t o q]. cbn [type] in *.
    destruct t; try discriminate; destruct player; reflexivity.
  - destruct (isDeadPosition (type mp) (to m) player) eqn:Hdead;
      [|reflexivity].
    rewrite (dead_square_is_promotable _ (from m) _ _ Hdead) in H.
    unfold mustPromote in H. rewrite Hdead in H. discriminate.
Qed.

(** X29. A move of [getAllLegalMoves] records the position truthfully and
    strands no piece.  A relocation starts from a piece of the side to move,
    names its kind, names as captured the kind standing on the destination
    (nothing for an empty one), goes to a raw destination of the piece, and
    asks for promotion only for a promotable, unpromoted kind on a move that
    touches the promotion zone; a drop goes to an empty square of the board
    with a kind that is held.  In both cases the piece that arrives does not
    stand on a square [isDeadPosition] names for it. *)
Theorem legal_moves_are_truthful (state : GameState) (mv : Move)
        (Hlegal : In mv (getAllLegalMoves state)) :
  match mv with
  | MoveOf m =>
      exists mp,
        getPieceAt (board state) (from m) = Some mp
        /\ owner mp = currentPlayer state
        /\ piece m = type mp
        /\ captured m = option_map type (getPieceAt (board state) (to m))
        /\ In (to m) (getRawMoves (board state) (from m) (type mp)
                                  (currentPlayer state))
        /\ (promote m = true ->
            canPromote (type mp) = true
            /\ isPromotedPiece (type mp) = false
            /\ canPromoteMove (from m) (to m) (currentPlayer state) = true)
        /\ isDeadPosition (type (arrival m mp)) (to m) (currentPlayer state)
           = false
  | DropOf d =>
      onBoard (dropTo d)
      /\ getPieceAt (board state) (dropTo d) = None
      /\ 0 < handCount (handOf (hands state) (currentPlayer state))
                       (dropPiece d)
      /\ isDeadPosition (handKind (dropPiece d)) (dropTo d)
                        (currentPlayer state) = false
  end.
Proof.
  destruct mv as [m|d].
  - apply getAllLegalMoves_move in Hlegal as [_ Hin].
    apply getLegalMovesForPiece_In in Hin as [Hcand _].
    apply candidateMoves_In in Hcand as [mp [dst [Hmp [Ho [Hraw Hin]]]]].
    apply candidatesTo_In in Hin as [Hm Hprom].
    assert (to m = dst) as Hto by (rewrite Hm; reflexivity).
    exists mp.
    split; [exact Hmp|]. split; [exact Ho|].
    split; [rewrite Hm; reflexivity|].
    split; [rewrite Hm; reflexivity|].
    split; [now rewrite Hto|].
    rewrite <- Hto in Hprom.
    split.
    + intros Hp. rewrite Hp in Hprom.
      apply andb_true_iff in Hprom as [Hprom Hzone].
      apply andb_true_iff in Hprom as [Hcan Hnot].
      apply negb_true_iff in Hnot. now repeat split.
    + now apply arrival_not_dead.
  - pose proof Hlegal as Hdrop.
    apply getAllLegalMoves_drop, getLegalDrops_In in Hdrop as [Hon Hok].
    rewrite isLegalDrop_tests, !andb_true_iff in Hok.
    destruct Hok as [[[[[Hcount Hempty] Hdead] _] _] _].
    apply negb_true_iff, Z.leb_gt in Hcount. apply negb_true_iff in Hdead.
    split; [exact Hon|].
    split; [now destruct (getPieceAt _ _)|]. now split.
Qed.

Lemma legal_moves_are_truthful_witness :
  captured (mkMoveAction (mkPosition 3 4) (mkPosition 3 3) pawn (Some gold)
                         true)
  = option_map type (getPieceAt (board hangingGoldState) (mkPosition 3 3)).
Proof.
  destruct (legal_moves_are_truthful
              hangingGoldState
              (MoveOf (mkMoveAction (mkPosition 3 4) (mkPosition 3 3) pawn
                                    (Some gold) true)))
    as [mp [_ [_ [_ [Hcap _]]]]].
  - vm_compute. now left.
  - exact Hcap.
Defined.

(* ================================================================== *)
(** ** The king's square and the squares attacked *)

Lemma find_split {A : Type} (f : A -> bool) (l : list A) (x : A) :
  find f l = Some x
  <-> exists l1 l2,
        l = l1 ++ x :: l2 /\ f x = true /\ forall y, In y l1 -> f y = false.
Proof.
  split.
  - induction l as [|a l IH]; [discriminate|]. cbn [find].
    destruct (f a) eqn:Hfa.
    + intros H. injection H as <-. exists [], l.
      split; [reflexivity|]. split; [exact Hfa | intros y []].
    + intros H. destruct (IH H) as [l1 [l2 [-> [Hx Hl1]]]].
      exists (a :: l1), l2. split; [reflexivity|]. split; [exact Hx|].
      intros y [<-|Hy]; [exact Hfa | now apply Hl1].
  - intros [l1 [l2 [-> [Hx Hl1]]]].
    induction l1 as [|a l1 IH]; cbn [app find].
    + now rewrite Hx.
    + rewrite (Hl1 a) by now left. apply IH. intros y Hy. apply Hl1. now right.
Qed.

Lemma readBeforeb_spec (rc rc' : Z * Z) :
  readBeforeb rc rc' = true <-> readBefore rc rc'.
Proof.
  unfold readBeforeb, readBefore.
  rewrite orb_true_iff, andb_true_iff, !Z.ltb_lt, Z.eqb_eq. reflexivity.
Qed.

Lemma readInOrder_split (l : list (Z * Z)) :
  readInOrder l = true ->
  forall l1 x l2,
    l = l1 ++ x :: l2 ->
    (forall y, In y l1 -> readBefore y x)
    /\ (forall y, In y l2 -> readBefore x y).
Proof.
  induction l as [|a l IH]; intros Hord l1 x l2 Hl.
  - now destruct l1.
  - cbn [readInOrder] in Hord. apply andb_true_iff in Hord as [Ha Hord].
    rewrite forallb_forall in Ha.
    destruct l1 as [|a1 l1]; cbn [app] in Hl; injection Hl as -> ->.
    + split; [intros y [] | intros y Hy; now apply readBeforeb_spec, Ha].
    + destruct (IH Hord l1 x l2 eq_refl) as [Hbefore Hafter].
      split; [|exact Hafter].
      intros y [<-|Hy]; [|now apply Hbefore].
      apply readBeforeb_spec, Ha, in_or_app. right. now left.
Qed.

Lemma allIndices_readInOrder : readInOrder allIndices = true.
Proof. vm_compute. reflexivity. Qed.

(** The scan of the 81 squares stops at the first square, in reading
    order, that passes the test. *)
Lemma find_allIndices (f : Z * Z -> bool) (r c : Z) :
  find f allIndices = Some (r, c)
  <-> (0 <= r < 9 /\ 0 <= c < 9) /\ f (r, c) = true
      /\ forall r' c', 0 <= r' < 9 -> 0 <= c' < 9 ->
                       readBefore (r', c') (r, c) -> f (r', c') = false.
Proof.
  rewrite find_split. split.
  - intros [l1 [l2 [Hl [Hf Hl1]]]].
    destruct (readInOrder_split _ allIndices_readInOrder l1 (r, c) l2 Hl)
      as [Hbefore Hafter].
    assert (In (r, c) allIndices) as Hin
        by (rewrite Hl; apply in_or_app; right; now left).
    apply allIndices_In in Hin. cbn [fst snd] in Hin.
    split; [exact Hin|]. split; [exact Hf|].
    intros r' c' Hr' Hc' Hread.
    assert (In (r', c') allIndices) as Hin'
        by (apply allIndices_In; cbn [fst snd]; lia).
    rewrite Hl in Hin'. apply in_app_or in Hin' as [Hin'|[Heq|Hin']].
    + now apply Hl1.
    + injection Heq as <- <-. unfold readBefore in Hread. cbn [fst snd] in Hread.
      lia.
    + apply Hafter in Hin'. unfold readBefore in Hread, Hin'.
      cbn [fst snd] in Hread, Hin'. lia.
  - intros [Hrange [Hf Hfirst]].
    assert (In (r, c) allIndices) as Hin
        by (apply allIndices_In; cbn [fst snd]; lia).
    apply in_split in Hin as [l1 [l2 Hl]]. exists l1, l2.
    split; [exact Hl|]. split; [exact Hf|].
    destruct (readInOrder_split _ allIndices_readInOrder l1 (r, c) l2 Hl)
      as [Hbefore _].
    intros [r' c'] Hy.
    assert (In (r', c') allIndices) as Hin'
        by (rewrite Hl; apply in_or_app; now left).
    apply allIndices_In in Hin'. cbn [fst snd] in Hin'.
    apply Hfirst; [lia | lia | now apply Hbefore].
Qed.

Lemma findKingPosition_kingStandsOn (b : Board) (player : Player)
      (kingPos : Position) :
  findKingPosition b player = Some kingPos <-> kingStandsOn b player kingPos.
Proof.
  unfold findKingPosition, kingStandsOn. split.
  - destruct (find _ allIndices) as [[r c]|] eqn:Hfind; [|discriminate].
    intros H. injection H as <-.
    apply find_allIndices in Hfind as [[Hr Hc] [Hking Hfirst]].
    cbn [fst snd] in Hking.
    split; [unfold onBoard, indexToPosition; cbn [col row]; lia|].
    rewrite getPieceAt_indexToPosition. split.
    + apply isKingOf_spec in Hking as [p [Hp Hk]]. now exists p.
    + intros r' c' p Hr' Hc' Hread Hp Hk.
      assert (positionToIndex (indexToPosition r c) = (r, c)) as Hidx
          by (unfold positionToIndex, indexToPosition; cbn [col row];
              f_equal; lia).
      rewrite Hidx in Hread. specialize (Hfirst r' c' Hr' Hc' Hread).
      cbn [fst snd] in Hfirst.
      assert (isKingOf player (boardAt b r' c') = true) as Habs
          by (apply isKingOf_spec; now exists p).
      rewrite Hfirst in Habs. discriminate.
  - intros [[Hc Hr] [[p [Hp Hk]] Hfirst]].
    assert (find (fun rc => isKingOf player (boardAt b (fst rc) (snd rc)))
                 allIndices = Some (row kingPos - 1, 9 - col kingPos))
      as Hfind.
    { apply find_allIndices. cbn [fst snd].
      split; [lia|]. split.
      - apply isKingOf_spec. exists p. now rewrite boardAt_getPieceAt.
      - intros r' c' Hr' Hc' Hread.
        destruct (isKingOf player (boardAt b r' c')) eqn:Hking;
          [|reflexivity].
        apply isKingOf_spec in Hking as [q [Hq Hkq]].
        now destruct (Hfirst r' c' q Hr' Hc' Hread Hq). }
    rewrite Hfind. now rewrite indexToPosition_of_position.
Qed.

Lemma isSquareAttacked_attackedBy (b : Board) (target : Position)
      (byPlayer : Player) :
  isSquareAttacked b target byPlayer = true <-> attackedBy b byPlayer target.
Proof.
  rewrite isSquareAttacked_spec. unfold attackedBy. split.
  - intros [r [c [p [Hr [Hc [Hp [Ho Hraw]]]]]]].
    unfold getRawMoves in Hraw. apply in_flat_map in Hraw as [pattern [Hcat Hin]].
    exists (indexToPosition r c), p, pattern.
    split; [unfold onBoard, indexToPosition; cbn [col row]; lia|].
    split; [now rewrite getPieceAt_indexToPosition|].
    split; [exact Ho|]. split; [exact Hcat|].
    now apply (patternMoves_In b _ (type p)).
  - intros [src [p [pattern [[Hc Hr] [Hp [Ho [Hcat Hreach]]]]]]].
    exists (row src - 1), (9 - col src), p.
    split; [lia|]. split; [lia|].
    split; [now rewrite boardAt_getPieceAt|]. split; [exact Ho|].
    rewrite indexToPosition_of_position. unfold getRawMoves.
    apply in_flat_map. exists pattern. split; [exact Hcat|].
    now apply (patternMoves_In b _ (type p)).
Qed.

Lemma isInCheck_kingInCheck (b : Board) (player : Player) :
  isInCheck b player = true <-> kingInCheck b player.
Proof.
  unfold isInCheck, kingInCheck. split.
  - destruct (findKingPosition b player) as [kp|] eqn:Hking; [|discriminate].
    intros H. exists kp. split.
    + now apply findKingPosition_kingStandsOn.
    + now apply isSquareAttacked_attackedBy.
  - intros [kp [Hking Hatt]]. apply findKingPosition_kingStandsOn in Hking.
    rewrite Hking. now apply isSquareAttacked_attackedBy.
Qed.

Lemma isInCheck_not_kingInCheck (b : Board) (player : Player) :
  isInCheck b player = false <-> ~ kingInCheck b player.
Proof.
  rewrite <- isInCheck_kingInCheck. now destruct (isInCheck b player).
Qed.

(** ** The board a move or a drop is judged on *)

Lemma getPieceAt_onBoard (b : Board) (pos : Position) (p : Piece) :
  wellShaped b -> getPieceAt b pos = Some p -> onBoard pos.
Proof.
  intros Hb. unfold getPieceAt, positionToIndex, boardAt, onBoard.
  destruct (Z.ltb_spec (row pos - 1) 0) as [Hr|Hr]; [discriminate|].
  destruct (Z.ltb_spec (9 - col pos) 0) as [Hc|Hc]; [discriminate|].
  cbn [orb]. intros Hp.
  destruct (Z_lt_ge_dec (row pos - 1) 9) as [Hr9|Hr9].
  - destruct (Z_lt_ge_dec (9 - col pos) 9) as [Hc9|Hc9]; [lia|].
    rewrite nth_overflow in Hp; [discriminate|].
    rewrite (wellShaped_row b (row pos - 1) Hb) by lia. lia.
  - rewrite (nth_overflow b) in Hp by (destruct Hb as [-> _]; lia).
    now destruct (Z.to_nat (9 - col pos)).
Qed.

Lemma applyMove_movedOn (b : Board) (move : MoveAction) (mp : Piece) :
  wellShaped b -> onBoard (from move) -> onBoard (to move) ->
  from move <> to move -> getPieceAt b (from move) = Some mp ->
  movedOn b move mp (newBoard (applyMove b move)).
Proof.
  intros Hb Hfrom Hto Hne Hmp. unfold movedOn.
  split; [now apply applyMove_wellShaped|].
  rewrite applyMove_newBoard, Hmp. unfold positionToIndex.
  pose proof (boardPut_wellShaped b (row (from move) - 1) (9 - col (from move))
                                  None Hb) as Hb1.
  split; [|split].
  - rewrite getPieceAt_boardPut_other by assumption.
    now apply getPieceAt_boardPut_same.
  - now apply getPieceAt_boardPut_same.
  - intros other Ho Hn1 Hn2.
    rewrite getPieceAt_boardPut_other by assumption.
    now apply getPieceAt_boardPut_other.
Qed.

Lemma applyDrop_droppedOn (b : Board) (drop : DropAction) (player : Player) :
  wellShaped b -> onBoard (dropTo drop) ->
  droppedOn b drop player (applyDrop b drop player).
Proof.
  intros Hb Hto. unfold droppedOn.
  split; [now apply applyDrop_wellShaped|].
  unfold applyDrop, positionToIndex. rewrite cloneBoard_same. split.
  - now apply getPieceAt_boardPut_same.
  - intros other Ho Hne. now apply getPieceAt_boardPut_other.
Qed.

(** C1. [isLegalMove] accepts a board move exactly when, on the board
    [applyMove] computes, the mover's king (the first square in reading
    order holding a king of the mover) is not reached by any piece of the
    opponent along a pattern of its kind.  On a board of the declared shape,
    for a move between two distinct squares of the board from an occupied
    origin, that board is the position after the move: origin emptied, the
    piece on the destination, promoted when the move asks for it and the
    kind allows it, every other square as before.  [getLegalMovesForPiece]
    returns exactly those of the candidates it builds that pass the test, so
    every move it returns is a move of a piece of the player from the given
    square and leaves the mover's king unattacked on the resulting board. *)
Theorem legal_move_filter_iff_king_unattacked (b : Board) (player : Player) :
  (forall move,
      isLegalMove b move player = true
      <-> ~ kingInCheck (newBoard (applyMove b move)) player)
  /\ (forall move mp,
        wellShaped b -> onBoard (from move) -> onBoard (to move) ->
        from move <> to move -> getPieceAt b (from move) = Some mp ->
        movedOn b move mp (newBoard (applyMove b move)))
  /\ (forall src move,
        In move (getLegalMovesForPiece b src player)
        <-> In move (candidateMoves b src player)
            /\ ~ kingInCheck (newBoard (applyMove b move)) player)
  /\ (forall src move,
        wellShaped b ->
        In move (getLegalMovesForPiece b src player) ->
        exists mp,
          getPieceAt b src = Some mp /\ owner mp = player /\ from move = src
          /\ movedOn b move mp (newBoard (applyMove b move))
          /\ ~ kingInCheck (newBoard (applyMove b move)) player
          /\ isInCheck (newBoard (applyMove b move)) player = false).
Proof.
  assert (forall move,
             isLegalMove b move player = true
             <-> ~ kingInCheck (newBoard (applyMove b move)) player) as Hiff.
  { intros move. unfold isLegalMove. rewrite negb_true_iff.
    apply isInCheck_not_kingInCheck. }
  split; [exact Hiff|]. split; [|split].
  - intros move mp. apply applyMove_movedOn.
  - intros src move. rewrite getLegalMovesForPiece_In. now rewrite Hiff.
  - intros src move Hb Hin.
    pose proof (getLegalMovesForPiece_to b src player move Hin)
      as [Hto [Hne _]].
    apply getLegalMovesForPiece_In in Hin as [Hcand Hlegal].
    apply candidateMoves_In in Hcand as [mp [dst [Hmp [Ho [_ Hin]]]]].
    apply candidatesTo_In in Hin as [Hm _].
    assert (from move = src) as Hfrom by (rewrite Hm; reflexivity).
    exists mp. split; [exact Hmp|]. split; [exact Ho|].
    split; [exact Hfrom|]. split; [|split].
    + apply applyMove_movedOn; try assumption.
      * rewrite Hfrom. now apply (getPieceAt_onBoard b src mp).
      * rewrite Hfrom. intros Heq. apply Hne. now symmetry.
      * now rewrite Hfrom.
    + now apply Hiff.
    + unfold isLegalMove in Hlegal. now apply negb_true_iff in Hlegal.
Qed.

(** On the hanging-gold position the pawn takes the gold and promotes: the
    move is accepted, the board judged has the promoted pawn on 3c and 3d
    empty, and the king of the first player is not in check on it. *)
Lemma legal_move_filter_iff_king_unattacked_witness :
  isLegalMove (board hangingGoldState)
              (mkMoveAction (mkPosition 3 4) (mkPosition 3 3) pawn (Some gold)
                            true) sente = true
  /\ getPieceAt
       (newBoard (applyMove (board hangingGoldState)
                            (mkMoveAction (mkPosition 3 4) (mkPosition 3 3)
                                          pawn (Some gold) true)))
       (mkPosition 3 3) = Some (mkPiece promotedPawn sente true)
  /\ getPieceAt
       (newBoard (applyMove (board hangingGoldState)
                            (mkMoveAction (mkPosition 3 4) (mkPosition 3 3)
                                          pawn (Some gold) true)))
       (mkPosition 3 4) = None
  /\ ~ kingInCheck
       (newBoard (applyMove (board hangingGoldState)
                            (mkMoveAction (mkPosition 3 4) (mkPosition 3 3)
                                          pawn (Some gold) true))) sente.
Proof.
  destruct (legal_move_filter_iff_king_unattacked (board hangingGoldState)
                                                  sente)
    as [Hiff [Hmoved _]].
  assert (isLegalMove (board hangingGoldState)
                      (mkMoveAction (mkPosition 3 4) (mkPosition 3 3) pawn
                                    (Some gold) true) sente = true) as Hlegal
      by (vm_compute; reflexivity).
  destruct (Hmoved (mkMoveAction (mkPosition 3 4) (mkPosition 3 3) pawn
                                 (Some gold) true)
                   (createPiece pawn sente))
    as [_ [Hfrom [Hto _]]].
  - apply wellShaped_by_scan. reflexivity.
  - unfold onBoard. cbn [from col row]. lia.
  - unfold onBoard. cbn [to col row]. lia.
  - cbn [from to]. discriminate.
  - vm_compute. reflexivity.
  - split; [exact Hlegal|]. split; [exact Hto|]. split; [exact Hfrom|].
    now apply Hiff.
Defined.

(** C2. [isLegalDrop] returns true exactly when: the reserve count of the
    kind is at least 1; the destination square is empty; the destination is
    not an immobile square for the unpromoted kind (farthest rank for pawn
    and lance, two farthest ranks for knight); for a pawn, no unpromoted pawn
    of the dropping side stands anywhere on the destination file; for a pawn,
    the opponent is not checkmated on the board after the drop, checkmate
    being evaluated with no hand (the opponent's king is attacked and no
    relocation of a piece of the opponent escapes); and on the board after
    the drop the dropping side's king is not attacked.  On a board of the
    declared shape and for a destination of the board, the board after the
    drop is the position with the unpromoted piece of the kind on the
    destination and every other square as before. *)
Theorem isLegalDrop_iff (b : Board) (drop : DropAction) (player : Player)
        (hand : Hand) :
  let after := applyDrop b drop player in
  (isLegalDrop b drop player hand = true
   <-> 1 <= handCount hand (dropPiece drop)
       /\ getPieceAt b (dropTo drop) = None
       /\ ~ (((handKind (dropPiece drop) = pawn
                \/ handKind (dropPiece drop) = lance)
               /\ row (dropTo drop) = farthestRank player)
              \/ (handKind (dropPiece drop) = knight
                  /\ inFarthestTwoRanks player (row (dropTo drop))))
       /\ (dropPiece drop = handPawn ->
           ~ ownPawnOnFileOf b player (dropTo drop))
       /\ (dropPiece drop = handPawn ->
           isCheckmate after (opponentOf player) None = false)
       /\ ~ kingInCheck after player)
  /\ (wellShaped b -> onBoard (dropTo drop) -> droppedOn b drop player after)
  /\ (isCheckmate after (opponentOf player) None = true
      <-> kingInCheck after (opponentOf player)
          /\ ~ relocationEscapes after (opponentOf player)).
Proof.
  intros after. subst after. split; [|split].
  - rewrite isLegalDrop_tests, !andb_true_iff, !negb_true_iff.
    rewrite Z.leb_gt, isInCheck_not_kingInCheck.
    rewrite <- isDeadPosition_spec, <- ownPawnOnFile_spec, <- isHandPawn_spec.
    destruct (getPieceAt b (dropTo drop));
      destruct (isDeadPosition _ _ _);
      destruct (isHandPawn (dropPiece drop));
      destruct (ownPawnOnFile _ _ _);
      destruct (isCheckmate _ _ _); cbn [andb];
      intuition (try discriminate; try congruence; try lia).
  - apply applyDrop_droppedOn.
  - rewrite isCheckmate_no_hand. now rewrite isInCheck_kingInCheck.
Qed.

(** On the cornered-king position the gold in hand dropped on 1h is
    accepted: the board judged has the gold on 1h, and the king of the
    first player is not attacked on it. *)
Lemma isLegalDrop_iff_witness :
  isLegalDrop corneredKingBoard (mkDropAction (mkPosition 1 8) handGold) sente
              (handOf (hands corneredKingState) sente) = true
  /\ getPieceAt (applyDrop corneredKingBoard
                           (mkDropAction (mkPosition 1 8) handGold) sente)
                (mkPosition 1 8) = Some (mkPiece gold sente false)
  /\ ~ kingInCheck (applyDrop corneredKingBoard
                              (mkDropAction (mkPosition 1 8) handGold) sente)
                   sente.
Proof.
  destruct (isLegalDrop_iff corneredKingBoard
                            (mkDropAction (mkPosition 1 8) handGold) sente
                            (handOf (hands corneredKingState) sente))
    as [Hiff [Hdropped _]].
  assert (isLegalDrop corneredKingBoard
                      (mkDropAction (mkPosition 1 8) handGold) sente
                      (handOf (hands corneredKingState) sente) = true)
    as Hlegal by (vm_compute; reflexivity).
  destruct Hdropped as [_ [Hto _]].
  - apply wellShaped_by_scan. reflexivity.
  - unfold onBoard. cbn [dropTo col row]. lia.
  - split; [exact Hlegal|]. split; [exact Hto|].
    apply Hiff in Hlegal. apply Hlegal.
Defined.

(* ================================================================== *)
(** ** The encoding is the one described *)

Lemma pieceToSfen_described (p : Piece) : pieceToSfen p = describedPiece p.
Proof.
  destruct p as [t o q]. unfold pieceToSfen, describedPiece. cbn [type owner].
  destruct t, o; reflexivity.
Qed.

Lemma rowTail_described (l : list Square) :
  forall n, rowTail n l = describedRun n l.
Proof.
  induction l as [|[p|] l IH]; intros n; cbn [rowTail describedRun].
  - reflexivity.
  - unfold pendingCount. now rewrite pieceToSfen_described, IH.
  - apply IH.
Qed.

Lemma boardToSfen_described (b : Board) : boardToSfen b = describedBoard b.
Proof.
  unfold boardToSfen, describedBoard.
  change ranks with (map (fun r => r + 1) indices).
  rewrite map_map. f_equal. apply map_ext. intros r.
  rewrite rowToSfen_rowTail, rowTail_described. f_equal.
  change files with (map (fun c => 9 - c) indices).
  rewrite map_map. apply map_ext. intros c.
  unfold getPieceAt, positionToIndex. cbn [col row]. f_equal; lia.
Qed.

Lemma encItems_described (hand : Hand) (o : Player)
      (letter : HandPieceType -> ascii) :
  (forall k, letter k = describedLetter (handKind k) o) ->
  encItems (map (fun k => (handCount hand k, letter k)) handPieces)
  = describedHand hand o.
Proof.
  intros Hletter. unfold describedHand. generalize handPieces as kinds.
  induction kinds as [|k kinds IH]; cbn [map encItems fold_right];
    [reflexivity|].
  rewrite IH, Hletter. unfold handToken.
  destruct (Z.ltb_spec 0 (handCount hand k)) as [Hpos|Hzero];
    destruct (Z.ltb_spec 1 (handCount hand k)) as [Hmany|Hone];
    try reflexivity.
  lia.
Qed.

Lemma handsToSfen_described (hs : Hands) : handsToSfen hs = describedHands hs.
Proof.
  rewrite handsToSfen_items. unfold handItems, describedHands.
  rewrite encItems_app.
  rewrite (encItems_described (senteHand hs) sente upperLetter)
    by (intros k; destruct k; reflexivity).
  rewrite (encItems_described (goteHand hs) gote lowerLetter)
    by (intros k; destruct k; reflexivity).
  reflexivity.
Qed.

(** C6. Two game states whose boards hold the same pieces on the same
    squares, whose hands are equal for both sides and whose side to move is
    the same are encoded by [gameStateToSfen] as the same string, whatever
    their move lists, position histories, ply counts, phases, results and
    check flags.  The string is the one described: the ranks 1 to 9 in
    order, separated by [/], each read from file 9 to file 1 with runs of
    empty squares written as their length and pieces as their letter, upper
    case for the first player, lower case for the second, prefixed by [+]
    when promoted; a space; [b] or [w] for the side to move; a space; the
    hands, count (when more than one) then letter for each kind held, the
    first player's before the second's, or [-] when both are empty.  And it
    is a function of exactly these: states with no negative count in hand
    that are encoded alike show the same kind and owner on every square and
    have equal hands and the same side to move. *)
Theorem gameStateToSfen_determined (s1 s2 : GameState)
        (Hboard : sameSquares (board s1) (board s2))
        (Hhands : hands s1 = hands s2)
        (Hside : currentPlayer s1 = currentPlayer s2) :
  gameStateToSfen s1 = gameStateToSfen s2
  /\ (forall s,
        gameStateToSfen s
        = describedSfen (board s) (hands s) (currentPlayer s))
  /\ (forall s s',
        held (hands s) -> held (hands s') ->
        gameStateToSfen s = gameStateToSfen s' ->
        sameShown (board s) (board s')
        /\ hands s = hands s'
        /\ currentPlayer s = currentPlayer s').
Proof.
  split; [|split].
  - unfold gameStateToSfen.
    now rewrite (boardToSfen_ext _ _ Hboard), Hhands, Hside.
  - intros s. unfold gameStateToSfen, describedSfen.
    rewrite boardToSfen_described, handsToSfen_described.
    now destruct (currentPlayer s).
  - intros s s' Hheld Hheld' H. unfold gameStateToSfen in H.
    change (append " " ?x) with (String " " x) in H.
    apply split_at_char in H as [Hb H];
      [| apply concat_rows_chars, boardToSfen_rows
       | apply concat_rows_chars, boardToSfen_rows].
    apply boardToSfen_inj in Hb. split; [exact Hb|].
    destruct (currentPlayer s), (currentPlayer s'); cbn [append] in H;
      try discriminate; injection H as H;
      (split; [now apply handsToSfen_inj | reflexivity]).
Qed.

(** The opening position before and after the caller has recorded it in
    its history, the second on a board carrying a spare tenth row: same
    squares, hands and side, hence the same string, which is the described
    one. *)
Lemma gameStateToSfen_determined_witness :
  let s1 := createInitialGameState in
  let s2 :=
    mkGameState (board s1 ++ [emptyRow]) (hands s1) sente []
      (positionHistory App.createInitialState) 40 middlegame
      (resignation gote) true in
  gameStateToSfen s1 = gameStateToSfen s2
  /\ positionHistory s1 <> positionHistory s2
  /\ describedSfen (board s2) (hands s2) (currentPlayer s2)
     = "lnsgkgsnl/1r5b1/ppppppppp/9/9/9/PPPPPPPPP/1B5R1/LNSGKGSNL b -"%string.
Proof.
  intros s1 s2.
  destruct (gameStateToSfen_determined s1 s2) as [Hsame [Hdescribed _]].
  - apply sameSquares_by_scan. vm_compute. reflexivity.
  - reflexivity.
  - reflexivity.
  - split; [exact Hsame|]. split; [vm_compute; discriminate|].
    rewrite <- Hdescribed, <- Hsame. vm_compute. reflexivity.
Defined.
